(** * termix-agent: session manager, command executor, reconnect policy,
      pty backends and message codec

    A shallow embedding of the agent runtime core (session.go, executor.go,
    agent.go, terminal_unix.go, terminal_windows.go, message.go) together
    with the properties its specification states about it, and of the
    dispatcher and the handlers of agent.go, the configuration, the
    stored credentials and the enrolment (config.go, keychain.go,
    enroll.go, main.go) and the chunked file transfer (file_ops.go) with
    properties the code shows beyond that.

    Goroutines are modelled by explicit state passing.  A call the
    dispatcher makes into the session manager is one step of a transition
    function; the exit paths of a session's reader and watchdog goroutines,
    which run beside the dispatcher, are taken statement by statement: the
    read of [closed] under the mutex, the exit notification, the removal
    from the [sync.Map] registry, the decrement of the [int32] counter and
    the close.  Calls into the operating system (user lookup, search path,
    process execution, dialling) are inputs of the functions that make
    them. *)

From Stdlib Require Import ZArith List Lia Bool Ascii String.
From Stdlib.Strings Require Import Byte.
From stdpp Require Import gmap strings list fin_maps.

Open Scope Z_scope.

(** ** Go integers and [time.Duration] *)

Module GoInt.

(** Two's-complement wrap-around of a [bits]-wide signed integer. *)
Definition wrap (bits : Z) (z : Z) : Z :=
  (z + 2 ^ (bits - 1)) mod 2 ^ bits - 2 ^ (bits - 1).

Definition wrap32 : Z -> Z := wrap 32.
Definition wrap64 : Z -> Z := wrap 64.

Definition MinInt64 : Z := - 2 ^ 63.
Definition MaxInt64 : Z := 2 ^ 63 - 1.

(** [atomic.AddInt32(&x, d)]. *)
Definition AddInt32 (x d : Z) : Z := wrap32 (x + d).

End GoInt.

Module Time.
Import GoInt.

(** [time.Duration] is an [int64] count of nanoseconds. *)
Definition Duration := Z.

Definition Nanosecond : Duration := 1.
Definition Second : Duration := 1000000000.

(** [time.Duration(n) * time.Second] on [int64]. *)
Definition Seconds (n : Z) : Duration := wrap64 (wrap64 n * Second).

(** [d * 2] on [int64]. *)
Definition Double (d : Duration) : Duration := wrap64 (d * 2).

(** [t.Sub(u)]: the difference saturates at the ends of [int64]. *)
Definition Sub (t u : Z) : Duration :=
  Z.max MinInt64 (Z.min MaxInt64 (t - u)).

(** [time.Since(t)] evaluated at instant [now]. *)
Definition Since (now t : Z) : Duration := Sub now t.

(** Largest whole number of seconds a [Duration] can hold. *)
Definition MaxSeconds : Z := 9223372036.

End Time.

(** ** [encoding/base64], standard alphabet with padding *)

Module Base64.

Definition encodeStd : string :=
  "ABCDEFGHIJKLMNOPQRSTUVWXYZabcdefghijklmnopqrstuvwxyz0123456789+/".

Definition digit (v : N) : ascii :=
  match String.get (N.to_nat (N.land v 63)) encodeStd with
  | Some c => c
  | None => "="%char
  end.

Definition group3 (b0 b1 b2 : byte) : N :=
  N.lor (N.lor (N.shiftl (Byte.to_N b0) 16) (N.shiftl (Byte.to_N b1) 8))
        (Byte.to_N b2).

(** [base64.StdEncoding.EncodeToString]. *)
Fixpoint EncodeToString (src : list byte) : string :=
  match src with
  | b0 :: b1 :: b2 :: rest =>
      let v := group3 b0 b1 b2 in
      String (digit (N.shiftr v 18))
        (String (digit (N.shiftr v 12))
           (String (digit (N.shiftr v 6))
              (String (digit v) (EncodeToString rest))))
  | [b0; b1] =>
      let v := group3 b0 b1 x00 in
      String (digit (N.shiftr v 18))
        (String (digit (N.shiftr v 12))
           (String (digit (N.shiftr v 6)) (String "="%char EmptyString)))
  | [b0] =>
      let v := group3 b0 x00 x00 in
      String (digit (N.shiftr v 18))
        (String (digit (N.shiftr v 12))
           (String "="%char (String "="%char EmptyString)))
  | [] => EmptyString
  end.

(** [StdEncoding.EncodedLen(n)]. *)
Definition EncodedLen (n : Z) : Z := (n + 2) / 3 * 4.

(** *** Decoding *)

Fixpoint indexOf (c : ascii) (alphabet : string) (i : N) : option N :=
  match alphabet with
  | EmptyString => None
  | String a rest =>
      if Ascii.eqb a c then Some i else indexOf c rest (N.succ i)
  end.

(** [enc.decodeMap]: [None] is the entry 0xff of a byte that is not in
    the alphabet. *)
Definition decodeMap (c : ascii) : option N := indexOf c encodeStd 0.

Definition byteOf (n : N) : byte :=
  match Byte.of_N (N.land n 255) with
  | Some b => b
  | None => x00
  end.

(** Line breaks are skipped wherever they stand. *)
Definition isNewline (c : ascii) : bool :=
  Ascii.eqb c "010"%char || Ascii.eqb c "013"%char.

Fixpoint skipNewlines (src : string) : string :=
  match src with
  | String c rest => if isNewline c then skipNewlines rest else src
  | EmptyString => src
  end.

(** The bytes of a quantum of [dlen] six-bit digits. *)
Definition quantumBytes (dbuf : list N) : list byte :=
  let d (j : nat) := nth j dbuf 0%N in
  let val := N.lor (N.lor (N.lor (N.shiftl (d 0%nat) 18)
                                 (N.shiftl (d 1%nat) 12))
                          (N.shiftl (d 2%nat) 6)) (d 3%nat) in
  firstn (Nat.pred (List.length dbuf))
    [byteOf (N.shiftr val 16); byteOf (N.shiftr val 8); byteOf val].

(** [Encoding.Decode] with the standard alphabet, padded and not
    strict: quantum after quantum of four digits, [dbuf] being the
    digits of the quantum in progress; [None] is a
    [CorruptInputError]. *)
Fixpoint decodeFrom (dbuf : list N) (src : string) : option (list byte) :=
  match src with
  | EmptyString =>
      match dbuf with
      | [] => Some []
      | _ => None
      end
  | String c rest =>
      match decodeMap c with
      | Some d =>
          if Nat.eqb (List.length dbuf) 3 then
            match decodeFrom [] rest with
            | Some out => Some (quantumBytes (dbuf ++ [d]) ++ out)
            | None => None
            end
          else decodeFrom (dbuf ++ [d]) rest
      | None =>
          if isNewline c then decodeFrom dbuf rest
          else if Ascii.eqb c "="%char then
            match List.length dbuf with
            | 2%nat =>
                match skipNewlines rest with
                | String c' rest' =>
                    if Ascii.eqb c' "="%char then
                      match skipNewlines rest' with
                      | EmptyString => Some (quantumBytes dbuf)
                      | _ => None
                      end
                    else None
                | EmptyString => None
                end
            | 3%nat =>
                match skipNewlines rest with
                | EmptyString => Some (quantumBytes dbuf)
                | _ => None
                end
            | _ => None
            end
          else None
      end
  end.

(** The first [dlen] six-bit digits of a group of 24 bits. *)
Definition sextets (v : N) (dlen : nat) : list N :=
  firstn dlen [N.land (N.shiftr v 18) 63; N.land (N.shiftr v 12) 63;
               N.land (N.shiftr v 6) 63; N.land v 63].

(** A byte the decoder has a use for: a digit, a line break or the
    padding. *)
Definition legal (c : ascii) : bool :=
  match decodeMap c with
  | Some _ => true
  | None => isNewline c || Ascii.eqb c "="%char
  end.

(** [base64.StdEncoding.DecodeString]. *)
Definition DecodeString (s : string) : option (list byte) :=
  decodeFrom [] s.

End Base64.


(** ** The pieces of [os], [os/exec], [os/user] and [strconv] the agent uses *)

Module Os.
Import GoInt.

(** [os/user.User]. *)
Record User := mkUser {
  Uid : string;
  Gid : string;
  Username : string;
  Name : string;
  HomeDir : string
}.

(** [syscall.Credential], the only part of [syscall.SysProcAttr] set. *)
Record Credential := mkCredential {
  cred_Uid : Z;
  cred_Gid : Z
}.

(** [exec.Cmd] before it is started. *)
Record Cmd := mkCmd {
  cmd_Path : string;
  cmd_Args : list string;
  cmd_Env : list string;
  cmd_Dir : string;
  cmd_SysProcAttr : option Credential
}.

(** [exec.Command(name, arg...)]. *)
Definition exec_Command (name : string) (arg : list string) : Cmd :=
  mkCmd name (name :: arg) [] "" None.

(** [os.File]: [Close] reports an error once it has been called before,
    a [PathError] around [ErrClosed]. *)
Record File := mkFile {
  file_name : string;
  file_closed : bool
}.

Definition ErrClosed : string := "file already closed".

Definition PathError (op path err : string) : string :=
  String.append op (String.append " " (String.append path
    (String.append ": " err))).

Definition File_Close (f : File) : File * option string :=
  if file_closed f then (f, Some (PathError "close" (file_name f) ErrClosed))
  else (mkFile (file_name f) true, None).

(** [os.Process], never waited for by the agent: [Kill] signals it. *)
Record Process := mkProcess {
  proc_killed : bool
}.

Definition Process_Kill (p : Process) : Process := mkProcess true.

(** [strconv.Atoi] on decimal digits with an optional sign. *)
Definition digitOf (c : ascii) : option Z :=
  let n := Z.of_N (N_of_ascii c) in
  if (48 <=? n) && (n <=? 57) then Some (n - 48) else None.

Fixpoint digits (acc : Z) (s : string) : option Z :=
  match s with
  | EmptyString => Some acc
  | String c rest =>
      match digitOf c with
      | Some d => digits (10 * acc + d) rest
      | None => None
      end
  end.

Definition Atoi (s : string) : option Z :=
  let parse (body : string) (sign : Z) :=
    match body with
    | EmptyString => None
    | _ =>
        match digits 0 body with
        | Some n =>
            if (MinInt64 <=? sign * n) && (sign * n <=? MaxInt64)
            then Some (sign * n) else None
        | None => None
        end
    end in
  match s with
  | String "-" rest => parse rest (-1)
  | String "+" rest => parse rest 1
  | _ => parse s 1
  end.

(** Conversion to [uint32]. *)
Definition uint32 (z : Z) : Z := z mod 2 ^ 32.

End Os.

(** ** Pseudo-terminal backends (terminal_unix.go, terminal_windows.go) *)

Module Pty.
Import Os.

(** What a [Close] does to the outside, in order. *)
Inductive Effect :=
| ProcessKill
| PtyFileClose
| ConPtyClose.

(** The capability of a backend the properties below are about. *)
Class Closer (T : Type) := {
  Close : T -> T * list Effect * option string
}.

(** *** POSIX variant *)

Record UnixSystem := mkUnixSystem {
  sys_SHELL : string;
  sys_Environ : list string;
  sys_Lookup : string -> option User;
  sys_ptyStart : Cmd -> option string
}.

Record UnixTerminal := mkUnixTerminal {
  ut_pty : option File;
  ut_cmd : option (Cmd * option Process)
}.

(** The command [NewTerminal] hands to [pty.Start]. *)
Definition shellCommand (sys : UnixSystem) (username : string) : Cmd :=
  let shell := if String.eqb (sys_SHELL sys) "" then "/bin/sh"
               else sys_SHELL sys in
  let plain := exec_Command shell ["-l"] in
  let cmd :=
    if String.eqb username "" then plain
    else
      match sys_Lookup sys username with
      | Some u =>
          if String.eqb (HomeDir u) "" then plain
          else
            mkCmd (cmd_Path plain) (cmd_Args plain)
              (sys_Environ sys ++
                 [ String.append "HOME=" (HomeDir u);
                   String.append "USER=" username;
                   String.append "LOGNAME=" username ])
              (HomeDir u)
              (cmd_SysProcAttr plain)
      | None => plain
      end in
  mkCmd (cmd_Path cmd) (cmd_Args cmd)
    (cmd_Env cmd ++ ["TERM=xterm-256color"]) (cmd_Dir cmd)
    (cmd_SysProcAttr cmd).

Definition NewUnixTerminal (sys : UnixSystem) (username : string)
  : UnixTerminal + string :=
  let cmd := shellCommand sys username in
  match sys_ptyStart sys cmd with
  | Some err => inr err
  | None =>
      inl (mkUnixTerminal (Some (mkFile "/dev/ptmx" false))
             (Some (cmd, Some (mkProcess false))))
  end.

Definition UnixClose (t : UnixTerminal)
  : UnixTerminal * list Effect * option string :=
  let '(cmd, killed) :=
    match ut_cmd t with
    | Some (c, Some p) => (Some (c, Some (Process_Kill p)), [ProcessKill])
    | other => (other, [])
    end in
  match ut_pty t with
  | Some f =>
      let '(f', err) := File_Close f in
      (mkUnixTerminal (Some f') cmd, killed ++ [PtyFileClose], err)
  | None => (mkUnixTerminal None cmd, killed, None)
  end.

#[export] Instance UnixCloser : Closer UnixTerminal :=
  {| Close := UnixClose |}.

(** *** Windows variant *)

Record WindowsSystem := mkWindowsSystem {
  sys_hasPowerShell : bool;
  sys_conptyStart : string -> option string
}.

Record WindowsTerminal := mkWindowsTerminal {
  wt_ptyClosed : bool;
  wt_closeOnce : bool;
  wt_closed : bool
}.

Definition windowsShell (sys : WindowsSystem) : string :=
  if sys_hasPowerShell sys then "powershell.exe" else "cmd.exe".

Definition NewWindowsTerminal (sys : WindowsSystem) (username : string)
  : WindowsTerminal + string :=
  match sys_conptyStart sys (windowsShell sys) with
  | Some err => inr err
  | None => inl (mkWindowsTerminal false false false)
  end.

(** The goroutine that waits for the process marks the handle closed. *)
Definition processExited (t : WindowsTerminal) : WindowsTerminal :=
  mkWindowsTerminal (wt_ptyClosed t) (wt_closeOnce t) true.

Definition WindowsClose (t : WindowsTerminal)
  : WindowsTerminal * list Effect * option string :=
  if wt_closeOnce t then (t, [], None)
  else (mkWindowsTerminal true true true, [ConPtyClose], None).

Definition IsClosed (t : WindowsTerminal) : bool := wt_closed t.

#[export] Instance WindowsCloser : Closer WindowsTerminal :=
  {| Close := WindowsClose |}.

(** The terminal after [Close], and the error [Close] returned. *)
Definition closed {T} `{Closer T} (t : T) : T := fst (fst (Close t)).



(** Per-user credential substitution: the command carries the uid and
    gid of [u], as [Executor.setSysProcAttr] makes it for a subprocess. *)
Definition impersonates (u : User) (cmd : Cmd) : Prop :=
  exists uid gid,
    Atoi (Uid u) = Some uid /\ Atoi (Gid u) = Some gid
    /\ cmd_SysProcAttr cmd = Some (mkCredential (uint32 uid) (uint32 gid)).

(** The shell every spawn runs, in login mode. *)
Definition defaultShell (sys : UnixSystem) : string :=
  if String.eqb (sys_SHELL sys) "" then "/bin/sh" else sys_SHELL sys.

(** A system for examples. *)
Definition demo_alice : User :=
  mkUser "1000" "1000" "alice" "Alice" "/home/alice".

Definition demo_unix : UnixSystem :=
  mkUnixSystem "/bin/bash" ["PATH=/usr/bin"; "HOME=/root"]
    (fun name => if String.eqb name "alice" then Some demo_alice else None)
    (fun _ => None).

Definition demo_windows : WindowsSystem :=
  mkWindowsSystem true (fun _ => None).


End Pty.
(** ** Command executor (executor.go, executor_unix.go) *)

Module Executor.
Import GoInt Time Os.

Definition cmdRunningLimit : Z := 5.
Definition cmdExecDefaultTimeout : Duration := 30 * Second.
Definition cmdExecMaxTimeout : Duration := 600 * Second.

Definition CmdErrNone : Z := 0.
Definition CmdErrPermit : Z := 1.
Definition CmdErrNotFound : Z := 2.
Definition CmdErrNoMem : Z := 3.
Definition CmdErrSysErr : Z := 4.
Definition CmdErrRespTooBig : Z := 5.

(** Modelled from the spec: the [Timeout] field.  [Execute] reads
    [cmd.Timeout], but the declaration of [ExecCmdData] in message.go
    stops at [Args]; the wire catalogue lists
    [exec_cmd{token,username?,command,args?,timeout?}].  The field is an
    integer number of seconds, zero when the message does not carry it. *)
Record ExecCmdData := mkExecCmd {
  req_Token : string;
  req_Username : string;
  req_Command : string;
  req_Args : list string;
  req_Timeout : Z
}.

Record CmdResultData := mkCmdResult {
  res_Token : string;
  res_ExitCode : Z;
  res_Stdout : string;
  res_Stderr : string
}.

Record CmdErrorData := mkCmdError {
  err_Token : string;
  err_Code : Z;
  err_Message : string
}.

(** What the executor hands to its two callbacks. *)
Inductive Reply :=
| sendResult (r : CmdResultData)
| sendError (token : string) (code : Z) (message : string).

(** [cmdSemaphore = make(chan struct{}, cmdRunningLimit)]: a buffered
    channel of unit values is its number of queued elements. *)
Definition Semaphore := Z.

(** The [select] with a [default] branch: a send that does not wait.
    [None] is the [default] case. *)
Definition trySend (sem : Semaphore) : option Semaphore :=
  if sem <? cmdRunningLimit then Some (sem + 1) else None.

(** [<-cmdSemaphore] in the deferred function of [executeCommand]; the
    receive waits ([None]) on an empty channel. *)
Definition receive (sem : Semaphore) : option Semaphore :=
  if 0 <? sem then Some (sem - 1) else None.

(** The goroutine [Execute] starts on admission. *)
Record Job := mkJob {
  job_user : option User;
  job_cmdPath : string;
  job_args : list string;
  job_token : string;
  job_timeout : Duration
}.

Inductive Admission :=
| Rejected (r : Reply)
| Spawned (j : Job).

(** The timeout computed between the path lookup and the semaphore. *)
Definition determineTimeout (requested : Z) : Duration :=
  if 0 <? requested then
    let timeout := Seconds requested in
    if cmdExecMaxTimeout <? timeout then cmdExecMaxTimeout else timeout
  else cmdExecDefaultTimeout.

Section WithSystem.
(** [user.Lookup]: [None] is a non-nil error. *)
Variable user_Lookup : string -> option User.
(** [exec.LookPath]: the path and the error it returns. *)
Variable exec_LookPath : string -> string * option string.

Definition Execute (cmd : ExecCmdData) (sem : Semaphore)
  : Semaphore * Admission :=
  let lookup :=
    if String.eqb (req_Username cmd) "" then Some None
    else match user_Lookup (req_Username cmd) with
         | Some u => Some (Some u)
         | None => None
         end in
  match lookup with
  | None =>
      (sem, Rejected (sendError (req_Token cmd) CmdErrPermit
                        "operation not permitted"))
  | Some u =>
      let '(cmdPath, err) := exec_LookPath (req_Command cmd) in
      if match err with Some _ => true | None => false end
         || String.eqb cmdPath ""
      then (sem, Rejected (sendError (req_Token cmd) CmdErrNotFound
                             "command not found"))
      else
        let timeout := determineTimeout (req_Timeout cmd) in
        match trySend sem with
        | Some sem' =>
            (sem', Spawned (mkJob u cmdPath (req_Args cmd)
                              (req_Token cmd) timeout))
        | None =>
            (sem, Rejected (sendError (req_Token cmd) CmdErrNoMem
                              "too many concurrent commands"))
        end
  end.
End WithSystem.

(** [setSysProcAttr] of the POSIX build: the subprocess gets the user's
    uid and gid when both parse; the Windows build does nothing. *)
Definition setSysProcAttr (cmd : Cmd) (u : option User) : Cmd :=
  match u with
  | None => cmd
  | Some u =>
      match Atoi (Uid u) with
      | None => cmd
      | Some uid =>
          match Atoi (Gid u) with
          | None => cmd
          | Some gid =>
              mkCmd (cmd_Path cmd) (cmd_Args cmd) (cmd_Env cmd)
                (cmd_Dir cmd)
                (Some (mkCredential (uint32 uid) (uint32 gid)))
          end
      end
  end.

(** The command [executeCommand] runs for a job. *)
Definition commandOf (j : Job) : Cmd :=
  setSysProcAttr (exec_Command (job_cmdPath j) (job_args j)) (job_user j).

(** The error [cmd.Run] returns. *)
Inductive RunError :=
| ExitError (exitCode : Z)
| OtherError (text : string).

(** [ctx.Err()] after [cmd.Run] has returned. *)
Inductive CtxError :=
| DeadlineExceeded
| Canceled.

(** What running the subprocess under the deadline produced. *)
Record RunResult := mkRun {
  run_err : option RunError;
  run_ctxErr : option CtxError;
  run_stdout : list byte;
  run_stderr : list byte
}.

Definition strlen (s : string) : Z := Z.of_nat (String.length s).

(** [executeCommand] from the return of [cmd.Run] on; the deferred
    receive gives the slot back on every path. *)
Definition executeCommand (j : Job) (r : RunResult) (sem : Semaphore)
  : option Semaphore * Reply :=
  let release := receive sem in
  let finish (exitCode : Z) :=
    let stdoutB64 := Base64.EncodeToString (run_stdout r) in
    let stderrB64 := Base64.EncodeToString (run_stderr r) in
    if 65000 <? strlen stdoutB64 + strlen stderrB64 then
      sendError (job_token j) CmdErrRespTooBig "stdout+stderr is too big"
    else
      sendResult (mkCmdResult (job_token j) exitCode stdoutB64 stderrB64) in
  match run_err r with
  | Some err =>
      match run_ctxErr r with
      | Some DeadlineExceeded =>
          (release, sendError (job_token j) CmdErrSysErr "command timeout")
      | _ =>
          match err with
          | ExitError exitCode => (release, finish exitCode)
          | OtherError text =>
              (release, sendError (job_token j) CmdErrSysErr text)
          end
      end
  | None => (release, finish 0)
  end.

(** The two validation failures, as [Execute] tests them. *)
Definition identityFails (user_Lookup : string -> option User)
    (cmd : ExecCmdData) : Prop :=
  req_Username cmd <> "" /\ user_Lookup (req_Username cmd) = None.

Definition identityOf (user_Lookup : string -> option User)
    (cmd : ExecCmdData) (u : option User) : Prop :=
  (req_Username cmd = "" /\ u = None) \/
  (req_Username cmd <> "" /\ user_Lookup (req_Username cmd) = u
   /\ u <> None).

Definition pathFails (exec_LookPath : string -> string * option string)
    (cmd : ExecCmdData) : Prop :=
  snd (exec_LookPath (req_Command cmd)) <> None \/
  fst (exec_LookPath (req_Command cmd)) = "".

Definition pathOf (exec_LookPath : string -> string * option string)
    (cmd : ExecCmdData) (p : string) : Prop :=
  exec_LookPath (req_Command cmd) = (p, None) /\ p <> "".


(** The process ran to an exit without deadline violation. *)
Definition completed (r : RunResult) : Prop :=
  run_err r = None \/
  exists code, run_err r = Some (ExitError code)
               /\ run_ctxErr r <> Some DeadlineExceeded.

Definition encodedSize (r : RunResult) : Z :=
  Base64.EncodedLen (Z.of_nat (List.length (run_stdout r)))
  + Base64.EncodedLen (Z.of_nat (List.length (run_stderr r))).

Definition tooBigB (r : RunResult) : bool := 65000 <? encodedSize r.

(** A small system for examples: one known user, one tool on the path. *)
Definition demo_alice : User := Pty.demo_alice.

Definition demo_Lookup (name : string) : option User :=
  if String.eqb name "alice" then Some demo_alice else None.

Definition demo_LookPath (file : string) : string * option string :=
  if String.eqb file "ls" then ("/bin/ls", None)
  else ("", Some "executable file not found in $PATH").

Definition demo_job : Job :=
  mkJob (Some demo_alice) "/bin/ls" ["-l"] "t3" (600 * Second).

(** [CmdErrorString]. *)
Definition CmdErrorString (code : Z) : string :=
  if code =? CmdErrPermit then "operation not permitted"
  else if code =? CmdErrNotFound then "command not found"
  else if code =? CmdErrNoMem then "too many concurrent commands"
  else if code =? CmdErrSysErr then "system error"
  else if code =? CmdErrRespTooBig then "response too large"
  else "".

Definition replyToken (r : Reply) : string :=
  match r with
  | sendResult res => res_Token res
  | sendError token _ _ => token
  end.

(** *** The executor with the goroutines it has started *)

(** [pool_replies] has the newest reply first. *)
Record Pool := mkPool {
  pool_slots : Semaphore;
  pool_running : list Job;
  pool_replies : list Reply
}.

Definition emptyPool : Pool := mkPool 0 [] [].

(** A request arrives at [Execute], or [cmd.Run] returns in the
    goroutine at position [i] of those running. *)
Inductive PoolEvent :=
| Request (cmd : ExecCmdData)
| Returns (i : nat) (r : RunResult).

Section Pool.
Variable user_Lookup : string -> option User.
Variable exec_LookPath : string -> string * option string.

(** [None]: no such goroutine, or its receive would wait. *)
Definition poolStep (e : PoolEvent) (p : Pool) : option Pool :=
  match e with
  | Request cmd =>
      match Execute user_Lookup exec_LookPath cmd (pool_slots p) with
      | (sem, Rejected reply) =>
          Some (mkPool sem (pool_running p) (reply :: pool_replies p))
      | (sem, Spawned j) =>
          Some (mkPool sem (pool_running p ++ [j]) (pool_replies p))
      end
  | Returns i r =>
      match pool_running p !! i with
      | Some j =>
          match executeCommand j r (pool_slots p) with
          | (Some sem, reply) =>
              Some (mkPool sem (delete i (pool_running p))
                      (reply :: pool_replies p))
          | (None, _) => None
          end
      | None => None
      end
  end.

Fixpoint poolRun (p : Pool) (events : list PoolEvent) : option Pool :=
  match events with
  | [] => Some p
  | e :: rest =>
      match poolStep e p with
      | Some p' => poolRun p' rest
      | None => None
      end
  end.
End Pool.

(** The requests among the events. *)
Fixpoint requests (events : list PoolEvent) : nat :=
  match events with
  | [] => O
  | Request _ :: rest => S (requests rest)
  | Returns _ _ :: rest => requests rest
  end.

(** Slots taken are goroutines running, and each of [n] requests is
    either answered or running. *)
Definition balanced (n : nat) (p : Pool) : Prop :=
  pool_slots p = Z.of_nat (List.length (pool_running p))
  /\ 0 <= pool_slots p <= cmdRunningLimit
  /\ (List.length (pool_replies p) + List.length (pool_running p) = n)%nat.

(** The bytes a run produced on its two streams. *)
Definition outputSize (r : RunResult) : Z :=
  Z.of_nat (List.length (run_stdout r))
  + Z.of_nat (List.length (run_stderr r)).

(** *** The subprocess under its deadline (os/exec, context)

    [executeCommand] runs the command under
    [context.WithTimeout(context.Background(), timeout)].  What the
    command does when nothing stops it: whether it can be launched, the
    time it runs until it exits, its exit code and what it writes; and,
    for a run that is cut short, what it has written till then and the
    error [Wait] returns for the killed process. *)
Record Program := mkProgram {
  prog_launch : option string;
  prog_needs : Duration;
  prog_exitCode : Z;
  prog_stdout : list byte;
  prog_stderr : list byte;
  prog_killError : RunError;
  prog_cutStdout : list byte;
  prog_cutStderr : list byte
}.

(** [cmd.Run] with the [ctx.Err()] that is read after it.  A context
    whose timeout is not positive is done before the start, and [Start]
    returns its error.  A process that is still running when the
    deadline passes is killed, and [Run] returns an error.  [late]: the
    run has ended on its own, and the deadline has passed by the time
    [ctx.Err()] is read. *)
Definition cmd_Run (timeout : Duration) (late : bool) (p : Program)
  : RunResult :=
  let ctxErr := if late then Some DeadlineExceeded else None in
  if timeout <=? 0 then
    mkRun (Some (OtherError "context deadline exceeded"))
      (Some DeadlineExceeded) [] []
  else
    match prog_launch p with
    | Some text => mkRun (Some (OtherError text)) ctxErr [] []
    | None =>
        if timeout <? prog_needs p then
          mkRun (Some (prog_killError p)) (Some DeadlineExceeded)
            (prog_cutStdout p) (prog_cutStderr p)
        else
          mkRun (if prog_exitCode p =? 0 then None
                 else Some (ExitError (prog_exitCode p)))
            ctxErr (prog_stdout p) (prog_stderr p)
    end.

(** [executeCommand] as a whole: the context is made with the timeout
    of the job, the command of the job is run under it, and the reply
    is made from what [cmd.Run] returned. *)
Definition runJob (j : Job) (late : bool) (p : Program) (sem : Semaphore)
  : option Semaphore * Reply :=
  executeCommand j (cmd_Run (job_timeout j) late p) sem.



(** For examples: a command that needs a second and one that needs
    more than any timeout allows. *)
Definition demo_quick : Program :=
  mkProgram None Second 3 [x68; x69] [x21] (ExitError (-1)) [] [].




End Executor.

(** ** Connection supervisor: the reconnect loop of [Agent.Run] (agent.go) *)

Module Agent.
Import GoInt Time.

Definition minReconnectDelay : Duration := 5 * Second.
Definition maxReconnectDelay : Duration := 60 * Second.

(** What one turn of the [for] loop of [Run] meets: whether [stopChan] is
    closed at the top of the loop, the error of [connect], and the error
    of [mainLoop] when the connection was made. *)
Record Turn := mkTurn {
  turn_stopped : bool;
  turn_connect : option string;
  turn_mainLoop : option string
}.

(** The effects of [Run], in order. *)
Inductive Action :=
| Connect
| Sleep (d : Duration)
| MainLoop
| CloseConn
| CloseAllSessions.

(** [Returned err] is the return of [Run]; [Looping d] is the loop still
    running, with [reconnectDelay = d], when the turns run out. *)
Inductive Status :=
| Returned (err : option string)
| Looping (reconnectDelay : Duration).

(** The exponential backoff after a failed dial. *)
Definition nextDelay (reconnectDelay : Duration) : Duration :=
  let doubled := Double reconnectDelay in
  if maxReconnectDelay <? doubled then maxReconnectDelay else doubled.

Fixpoint RunLoop (reconnect : bool) (reconnectDelay : Duration)
    (turns : list Turn) : list Action * Status :=
  match turns with
  | [] => ([], Looping reconnectDelay)
  | t :: rest =>
      if turn_stopped t then ([], Returned None)
      else
        match turn_connect t with
        | Some err =>
            if negb reconnect then ([Connect], Returned (Some err))
            else
              let '(acts, st) :=
                RunLoop reconnect (nextDelay reconnectDelay) rest in
              (Connect :: Sleep reconnectDelay :: acts, st)
        | None =>
            let reconnectDelay := minReconnectDelay in
            if negb reconnect then
              ([Connect; MainLoop; CloseConn; CloseAllSessions],
               Returned (turn_mainLoop t))
            else
              let '(acts, st) := RunLoop reconnect reconnectDelay rest in
              (Connect :: MainLoop :: CloseConn :: CloseAllSessions
                 :: Sleep reconnectDelay :: acts, st)
        end
  end.

Definition Run (reconnect : bool) (turns : list Turn)
  : list Action * Status :=
  RunLoop reconnect minReconnectDelay turns.

(** The delays slept, in order. *)
Fixpoint sleeps (acts : list Action) : list Duration :=
  match acts with
  | [] => []
  | Sleep d :: rest => d :: sleeps rest
  | _ :: rest => sleeps rest
  end.

(** A turn whose dial fails at once, and a turn that connects and later
    loses the connection. *)
Definition dialFails (err : string) : Turn := mkTurn false (Some err) None.
Definition connects (lost : option string) : Turn := mkTurn false None lost.

(** The delay before attempt [k + 1] of a run of failures:
    5 s, 10 s, 20 s, 40 s, then 60 s. *)
Definition backoff (k : nat) : Duration :=
  Z.min (5 * 2 ^ Z.of_nat k) 60 * Second.

(** A turn of the loop that does not end [Run]. *)
Definition continues (reconnect : bool) (t : Turn) : Prop :=
  turn_stopped t = false /\ reconnect = true.

(** Every [Connect] but the first comes right after a [Sleep]. *)
Fixpoint paced (acts : list Action) : bool :=
  match acts with
  | [] => true
  | a :: rest =>
      match rest with
      | Connect :: _ =>
          match a with
          | Sleep _ => paced rest
          | _ => false
          end
      | _ => paced rest
      end
  end.

End Agent.

(** ** Message codec (message.go)

    [encoding/json] is taken at the level of the JSON document: [Marshal]
    is the document it prints and [Unmarshal] is what it stores from a
    parsed document, member by member.  A Go string is a sequence of
    bytes and a JSON string is UTF-8 text: [Marshal] prints each byte that
    starts no well-formed UTF-8 sequence as U+FFFD.  Numbers are the
    integers the catalogued structs hold, and object keys are matched by
    their declared spelling. *)

Module Codec.
Import GoInt.

#[local] Set Warnings "-register-all".

Inductive json :=
| JNull
| JBool (b : bool)
| JNumber (n : Z)
| JString (s : string)
| JArray (items : list json)
| JObject (members : list (string * json)).

(** One struct field with a [json:"key"] or [json:"key,omitempty"] tag. *)
Record fieldSpec (K : Type) := mkField {
  field_key : string;
  field_omitempty : bool;
  field_kind : K
}.
Arguments mkField {K} _ _ _.
Arguments field_key {K} _.
Arguments field_omitempty {K} _.
Arguments field_kind {K} _.

(** *** Structs, generically in the kind of their fields *)

Section Struct.
Context {K V : Type}.
Variable encode : K -> V -> json.
(** [decode k j cur]: store document [j] into a field that holds
    [cur]; [None] is an error. *)
Variable decode : K -> json -> V -> option V.
Variable isEmpty : V -> bool.
Variable zero : K -> V.

(** The members [json.Marshal] prints for a struct value. *)
Fixpoint marshalStruct (fields : list (fieldSpec K)) (vs : list V)
  : list (string * json) :=
  match fields, vs with
  | f :: fields', v :: vs' =>
      if field_omitempty f && isEmpty v then marshalStruct fields' vs'
      else (field_key f, encode (field_kind f) v)
             :: marshalStruct fields' vs'
  | _, _ => []
  end.

(** The field a key names, with its position. *)
Fixpoint findField (key : string) (fields : list (fieldSpec K))
  : option (nat * fieldSpec K) :=
  match fields with
  | [] => None
  | f :: fields' =>
      if String.eqb key (field_key f) then Some (O, f)
      else match findField key fields' with
           | Some (i, g) => Some (S i, g)
           | None => None
           end
  end.

(** One member of the document: unknown keys are skipped. *)
Definition storeMember (fields : list (fieldSpec K))
    (st : option (list V)) (m : string * json) : option (list V) :=
  match st with
  | None => None
  | Some vs =>
      match findField (fst m) fields with
      | None => Some vs
      | Some (i, f) =>
          match vs !! i with
          | None => None
          | Some cur =>
              match decode (field_kind f) (snd m) cur with
              | Some v => Some (<[i := v]> vs)
              | None => None
              end
          end
      end
  end.

Definition zeroStruct (fields : list (fieldSpec K)) : list V :=
  map (fun f => zero (field_kind f)) fields.

(** [json.Unmarshal] of an object into a zero struct. *)
Definition unmarshalStruct (fields : list (fieldSpec K))
    (members : list (string * json)) : option (list V) :=
  fold_left (storeMember fields) members (Some (zeroStruct fields)).

(** What a value comes back as: a field left out comes back zero. *)
Fixpoint normalize (fields : list (fieldSpec K)) (vs : list V) : list V :=
  match fields, vs with
  | f :: fields', v :: vs' =>
      (if field_omitempty f && isEmpty v then zero (field_kind f) else v)
        :: normalize fields' vs'
  | _, _ => []
  end.

(** A field whose value, printed and stored into the zero value, comes
    back as it was. *)
Definition survives (f : fieldSpec K) (v : V) : Prop :=
  decode (field_kind f) (encode (field_kind f) v) (zero (field_kind f))
  = Some v.
End Struct.

(** *** Strings (unicode/utf8, as encoding/json uses it) *)

Definition between (lo hi b : N) : bool := ((lo <=? b) && (b <=? hi))%N.

Definition continuation (c : ascii) : bool :=
  between 128 191 (N_of_ascii c).

(** [utf8.first] with [utf8.acceptRanges]: the length a leading byte
    announces and the range of the byte that follows it. *)
Definition leading (b : N) : option (nat * (N * N)) :=
  if between 194 223 b then Some (2%nat, (128, 191)%N)
  else if (b =? 224)%N then Some (3%nat, (160, 191)%N)
  else if between 225 236 b then Some (3%nat, (128, 191)%N)
  else if (b =? 237)%N then Some (3%nat, (128, 159)%N)
  else if between 238 239 b then Some (3%nat, (128, 191)%N)
  else if (b =? 240)%N then Some (4%nat, (144, 191)%N)
  else if between 241 243 b then Some (4%nat, (128, 191)%N)
  else if (b =? 244)%N then Some (4%nat, (128, 143)%N)
  else None.

(** [utf8.DecodeRuneInString], its width: [None] is [RuneError] of
    width 1. *)
Definition DecodeRuneInString (s : string) : option nat :=
  match s with
  | EmptyString => None
  | String c0 rest =>
      if (N_of_ascii c0 <? 128)%N then Some 1%nat
      else
        match leading (N_of_ascii c0), rest with
        | Some (size, (lo, hi)), String c1 rest1 =>
            if between lo hi (N_of_ascii c1) then
              match size, rest1 with
              | 2%nat, _ => Some 2%nat
              | 3%nat, String c2 _ =>
                  if continuation c2 then Some 3%nat else None
              | 4%nat, String c2 (String c3 _) =>
                  if continuation c2 && continuation c3 then Some 4%nat
                  else None
              | _, _ => None
              end
            else None
        | _, _ => None
        end
  end.

(** U+FFFD in UTF-8. *)
Definition RuneError : string :=
  String (ascii_of_N 239) (String (ascii_of_N 191)
    (String (ascii_of_N 189) EmptyString)).

(** The text [json.Marshal] prints for a string; [skip] bytes of the
    sequence in progress are still to be copied. *)
Fixpoint appendString (skip : nat) (s : string) : string :=
  match s with
  | EmptyString => EmptyString
  | String c rest =>
      match skip with
      | S k => String c (appendString k rest)
      | O =>
          match DecodeRuneInString s with
          | Some size => String c (appendString (Nat.pred size) rest)
          | None => String.append RuneError (appendString 0 rest)
          end
      end
  end.

Definition textOf (s : string) : string := appendString 0 s.

(** A string that is printed as it is: well-formed UTF-8. *)
Definition validText (s : string) : bool := String.eqb (textOf s) s.

(** Only bytes below 0x80. *)
Definition isASCII (s : string) : bool :=
  forallb (fun c => (N_of_ascii c <? 128)%N) (list_ascii_of_string s).

(** *** Scalars *)

Inductive scalarKind := KString | KBool | KInt | KInt64 | KUint16.

Inductive scalar :=
| VString (s : string)
| VBool (b : bool)
| VInt (n : Z).

Definition inRange (k : scalarKind) (n : Z) : bool :=
  match k with
  | KInt | KInt64 => (MinInt64 <=? n) && (n <=? MaxInt64)
  | KUint16 => (0 <=? n) && (n <? 65536)
  | _ => false
  end.

Definition scalarOk (k : scalarKind) (v : scalar) : bool :=
  match k, v with
  | KString, VString s => validText s
  | KBool, VBool _ => true
  | (KInt | KInt64 | KUint16), VInt n => inRange k n
  | _, _ => false
  end.

Definition encodeScalar (k : scalarKind) (v : scalar) : json :=
  match v with
  | VString s => JString (textOf s)
  | VBool b => JBool b
  | VInt n => JNumber n
  end.

(** [null] leaves a scalar as it is. *)
Definition decodeScalar (k : scalarKind) (j : json) (cur : scalar)
  : option scalar :=
  match j, k with
  | JNull, _ => Some cur
  | JString s, KString => Some (VString s)
  | JBool b, KBool => Some (VBool b)
  | JNumber n, (KInt | KInt64 | KUint16) =>
      if inRange k n then Some (VInt n) else None
  | _, _ => None
  end.

Definition emptyScalar (v : scalar) : bool :=
  match v with
  | VString s => String.eqb s ""
  | VBool b => negb b
  | VInt n => n =? 0
  end.

Definition zeroScalar (k : scalarKind) : scalar :=
  match k with
  | KString => VString ""
  | KBool => VBool false
  | KInt | KInt64 | KUint16 => VInt 0
  end.

Definition leaf := fieldSpec scalarKind.

(** *** Fields of the catalogued structs: scalars and slices *)

Inductive kind :=
| KScalar (k : scalarKind)
| KStrings
| KStructs (leaves : list leaf).

(** A nil slice is [None]. *)
Inductive value :=
| VScalar (v : scalar)
| VStrings (items : option (list string))
| VStructs (items : option (list (list scalar))).

Definition rowOk (leaves : list leaf) (row : list scalar) : bool :=
  (List.length leaves =? List.length row)%nat
  && forallb (fun fv => scalarOk (field_kind (fst fv)) (snd fv))
       (combine leaves row).

Definition valueOk (k : kind) (v : value) : bool :=
  match k, v with
  | KScalar sk, VScalar s => scalarOk sk s
  | KStrings, VStrings None => true
  | KStrings, VStrings (Some items) => forallb validText items
  | KStructs leaves, VStructs None => true
  | KStructs leaves, VStructs (Some rows) => forallb (rowOk leaves) rows
  | _, _ => false
  end.

Definition marshalRow (leaves : list leaf) (row : list scalar) : json :=
  JObject (marshalStruct encodeScalar emptyScalar leaves row).

Definition encodeValue (k : kind) (v : value) : json :=
  match v with
  | VScalar s =>
      match k with
      | KScalar sk => encodeScalar sk s
      | _ => JNull
      end
  | VStrings None => JNull
  | VStrings (Some items) =>
      JArray (map (fun s => JString (textOf s)) items)
  | VStructs None => JNull
  | VStructs (Some rows) =>
      match k with
      | KStructs leaves => JArray (map (marshalRow leaves) rows)
      | _ => JNull
      end
  end.

Definition decodeString (j : json) : option string :=
  match j with
  | JString s => Some s
  | JNull => Some ""%string
  | _ => None
  end.

Definition decodeRow (leaves : list leaf) (j : json)
  : option (list scalar) :=
  match j with
  | JObject members =>
      unmarshalStruct decodeScalar zeroScalar leaves members
  | JNull => Some (zeroStruct zeroScalar leaves)
  | _ => None
  end.

(** All elements decode, or the whole array is an error. *)
Fixpoint decodeAll {A} (dec : json -> option A) (items : list json)
  : option (list A) :=
  match items with
  | [] => Some []
  | j :: rest =>
      match dec j, decodeAll dec rest with
      | Some a, Some l => Some (a :: l)
      | _, _ => None
      end
  end.

(** [null] makes a slice nil. *)
Definition decodeValue (k : kind) (j : json) (cur : value)
  : option value :=
  match k with
  | KScalar sk =>
      match cur with
      | VScalar c => option_map VScalar (decodeScalar sk j c)
      | _ => None
      end
  | KStrings =>
      match j with
      | JNull => Some (VStrings None)
      | JArray items =>
          option_map (fun l => VStrings (Some l))
            (decodeAll decodeString items)
      | _ => None
      end
  | KStructs leaves =>
      match j with
      | JNull => Some (VStructs None)
      | JArray items =>
          option_map (fun l => VStructs (Some l))
            (decodeAll (decodeRow leaves) items)
      | _ => None
      end
  end.

(** [omitempty] leaves out false, 0, the empty string and a slice of
    length zero, nil or not. *)
Definition emptyValue (v : value) : bool :=
  match v with
  | VScalar s => emptyScalar s
  | VStrings None | VStrings (Some []) => true
  | VStructs None | VStructs (Some []) => true
  | _ => false
  end.

Definition zeroValue (k : kind) : value :=
  match k with
  | KScalar sk => VScalar (zeroScalar sk)
  | KStrings => VStrings None
  | KStructs _ => VStructs None
  end.

Definition schema := list (fieldSpec kind).

(** A struct value, field by field in declaration order. *)
Definition structOk (fields : schema) (vs : list value) : bool :=
  (List.length fields =? List.length vs)%nat
  && forallb (fun fv => valueOk (field_kind (fst fv)) (snd fv))
       (combine fields vs).

Definition json_Marshal (fields : schema) (vs : list value) : json :=
  JObject (marshalStruct encodeValue emptyValue fields vs).

Definition json_Unmarshal (fields : schema) (doc : json)
  : option (list value) :=
  match doc with
  | JObject members =>
      unmarshalStruct decodeValue zeroValue fields members
  | JNull => Some (zeroStruct zeroValue fields)
  | _ => None
  end.

(** *** The envelope *)

(** [Data] is a [json.RawMessage]: [None] is the nil slice. *)
Record Message := mkMessage {
  msg_Type : string;
  msg_Data : option json
}.

(** [data] is the [interface{}] argument: [None] is [nil]. *)
Definition NewMessage (msgType : string)
    (data : option (schema * list value)) : Message :=
  mkMessage msgType
    (match data with
     | Some (fields, vs) => Some (json_Marshal fields vs)
     | None => None
     end).

(** [json.Marshal] of a [Message]: [data] carries [omitempty]. *)
Definition MarshalMessage (msgType : string)
    (data : option (schema * list value)) : json :=
  let msg := NewMessage msgType data in
  JObject (("type"%string, JString (textOf (msg_Type msg)))
             :: match msg_Data msg with
                | Some raw => [("data"%string, raw)]
                | None => []
                end).

Definition storeEnvelope (st : option Message) (m : string * json)
  : option Message :=
  match st with
  | None => None
  | Some msg =>
      if String.eqb (fst m) "type" then
        match snd m with
        | JString s => Some (mkMessage s (msg_Data msg))
        | JNull => Some msg
        | _ => None
        end
      else if String.eqb (fst m) "data" then
        Some (mkMessage (msg_Type msg) (Some (snd m)))
      else Some msg
  end.

Definition ParseMessage (frame : json) : option Message :=
  match frame with
  | JObject members =>
      fold_left storeEnvelope members (Some (mkMessage "" None))
  | JNull => Some (mkMessage "" None)
  | _ => None
  end.

(** [json.Unmarshal] of an empty input is an error. *)
Definition UnmarshalData (fields : schema) (msg : Message)
  : option (list value) :=
  match msg_Data msg with
  | Some raw => json_Unmarshal fields raw
  | None => None
  end.

(** Two field values that differ at most in a slice of length zero being
    nil or not. *)
Definition sameValue (v w : value) : Prop :=
  v = w \/ (emptyValue v = true /\ emptyValue w = true
            /\ match v with VScalar _ => False | _ => True end).

Definition distinctKeys {K} (fields : list (fieldSpec K)) : bool :=
  bool_decide (NoDup (map field_key fields)).

Definition kindWf (k : kind) : bool :=
  match k with
  | KStructs leaves => distinctKeys leaves
  | _ => true
  end.

Definition schemaWf (fields : schema) : bool :=
  distinctKeys fields && forallb (fun f => kindWf (field_kind f)) fields.

(** *** The catalogue: message types and the structs they carry *)

Definition req (key : string) (k : scalarKind) : fieldSpec kind :=
  mkField key false (KScalar k).
Definition opt (key : string) (k : scalarKind) : fieldSpec kind :=
  mkField key true (KScalar k).

Definition RegisterData : schema :=
  [ req "deviceId" KString; req "token" KString; req "hostname" KString;
    req "platform" KString; opt "os" KString; opt "arch" KString;
    opt "goVersion" KString ].
Definition HeartbeatData : schema := [ req "uptime" KInt64 ].
Definition PtyDataMsg : schema :=
  [ req "sessionId" KString; req "data" KString ].
Definition PtyExitMsg : schema :=
  [ req "sessionId" KString; req "code" KInt ].
Definition CmdResultData : schema :=
  [ req "token" KString; req "exitCode" KInt; req "stdout" KString;
    req "stderr" KString ].
Definition CmdErrorData : schema :=
  [ req "token" KString; req "code" KInt; req "message" KString ].
Definition RegisterAckData : schema :=
  [ req "success" KBool; opt "message" KString ].
Definition SpawnPtyData : schema :=
  [ req "sessionId" KString; req "cols" KUint16; req "rows" KUint16;
    opt "username" KString ].
Definition PtyInputData : schema :=
  [ req "sessionId" KString; req "data" KString ].
Definition PtyResizeData : schema :=
  [ req "sessionId" KString; req "cols" KUint16; req "rows" KUint16 ].
Definition ClosePtyData : schema := [ req "sessionId" KString ].
(** Modelled from the spec: the last field, [timeout]; the declaration
    of [ExecCmdData] stops at [args] (see [Executor.ExecCmdData]). *)
Definition ExecCmdData : schema :=
  [ req "token" KString; opt "username" KString; req "command" KString;
    mkField "args" true KStrings; opt "timeout" KInt ].
Definition ListFilesData : schema :=
  [ req "requestId" KString; req "path" KString ].
Definition DownloadFileData : schema :=
  [ req "requestId" KString; req "path" KString ].
Definition UploadFileData : schema :=
  [ req "requestId" KString; req "path" KString; req "fileName" KString;
    req "content" KString ].
Definition CreateFileData : schema :=
  [ req "requestId" KString; req "path" KString; req "fileName" KString;
    opt "content" KString ].
Definition CreateFolderData : schema :=
  [ req "requestId" KString; req "path" KString;
    req "folderName" KString ].
Definition DeleteItemData : schema :=
  [ req "requestId" KString; req "path" KString;
    req "isDirectory" KBool ].
Definition CopyItemData : schema :=
  [ req "requestId" KString; req "sourcePath" KString;
    req "targetDir" KString ].
Definition MoveItemData : schema :=
  [ req "requestId" KString; req "sourcePath" KString;
    req "targetPath" KString ].
Definition RenameItemData : schema :=
  [ req "requestId" KString; req "path" KString; req "newName" KString ].
Definition FileItem : list leaf :=
  [ mkField "name" false KString; mkField "path" false KString;
    mkField "type" false KString; mkField "size" false KInt64;
    mkField "modTime" false KString; mkField "permissions" false KString;
    mkField "owner" true KString; mkField "group" true KString;
    mkField "executable" true KBool; mkField "linkTarget" true KString ].
Definition FileListData : schema :=
  [ req "requestId" KString; req "path" KString;
    mkField "files" false (KStructs FileItem) ].
Definition FileContentData : schema :=
  [ req "requestId" KString; req "path" KString; req "fileName" KString;
    req "content" KString; req "mimeType" KString; req "size" KInt64 ].
Definition FileOpResultData : schema :=
  [ req "requestId" KString; req "success" KBool; opt "message" KString;
    opt "uniqueName" KString ].
Definition FileErrorData : schema :=
  [ req "requestId" KString; req "code" KInt; req "message" KString ].
Definition StreamFileInfoData : schema :=
  [ req "requestId" KString; req "path" KString ].
Definition StreamFileInfoResponseData : schema :=
  [ req "requestId" KString; req "path" KString; req "fileName" KString;
    req "mimeType" KString; req "size" KInt64; opt "error" KString ].
Definition StreamChunkData : schema :=
  [ req "requestId" KString; req "path" KString; req "offset" KInt64;
    req "length" KInt64 ].
Definition StreamChunkResponseData : schema :=
  [ req "requestId" KString; req "offset" KInt64; req "length" KInt64;
    req "data" KString; opt "error" KString ].

(** Each message type with the struct it carries; [None] is a message
    without payload. *)
Definition catalogue : list (string * option schema) :=
  [ ("register", Some RegisterData);
    ("heartbeat", Some HeartbeatData);
    ("pty_data", Some PtyDataMsg);
    ("pty_exit", Some PtyExitMsg);
    ("cmd_result", Some CmdResultData);
    ("cmd_error", Some CmdErrorData);
    ("pong", None);
    ("file_list", Some FileListData);
    ("file_content", Some FileContentData);
    ("file_op_result", Some FileOpResultData);
    ("file_error", Some FileErrorData);
    ("register_ack", Some RegisterAckData);
    ("spawn_pty", Some SpawnPtyData);
    ("pty_input", Some PtyInputData);
    ("pty_resize", Some PtyResizeData);
    ("close_pty", Some ClosePtyData);
    ("exec_cmd", Some ExecCmdData);
    ("ping", None);
    ("list_files", Some ListFilesData);
    ("download_file", Some DownloadFileData);
    ("upload_file", Some UploadFileData);
    ("create_file", Some CreateFileData);
    ("create_folder", Some CreateFolderData);
    ("delete_item", Some DeleteItemData);
    ("copy_item", Some CopyItemData);
    ("move_item", Some MoveItemData);
    ("rename_item", Some RenameItemData);
    ("stream_file_info", Some StreamFileInfoData);
    ("stream_chunk", Some StreamChunkData);
    ("stream_file_info_response", Some StreamFileInfoResponseData);
    ("stream_chunk_response", Some StreamChunkResponseData) ]%string.

(** An exec_cmd request, for examples. *)
Definition demo_exec : list value :=
  [ VScalar (VString "t1"); VScalar (VString "");
    VScalar (VString "ls"); VStrings (Some []); VScalar (VInt 45) ].

(** A registration from a machine whose host name holds the byte 0xff,
    which starts no UTF-8 sequence. *)
Definition demo_register : list value :=
  [ VScalar (VString "dev1"); VScalar (VString "tok");
    VScalar (VString (String (ascii_of_N 255) "a"));
    VScalar (VString "linux"); VScalar (VString "linux/amd64");
    VScalar (VString "amd64"); VScalar (VString "go1.22") ].

End Codec.

(** ** Session manager (session.go)

    The registry is the [sync.Map] from session id to session object, the
    objects live in a heap indexed by allocation order, and the two
    goroutines of a session are part of its state.  The dispatcher's calls
    ([SpawnSession], [CloseSession], [CloseAllSessions], [Write], [Resize])
    are one step each; the reader and the watchdog advance one statement
    at a time once they have read [closed] under the session mutex, so
    that any other step can fall between their check and what they do
    about it. *)

Module Session.
Import GoInt Time.

Definition maxSessions : Z := 10.
Definition sessionReadBufSize : Z := 4096.
Definition inactivityTimeout : Duration := 600 * Second.
(** The period of the ticker in [inactivityMonitor]. *)
Definition monitorPeriod : Duration := 60 * Second.

Inductive Error :=
| ErrMaxSessions
| ErrSessionExists
| ErrNoSession
| ErrTerminal (text : string).

(** The statements a goroutine runs once it has decided to end its
    session: [sendExit], [sessions.Delete], [AddInt32 -1], [s.Close]. *)
Inductive Stage := AtSendExit | AtDelete | AtDecrement | AtClose.

(** A goroutine: in its loop, on its way out through the statements
    above, or returned. *)
Inductive Task :=
| Running
| Exiting (stage : Stage)
| Finished.

(** [terminalClosed]: [terminal.Close] has been called, reads fail.
    [ptyFailed]: the pty has failed on its own (the child exited) while
    the terminal was open, reads fail.  [nextTick]: when the watchdog's
    ticker fires next. *)
Record TermSession := mkSession {
  ID : string;
  terminalClosed : bool;
  ptyFailed : bool;
  lastActivity : Z;
  closed : bool;
  stopChan : bool;
  reader : Task;
  monitor : Task;
  nextTick : Z
}.

(** What the manager hands to [sendData] and [sendExit], with the
    session object that sent it. *)
Inductive Output :=
| DataFrame (h : nat) (sessionID : string) (data : list byte)
| ExitFrame (h : nat) (sessionID : string) (code : Z).

(** [sent] has the newest output first. *)
Record Manager := mkManager {
  sessions : gmap string nat;
  sessionCount : Z;
  heap : list TermSession;
  now : Z;
  sent : list Output
}.

Definition NewSessionManager (start : Z) : Manager :=
  mkManager ∅ 0 [] start [].

(** What [NewTerminal] and [SetWinSize] do for a spawn. *)
Inductive PtyOutcome :=
| PtyStarted
| NewTerminalFails (err : string)
| SetWinSizeFails (err : string).

(** *** Session objects *)

Definition withReader (t : Task) (s : TermSession) : TermSession :=
  mkSession (ID s) (terminalClosed s) (ptyFailed s) (lastActivity s)
    (closed s) (stopChan s) t (monitor s) (nextTick s).

Definition withMonitor (t : Task) (s : TermSession) : TermSession :=
  mkSession (ID s) (terminalClosed s) (ptyFailed s) (lastActivity s)
    (closed s) (stopChan s) (reader s) t (nextTick s).

Definition touch (t : Z) (s : TermSession) : TermSession :=
  mkSession (ID s) (terminalClosed s) (ptyFailed s) t
    (closed s) (stopChan s) (reader s) (monitor s) (nextTick s).

Definition ticked (s : TermSession) : TermSession :=
  mkSession (ID s) (terminalClosed s) (ptyFailed s) (lastActivity s)
    (closed s) (stopChan s) (reader s) (monitor s)
    (nextTick s + monitorPeriod).

(** The child exits: reads of an open terminal fail from now on. *)
Definition failPty (s : TermSession) : TermSession :=
  if terminalClosed s then s
  else mkSession (ID s) (terminalClosed s) true (lastActivity s)
         (closed s) (stopChan s) (reader s) (monitor s) (nextTick s).

(** [TermSession.Close]. *)
Definition Close (s : TermSession) : TermSession :=
  if closed s then s
  else mkSession (ID s) true (ptyFailed s) (lastActivity s)
         true true (reader s) (monitor s) (nextTick s).

(** [terminal.Read] returns an error. *)
Definition readFails (s : TermSession) : bool :=
  terminalClosed s || ptyFailed s.

(** [time.Since(s.lastActivity) > inactivityTimeout]. *)
Definition inactive (t : Z) (s : TermSession) : bool :=
  inactivityTimeout <? Since t (lastActivity s).

(** *** The manager *)

Definition withHeap (f : list TermSession -> list TermSession)
    (m : Manager) : Manager :=
  mkManager (sessions m) (sessionCount m) (f (heap m)) (now m) (sent m).

Definition onSession (h : nat) (f : TermSession -> TermSession)
    (m : Manager) : Manager :=
  withHeap (alter f h) m.

Definition SpawnSession (sessionID : string) (cols rows : Z)
    (username : string) (pty : PtyOutcome) (m : Manager)
  : Manager * option Error :=
  if maxSessions <=? sessionCount m then (m, Some ErrMaxSessions)
  else
    match sessions m !! sessionID with
    | Some _ => (m, Some ErrSessionExists)
    | None =>
        match pty with
        | NewTerminalFails err => (m, Some (ErrTerminal err))
        | SetWinSizeFails err => (m, Some (ErrTerminal err))
        | PtyStarted =>
            let session :=
              mkSession sessionID false false (now m) false false
                Running Running (now m + monitorPeriod) in
            (mkManager (<[sessionID := List.length (heap m)]> (sessions m))
               (AddInt32 (sessionCount m) 1)
               (heap m ++ [session]) (now m) (sent m),
             None)
        end
    end.

Definition GetSession (sessionID : string) (m : Manager)
  : option nat * option Error :=
  match sessions m !! sessionID with
  | Some h => (Some h, None)
  | None => (None, Some ErrNoSession)
  end.

Definition CloseSession (sessionID : string) (m : Manager)
  : Manager * option Error :=
  match sessions m !! sessionID with
  | None => (m, Some ErrNoSession)
  | Some h =>
      (mkManager (delete sessionID (sessions m))
         (AddInt32 (sessionCount m) (-1))
         (alter Close h (heap m)) (now m) (sent m),
       None)
  end.

(** The body of the [Range] in [CloseAllSessions]. *)
Definition closeOne (m : Manager) (entry : string * nat) : Manager :=
  mkManager (delete (fst entry) (sessions m))
    (AddInt32 (sessionCount m) (-1))
    (alter Close (snd entry) (heap m)) (now m) (sent m).

Definition CloseAllSessions (m : Manager) : Manager :=
  fold_left closeOne (map_to_list (sessions m)) m.

Definition SessionCount (m : Manager) : Z := sessionCount m.

(** [Write] and [Resize] of the session a message names: both refresh
    [lastActivity] unless the session is closed. *)
Definition Write (sessionID : string) (m : Manager)
  : Manager * option Error :=
  match sessions m !! sessionID with
  | None => (m, Some ErrNoSession)
  | Some h =>
      match heap m !! h with
      | Some s =>
          if closed s then (m, Some ErrNoSession)
          else (onSession h (touch (now m)) m, None)
      | None => (m, Some ErrNoSession)
      end
  end.

Definition Resize (sessionID : string) (cols rows : Z) (m : Manager)
  : Manager * option Error :=
  Write sessionID m.

(** One statement of a goroutine that is on its way out. *)
Definition exitStep (h : nat) (s : TermSession) (stage : Stage)
    (m : Manager) : Manager * Task :=
  match stage with
  | AtSendExit =>
      (mkManager (sessions m) (sessionCount m) (heap m) (now m)
         (ExitFrame h (ID s) 0 :: sent m),
       Exiting AtDelete)
  | AtDelete =>
      (mkManager (delete (ID s) (sessions m)) (sessionCount m) (heap m)
         (now m) (sent m),
       Exiting AtDecrement)
  | AtDecrement =>
      (mkManager (sessions m) (AddInt32 (sessionCount m) (-1)) (heap m)
         (now m) (sent m),
       Exiting AtClose)
  | AtClose => (onSession h Close m, Finished)
  end.

(** The statement, and the goroutine moved past it. *)
Definition exitWith (setTask : Task -> TermSession -> TermSession)
    (h : nat) (s : TermSession) (stage : Stage) (m : Manager) : Manager :=
  let '(m', t) := exitStep h s stage m in
  onSession h (setTask t) m'.

(** *** Steps *)

Inductive Event :=
| Spawn (sessionID : string) (cols rows : Z) (username : string)
    (pty : PtyOutcome)
| ClosePty (sessionID : string)
| CloseAll
| Input (sessionID : string)
| Resized (sessionID : string) (cols rows : Z)
| Elapse (d : Z)
| ChildExits (h : nat)
| PtyOutput (h : nat) (data : list byte)
| ReaderWakes (h : nat)
| ReaderStep (h : nat)
| Tick (h : nat)
| MonitorStops (h : nat)
| MonitorStep (h : nat).

(** [None]: the event cannot happen in this state. *)
Definition step (e : Event) (m : Manager) : option Manager :=
  match e with
  | Spawn sessionID cols rows username pty =>
      Some (fst (SpawnSession sessionID cols rows username pty m))
  | ClosePty sessionID => Some (fst (CloseSession sessionID m))
  | CloseAll => Some (CloseAllSessions m)
  | Input sessionID => Some (fst (Write sessionID m))
  | Resized sessionID cols rows =>
      Some (fst (Resize sessionID cols rows m))
  | Elapse d =>
      if 0 <=? d then
        Some (mkManager (sessions m) (sessionCount m) (heap m)
                (now m + d) (sent m))
      else None
  | ChildExits h =>
      match heap m !! h with
      | Some _ => Some (onSession h failPty m)
      | None => None
      end
  | PtyOutput h data =>
      (* [Read] returned [n > 0] bytes *)
      match heap m !! h with
      | Some s =>
          match reader s, readFails s, data with
          | Running, false, _ :: _ =>
              let m' := onSession h (touch (now m)) m in
              Some (mkManager (sessions m') (sessionCount m') (heap m')
                      (now m') (DataFrame h (ID s) data :: sent m'))
          | _, _, _ => None
          end
      | None => None
      end
  | ReaderWakes h =>
      (* [stopChan] is closed, or [Read] returned an error and the
         reader reads [closed] under the mutex *)
      match heap m !! h with
      | Some s =>
          match reader s with
          | Running =>
              if stopChan s then
                Some (onSession h (withReader Finished) m)
              else if readFails s then
                Some (onSession h
                        (withReader (if closed s then Finished
                                     else Exiting AtSendExit)) m)
              else None
          | _ => None
          end
      | None => None
      end
  | ReaderStep h =>
      match heap m !! h with
      | Some s =>
          match reader s with
          | Exiting stage => Some (exitWith withReader h s stage m)
          | _ => None
          end
      | None => None
      end
  | Tick h =>
      (* the ticker case of the [select] *)
      match heap m !! h with
      | Some s =>
          match monitor s with
          | Running =>
              if nextTick s <=? now m then
                Some (onSession h
                        (fun s' =>
                           withMonitor
                             (if inactive (now m) s && negb (closed s)
                              then Exiting AtSendExit else Running)
                             (ticked s')) m)
              else None
          | _ => None
          end
      | None => None
      end
  | MonitorStops h =>
      (* the [stopChan] case of the [select] *)
      match heap m !! h with
      | Some s =>
          match monitor s with
          | Running =>
              if stopChan s then Some (onSession h (withMonitor Finished) m)
              else None
          | _ => None
          end
      | None => None
      end
  | MonitorStep h =>
      match heap m !! h with
      | Some s =>
          match monitor s with
          | Exiting stage => Some (exitWith withMonitor h s stage m)
          | _ => None
          end
      | None => None
      end
  end.

Fixpoint run (m : Manager) (trace : list Event) : option Manager :=
  match trace with
  | [] => Some m
  | e :: rest =>
      match step e m with
      | Some m' => run m' rest
      | None => None
      end
  end.

(** *** Whole operations *)

(** Let a goroutine run while it can, for at most [fuel] statements. *)
Fixpoint drain (e : Event) (fuel : nat) (m : Manager) : Manager :=
  match fuel with
  | O => m
  | S fuel' =>
      match step e m with
      | Some m' => drain e fuel' m'
      | None => m
      end
  end.

(** An operation of the manager carried out from its first statement to
    its last with nothing in between: a call of the dispatcher or another
    single step, a reader that wakes and runs to its return, a watchdog
    that handles a tick and, when it closes the session, runs to its
    return. *)
Inductive Op :=
| Single (e : Event)
| ReaderExit (h : nat)
| WatchdogPoll (h : nat).

(** The events that are an operation by themselves. *)
Definition isSingle (e : Event) : bool :=
  match e with
  | ReaderWakes _ | ReaderStep _ | Tick _ | MonitorStep _ => false
  | _ => true
  end.

Definition perform (op : Op) (m : Manager) : option Manager :=
  match op with
  | Single e => if isSingle e then step e m else None
  | ReaderExit h =>
      match step (ReaderWakes h) m with
      | Some m' => Some (drain (ReaderStep h) 4 m')
      | None => None
      end
  | WatchdogPoll h =>
      match step (Tick h) m with
      | Some m' => Some (drain (MonitorStep h) 4 m')
      | None => None
      end
  end.

Fixpoint performAll (m : Manager) (ops : list Op) : option Manager :=
  match ops with
  | [] => Some m
  | op :: rest =>
      match perform op m with
      | Some m' => performAll m' rest
      | None => None
      end
  end.

(** *** Observations *)

Definition live (m : Manager) : Z := Z.of_nat (size (sessions m)).

(** Registered under [sessionID] and open. *)
Definition isLive (m : Manager) (sessionID : string) : bool :=
  match sessions m !! sessionID with
  | Some h =>
      match heap m !! h with
      | Some s => negb (closed s)
      | None => false
      end
  | None => false
  end.

Definition isExitOf (h : nat) (o : Output) : bool :=
  match o with
  | ExitFrame h' _ _ => Nat.eqb h h'
  | DataFrame _ _ _ => false
  end.

(** The exit notifications session object [h] has sent. *)
Definition exitsOf (h : nat) (m : Manager) : list Output :=
  List.filter (isExitOf h) (sent m).

Definition registered (h : nat) (m : Manager) : Prop :=
  exists sessionID, sessions m !! sessionID = Some h.

Definition readerOf (h : nat) (m : Manager) : option Task :=
  reader <$> heap m !! h.

Definition monitorOf (h : nat) (m : Manager) : option Task :=
  monitor <$> heap m !! h.

(** The state after [sendExit], [Delete], [AddInt32 -1] and [Close] of
    session object [h]; [s'] is the object as the goroutine leaves it. *)
Definition departed (h : nat) (s s' : TermSession) (m : Manager)
  : Manager :=
  mkManager (delete (ID s) (sessions m))
    (AddInt32 (sessionCount m) (-1))
    (<[h := s']> (heap m))
    (now m) (ExitFrame h (ID s) 0 :: sent m).

(** The state between whole operations: the counter is the number of
    registered sessions, the registered sessions are exactly the open
    ones, and no goroutine is on its way out. *)
Record Consistent (m : Manager) : Prop := mkConsistent {
  cons_count : sessionCount m = live m;
  cons_bound : live m <= maxSessions;
  cons_registered : forall sessionID h,
    sessions m !! sessionID = Some h ->
    exists s, heap m !! h = Some s /\ ID s = sessionID /\ closed s = false;
  cons_open : forall h s,
    heap m !! h = Some s -> closed s = false ->
    sessions m !! ID s = Some h;
  cons_quiet : forall h s stage,
    heap m !! h = Some s ->
    reader s <> Exiting stage /\ monitor s <> Exiting stage
}.

Definition closedOf (h : nat) (m : Manager) : option bool :=
  closed <$> heap m !! h.

Definition ptyFailedOf (h : nat) (m : Manager) : option bool :=
  ptyFailed <$> heap m !! h.

(** What holds of every state the manager can reach, step by step: the
    three marks [Close] sets are set together, a registered object
    carries the id it is registered under, and an exit notification
    comes from an object one of whose goroutines has left its loop. *)
Record WellFormed (m : Manager) : Prop := mkWellFormed {
  wf_flags : forall h s,
    heap m !! h = Some s ->
    terminalClosed s = closed s /\ stopChan s = closed s;
  wf_registered : forall sessionID h,
    sessions m !! sessionID = Some h ->
    exists s, heap m !! h = Some s /\ ID s = sessionID;
  wf_sent : forall h sessionID code,
    ExitFrame h sessionID code ∈ sent m ->
    exists s, heap m !! h = Some s
              /\ (reader s <> Running \/ monitor s <> Running)
}.

(** Session object [h], registered as [sessionID], while its watchdog
    closes it and its reader has met no failure of the pty. *)
Definition Closing (h : nat) (sessionID : string) (m : Manager) : Prop :=
  exists s,
    heap m !! h = Some s /\ ID s = sessionID
    /\ (forall stage, reader s <> Exiting stage)
    /\ match monitor s with
       | Running => False
       | Exiting AtSendExit => exitsOf h m = []
       | Exiting AtDelete => exitsOf h m = [ExitFrame h sessionID 0]
       | Exiting _ =>
           exitsOf h m = [ExitFrame h sessionID 0] /\ ~ registered h m
       | Finished =>
           exitsOf h m = [ExitFrame h sessionID 0] /\ ~ registered h m
           /\ closed s = true
       end.

(** *** Kinds of change to a session object *)

(** A change of a session object that keeps its id, its [closed] flag
    and puts no goroutine on its way out. *)
Definition harmless (f : TermSession -> TermSession) : Prop :=
  forall s, ID (f s) = ID s /\ closed (f s) = closed s
    /\ (forall stage, reader s <> Exiting stage ->
                      reader (f s) <> Exiting stage)
    /\ (forall stage, monitor s <> Exiting stage ->
                      monitor (f s) <> Exiting stage).

Definition flagsAgree (s : TermSession) : Prop :=
  terminalClosed s = closed s /\ stopChan s = closed s.

(** A change of session object [s] that keeps its id and the agreement
    of its marks, and returns no goroutine to its loop. *)
Definition orderly (f : TermSession -> TermSession) (s : TermSession)
  : Prop :=
  ID (f s) = ID s
  /\ (flagsAgree s -> flagsAgree (f s))
  /\ (reader (f s) = Running -> reader s = Running)
  /\ (monitor (f s) = Running -> monitor s = Running).

(** The goroutine after a statement on its way out. *)
Definition nextTask (stage : Stage) : Task :=
  match stage with
  | AtSendExit => Exiting AtDelete
  | AtDelete => Exiting AtDecrement
  | AtDecrement => Exiting AtClose
  | AtClose => Finished
  end.

(** No statement of the program clears [ptyFailed]. *)
Definition gentle (f : TermSession -> TermSession) : Prop :=
  forall x, ptyFailed (f x) = false -> ptyFailed x = false.



(** Activity on session [sessionID], object [h]: input, a resize, or
    output of the pty. *)
Definition isActivity (sessionID : string) (h : nat) (e : Event) : bool :=
  match e with
  | Input sessionID' => String.eqb sessionID sessionID'
  | Resized sessionID' _ _ => String.eqb sessionID sessionID'
  | PtyOutput h' _ => Nat.eqb h h'
  | _ => false
  end.

(** *** Examples *)

(** Ten spawns from an empty manager. *)
Definition demo_ids : list string :=
  ["s0"; "s1"; "s2"; "s3"; "s4"; "s5"; "s6"; "s7"; "s8"; "s9"]%string.

Definition demo_spawns : list Op :=
  map (fun sessionID => Single (Spawn sessionID 80 24 "" PtyStarted))
    demo_ids.

Definition demo_full : Manager :=
  match performAll (NewSessionManager 0) demo_spawns with
  | Some m => m
  | None => NewSessionManager 0
  end.

(** A session left alone for eleven minutes. *)
Definition demo_idle : list Event :=
  [Spawn "s1" 80 24 "" PtyStarted; Elapse (660 * Second)].

Definition demo_session : TermSession :=
  mkSession "s1" false false 0 false false Running Running (60 * Second).

Definition demo_idle_state : Manager :=
  mkManager {[ "s1"%string := 0%nat ]} 1 [demo_session] (660 * Second) [].

(** One session, just spawned. *)
Definition demo_one : Manager :=
  mkManager {[ "s1"%string := 0%nat ]} 1
    [mkSession "s1" false false 0 false false Running Running
       (60 * Second)] 0 [].

(** The child exits and the reader has read [closed] when the server's
    close_pty for the same session is handled; then the reader goes on. *)
Definition demo_race : list Event :=
  [ Spawn "s1" 80 24 "" PtyStarted; ChildExits 0; ReaderWakes 0;
    ClosePty "s1";
    ReaderStep 0; ReaderStep 0; ReaderStep 0; ReaderStep 0 ].

(** The session has been idle for eleven minutes and its watchdog has
    read [closed] at a tick when the child exits and the reader reads
    [closed] too; then both go on. *)
Definition demo_overlap : list Event :=
  demo_idle
  ++ [ Tick 0; ChildExits 0; ReaderWakes 0;
       MonitorStep 0; ReaderStep 0; MonitorStep 0; ReaderStep 0;
       MonitorStep 0; ReaderStep 0; MonitorStep 0; ReaderStep 0 ].

Definition demo_eleven : list Event :=
  map (fun sessionID => Spawn sessionID 80 24 "" PtyStarted)
    (demo_ids ++ ["s10"%string]).

End Session.

(** ** Message dispatch (agent.go: handleMessage, the handlers and the
    helpers that send)

    The agent is its session manager, the semaphore of the executor and
    its connection.  What a handler needs from outside is given to it:
    what the pty does for a spawn, a write and a resize, the user data
    base and the search path, and what [WriteMessage] returns.  A
    goroutine a handler starts is an effect it returns. *)

Module Dispatch.
Import GoInt Os Codec Session Executor.

Inductive HandleError :=
| ErrParse
| ErrUnmarshal
| ErrOfSession (e : Session.Error)
| ErrCorruptInput
| ErrIO (text : string)
| ErrCloseSent.

(** What a handler does beside changing the agent. *)
Inductive Effect :=
| TerminalWrite (h : nat) (data : list byte)
| TerminalSetWinSize (h : nat) (cols rows : Z)
| GoExecuteCommand (j : Job)
| GoFileOp (msgType : string) (data : list value).

(** [ag_conn]: [a.conn] is not nil.  [ag_written]: the frames handed to
    [WriteMessage], newest first. *)
Record Agent := mkAgent {
  ag_sessions : Manager;
  ag_pool : Semaphore;
  ag_conn : bool;
  ag_written : list json
}.

Record Env := mkEnv {
  env_pty : PtyOutcome;
  env_termWrite : option string;
  env_setWinSize : option string;
  env_Lookup : string -> option User;
  env_LookPath : string -> string * option string;
  env_WriteMessage : json -> option string
}.

Definition withSessions (m : Manager) (a : Agent) : Agent :=
  mkAgent m (ag_pool a) (ag_conn a) (ag_written a).

Definition withPool (sem : Semaphore) (a : Agent) : Agent :=
  mkAgent (ag_sessions a) sem (ag_conn a) (ag_written a).

(** *** Fields of a decoded struct *)

Definition stringAt (i : nat) (vs : list value) : string :=
  match vs !! i with
  | Some (VScalar (VString s)) => s
  | _ => ""
  end.

Definition intAt (i : nat) (vs : list value) : Z :=
  match vs !! i with
  | Some (VScalar (VInt n)) => n
  | _ => 0
  end.

Definition stringsAt (i : nat) (vs : list value) : list string :=
  match vs !! i with
  | Some (VStrings (Some items)) => items
  | _ => []
  end.

Section WithEnv.
Variable env : Env.

(** The two request types whose declarations are not in message.go,
    with the structs they carry. *)
Variable MsgTypeCompressFiles MsgTypeGetDirStats : string.
Variable CompressFilesData GetDirStatsData : schema.

(** *** Sending *)

Definition sendMessage (msgType : string)
    (data : option (schema * list value)) (a : Agent)
  : Agent * option HandleError :=
  let msg := MarshalMessage msgType data in
  if ag_conn a then
    (mkAgent (ag_sessions a) (ag_pool a) (ag_conn a) (msg :: ag_written a),
     match env_WriteMessage env msg with
     | Some text => Some (ErrIO text)
     | None => None
     end)
  else (a, Some ErrCloseSent).

(** The helpers log a send that fails and go on. *)
Definition sendPtyData (sessionID : string) (data : list byte) (a : Agent)
  : Agent :=
  fst (sendMessage "pty_data"
         (Some (PtyDataMsg,
                [VScalar (VString sessionID);
                 VScalar (VString (Base64.EncodeToString data))])) a).

Definition sendPtyExit (sessionID : string) (code : Z) (a : Agent)
  : Agent :=
  fst (sendMessage "pty_exit"
         (Some (PtyExitMsg,
                [VScalar (VString sessionID); VScalar (VInt code)])) a).

Definition sendCmdResult (result : Executor.CmdResultData) (a : Agent)
  : Agent :=
  fst (sendMessage "cmd_result"
         (Some (Codec.CmdResultData,
                [VScalar (VString (res_Token result));
                 VScalar (VInt (res_ExitCode result));
                 VScalar (VString (res_Stdout result));
                 VScalar (VString (res_Stderr result))])) a).

Definition sendCmdError (token : string) (code : Z) (message : string)
    (a : Agent) : Agent :=
  fst (sendMessage "cmd_error"
         (Some (Codec.CmdErrorData,
                [VScalar (VString token); VScalar (VInt code);
                 VScalar (VString message)])) a).

(** The two callbacks of the executor. *)
Definition sendReply (r : Reply) (a : Agent) : Agent :=
  match r with
  | sendResult result => sendCmdResult result a
  | sendError token code message => sendCmdError token code message a
  end.

(** *** Handlers *)

Definition Handled : Type := Agent * list Effect * option HandleError.

Definition handleRegisterAck (msg : Message) (a : Agent) : Handled :=
  match UnmarshalData RegisterAckData msg with
  | None => (a, [], Some ErrUnmarshal)
  | Some _ => (a, [], None)
  end.

Definition handleSpawnPty (msg : Message) (a : Agent) : Handled :=
  match UnmarshalData SpawnPtyData msg with
  | None => (a, [], Some ErrUnmarshal)
  | Some data =>
      let sessionID := stringAt 0 data in
      match SpawnSession sessionID (intAt 1 data) (intAt 2 data)
              (stringAt 3 data) (env_pty env) (ag_sessions a) with
      | (m, Some _) => (sendPtyExit sessionID (-1) (withSessions m a), [], None)
      | (m, None) => (withSessions m a, [], None)
      end
  end.

Definition handlePtyInput (msg : Message) (a : Agent) : Handled :=
  match UnmarshalData PtyInputData msg with
  | None => (a, [], Some ErrUnmarshal)
  | Some data =>
      let sessionID := stringAt 0 data in
      match GetSession sessionID (ag_sessions a) with
      | (Some h, _) =>
          (* [WriteBase64] *)
          match Base64.DecodeString (stringAt 1 data) with
          | None => (a, [], Some ErrCorruptInput)
          | Some bytes =>
              match Session.Write sessionID (ag_sessions a) with
              | (m, Some e) => (withSessions m a, [], Some (ErrOfSession e))
              | (m, None) =>
                  (withSessions m a, [TerminalWrite h bytes],
                   match env_termWrite env with
                   | Some text => Some (ErrIO text)
                   | None => None
                   end)
              end
          end
      | (None, Some e) => (a, [], Some (ErrOfSession e))
      | (None, None) => (a, [], None)
      end
  end.

Definition handlePtyResize (msg : Message) (a : Agent) : Handled :=
  match UnmarshalData PtyResizeData msg with
  | None => (a, [], Some ErrUnmarshal)
  | Some data =>
      let sessionID := stringAt 0 data in
      match GetSession sessionID (ag_sessions a) with
      | (Some h, _) =>
          match Session.Resize sessionID (intAt 1 data) (intAt 2 data)
                  (ag_sessions a) with
          | (m, Some e) => (withSessions m a, [], Some (ErrOfSession e))
          | (m, None) =>
              (withSessions m a,
               [TerminalSetWinSize h (intAt 1 data) (intAt 2 data)],
               match env_setWinSize env with
               | Some text => Some (ErrIO text)
               | None => None
               end)
          end
      | (None, Some e) => (a, [], Some (ErrOfSession e))
      | (None, None) => (a, [], None)
      end
  end.

Definition handleClosePty (msg : Message) (a : Agent) : Handled :=
  match UnmarshalData ClosePtyData msg with
  | None => (a, [], Some ErrUnmarshal)
  | Some data =>
      match CloseSession (stringAt 0 data) (ag_sessions a) with
      | (m, Some e) => (withSessions m a, [], Some (ErrOfSession e))
      | (m, None) => (withSessions m a, [], None)
      end
  end.

Definition handleExecCmd (msg : Message) (a : Agent) : Handled :=
  match UnmarshalData Codec.ExecCmdData msg with
  | None => (a, [], Some ErrUnmarshal)
  | Some data =>
      let cmd := mkExecCmd (stringAt 0 data) (stringAt 1 data)
                   (stringAt 2 data) (stringsAt 3 data) (intAt 4 data) in
      match Execute (env_Lookup env) (env_LookPath env) cmd (ag_pool a) with
      | (sem, Rejected reply) => (sendReply reply (withPool sem a), [], None)
      | (sem, Spawned j) => (withPool sem a, [GoExecuteCommand j], None)
      end
  end.

(** The handlers of the file operations: each decodes its request and
    starts the operation in a goroutine of its own. *)
Definition handleFileOp (msgType : string) (fields : schema)
    (msg : Message) (a : Agent) : Handled :=
  match UnmarshalData fields msg with
  | None => (a, [], Some ErrUnmarshal)
  | Some data => (a, [GoFileOp msgType data], None)
  end.

(** The request types of the file operations, in the order of the
    [switch]. *)
Definition fileOps : list (string * schema) :=
  [ ("list_files"%string, ListFilesData);
    ("download_file"%string, DownloadFileData);
    ("upload_file"%string, UploadFileData);
    ("create_file"%string, CreateFileData);
    ("create_folder"%string, CreateFolderData);
    ("delete_item"%string, DeleteItemData);
    ("copy_item"%string, CopyItemData);
    ("move_item"%string, MoveItemData);
    ("rename_item"%string, RenameItemData);
    ("stream_file_info"%string, StreamFileInfoData);
    ("stream_chunk"%string, StreamChunkData);
    (MsgTypeCompressFiles, CompressFilesData);
    (MsgTypeGetDirStats, GetDirStatsData) ].

Fixpoint lookupType (msgType : string) (table : list (string * schema))
  : option schema :=
  match table with
  | [] => None
  | (t, fields) :: rest =>
      if String.eqb msgType t then Some fields else lookupType msgType rest
  end.

(** The [switch] of [handleMessage], on the message [ParseMessage] has
    returned. *)
Definition dispatch (msg : Message) (a : Agent) : Handled :=
  let t := msg_Type msg in
  if String.eqb t "register_ack" then handleRegisterAck msg a
  else if String.eqb t "spawn_pty" then handleSpawnPty msg a
  else if String.eqb t "pty_input" then handlePtyInput msg a
  else if String.eqb t "pty_resize" then handlePtyResize msg a
  else if String.eqb t "close_pty" then handleClosePty msg a
  else if String.eqb t "exec_cmd" then handleExecCmd msg a
  else if String.eqb t "ping" then
    let '(a', err) := sendMessage "pong" None a in (a', [], err)
  else
    match lookupType t fileOps with
    | Some fields => handleFileOp t fields msg a
    | None => (a, [], None)
    end.

Definition handleMessage (frame : json) (a : Agent) : Handled :=
  match ParseMessage frame with
  | None => (a, [], Some ErrParse)
  | Some msg => dispatch msg a
  end.
End WithEnv.

(** The types whose handlers reach the session manager or the pool. *)
Definition stateful (msgType : string) : bool :=
  String.eqb msgType "spawn_pty" || String.eqb msgType "pty_input"
  || String.eqb msgType "pty_resize" || String.eqb msgType "close_pty"
  || String.eqb msgType "exec_cmd".

(** The types whose handlers write to the connection themselves. *)
Definition replying (msgType : string) : bool :=
  String.eqb msgType "spawn_pty" || String.eqb msgType "exec_cmd"
  || String.eqb msgType "ping".

(** What handling one frame is held to: the connection stays as it is,
    at most one frame is written and then nothing else is started, at
    most one thing is started, and a frame that cannot be decoded
    changes nothing. *)
Definition Bounded (a : Agent) (r : Handled) : Prop :=
  let '(a', effects, err) := r in
  ag_conn a' = ag_conn a
  /\ (List.length effects <= 1)%nat
  /\ (ag_written a' = ag_written a
      \/ effects = [] /\ exists reply, ag_written a' = reply :: ag_written a)
  /\ (err = Some ErrParse \/ err = Some ErrUnmarshal ->
      a' = a /\ effects = []).

(** [NewTerminal] and [SetWinSize] both succeed. *)
Definition ptyStarts (p : PtyOutcome) : bool :=
  match p with
  | PtyStarted => true
  | _ => false
  end.

(** The frame [sendPtyExit] makes, member by member. *)
Definition ptyExitFrame (sessionID : string) (code : Z) : json :=
  JObject [("type"%string, JString "pty_exit");
           ("data"%string,
            JObject [("sessionId"%string, JString (textOf sessionID));
                     ("code"%string, JNumber code)])].

(** The frame [sendCmdError] makes, member by member. *)
Definition cmdErrorFrame (token : string) (code : Z) (message : string)
  : json :=
  JObject [("type"%string, JString "cmd_error");
           ("data"%string,
            JObject [("token"%string, JString (textOf token));
                     ("code"%string, JNumber code);
                     ("message"%string, JString message)])].

(** For examples: everything works, one user is known. *)
Definition demo_env : Env :=
  mkEnv PtyStarted None None Executor.demo_Lookup Executor.demo_LookPath
    (fun _ => None).

Definition demo_agent : Agent :=
  mkAgent Session.demo_one 0 true [].

End Dispatch.

(** ** Configuration, stored credentials and enrolment (config.go,
    keychain.go, enroll.go, main.go)

    The keychain of the operating system is a store of documents under
    a service and a user name; a backend that is out of order is the
    fault every call is given.  What the server does at enrolment is
    given as the answers of the connection. *)

Module Setup.
Import GoInt Time Codec Dispatch.

(** *** config.go *)

Record Config := mkConfig {
  cfg_ServerAddr : string;
  cfg_DeviceID : string;
  cfg_Token : string;
  cfg_SSL : bool;
  cfg_Insecure : bool;
  cfg_Reconnect : bool;
  cfg_Heartbeat : Z;
  cfg_Debug : bool
}.

(** What the runtime says of the machine: [os.Hostname], empty when it
    fails, [runtime.GOOS], [runtime.GOARCH], [runtime.Version]. *)
Record Host := mkHost {
  host_name : string;
  host_GOOS : string;
  host_GOARCH : string;
  host_GoVersion : string
}.

Definition DefaultConfig (host : Host) : Config :=
  let hostname :=
    if String.eqb (host_name host) "" then "unknown"%string
    else host_name host in
  mkConfig "localhost:30007" hostname "" true false true 30 false.

Definition withHeartbeat (n : Z) (c : Config) : Config :=
  mkConfig (cfg_ServerAddr c) (cfg_DeviceID c) (cfg_Token c) (cfg_SSL c)
    (cfg_Insecure c) (cfg_Reconnect c) n (cfg_Debug c).

(** [Validate] changes the configuration it is called on. *)
Definition Validate (c : Config) : Config * option string :=
  if String.eqb (cfg_ServerAddr c) "" then
    (c, Some "server address is required"%string)
  else if String.eqb (cfg_DeviceID c) "" then
    (c, Some "device ID is required"%string)
  else
    let c1 := if cfg_Heartbeat c <? 5 then withHeartbeat 5 c else c in
    let c2 := if 300 <? cfg_Heartbeat c1 then withHeartbeat 300 c1
              else c1 in
    (c2, None).

Definition schemeOf (ssl : bool) : string :=
  if ssl then "wss"%string else "ws"%string.

(** [fmt.Sprintf("%s://%s/ws/agent", scheme, addr)]. *)
Definition urlOf (ssl : bool) (addr : string) : string :=
  (schemeOf ssl ++ "://" ++ addr ++ "/ws/agent")%string.

Definition WebSocketURL (c : Config) : string :=
  urlOf (cfg_SSL c) (cfg_ServerAddr c).

Definition Platform (host : Host) : string := host_GOOS host.
Definition Arch (host : Host) : string := host_GOARCH host.
Definition OSInfo (host : Host) : string :=
  (host_GOOS host ++ "/" ++ host_GOARCH host)%string.

(** The period of the heartbeat ticker in [heartbeatLoop]. *)
Definition heartbeatPeriod (c : Config) : Duration :=
  Seconds (cfg_Heartbeat c).

(** *** keychain.go *)

Definition keychainService : string := "termix-agent".

Record StoredCredentials := mkCreds {
  cred_ServerAddr : string;
  cred_AgentToken : string;
  cred_AgentID : string;
  cred_DeviceID : string;
  cred_SSL : bool
}.

Definition StoredCredentialsData : schema :=
  [ req "serverAddr" KString; req "agentToken" KString;
    req "agentId" KString; req "deviceId" KString; req "ssl" KBool ].

Definition boolAt (i : nat) (vs : list value) : bool :=
  match vs !! i with
  | Some (VScalar (VBool b)) => b
  | _ => false
  end.

Definition fieldsOfCreds (c : StoredCredentials) : list value :=
  [VScalar (VString (cred_ServerAddr c));
   VScalar (VString (cred_AgentToken c));
   VScalar (VString (cred_AgentID c));
   VScalar (VString (cred_DeviceID c));
   VScalar (VBool (cred_SSL c))].

Definition credsOfFields (vs : list value) : StoredCredentials :=
  mkCreds (stringAt 0 vs) (stringAt 1 vs) (stringAt 2 vs) (stringAt 3 vs)
    (boolAt 4 vs).

(** The secrets of the keychain, by service and user. *)
Record Keyring := mkKeyring {
  secrets : gmap (string * string) json
}.

Inductive KeyError :=
| ErrNotFound
| ErrBackend (text : string)
| ErrSyntax.

Definition keyring_Set (fault : option string) (service user : string)
    (secret : json) (k : Keyring) : Keyring * option KeyError :=
  match fault with
  | Some text => (k, Some (ErrBackend text))
  | None =>
      (mkKeyring (<[(service, user) := secret]> (secrets k)), None)
  end.

Definition keyring_Get (fault : option string) (service user : string)
    (k : Keyring) : KeyError + json :=
  match fault with
  | Some text => inl (ErrBackend text)
  | None =>
      match secrets k !! (service, user) with
      | Some secret => inr secret
      | None => inl ErrNotFound
      end
  end.

Definition keyring_Delete (fault : option string) (service user : string)
    (k : Keyring) : Keyring * option KeyError :=
  match fault with
  | Some text => (k, Some (ErrBackend text))
  | None =>
      match secrets k !! (service, user) with
      | Some _ => (mkKeyring (delete (service, user) (secrets k)), None)
      | None => (k, Some ErrNotFound)
      end
  end.

Definition getKeychainUser (host : Host) : string :=
  if String.eqb (host_name host) "" then "default"%string
  else host_name host.

Section WithKeychain.
Variable fault : option string.
Variable host : Host.

Definition SaveCredentials (creds : StoredCredentials) (k : Keyring)
  : Keyring * option KeyError :=
  let data := json_Marshal StoredCredentialsData (fieldsOfCreds creds) in
  keyring_Set fault keychainService (getKeychainUser host) data k.

Definition LoadCredentials (k : Keyring) : KeyError + StoredCredentials :=
  match keyring_Get fault keychainService (getKeychainUser host) k with
  | inl err => inl err
  | inr data =>
      match json_Unmarshal StoredCredentialsData data with
      | Some vs => inr (credsOfFields vs)
      | None => inl ErrSyntax
      end
  end.

Definition DeleteCredentials (k : Keyring) : Keyring * option KeyError :=
  keyring_Delete fault keychainService (getKeychainUser host) k.

Definition HasStoredCredentials (k : Keyring) : bool :=
  match LoadCredentials k with
  | inr _ => true
  | inl _ => false
  end.

(** *** enroll.go *)

Record EnrollConfig := mkEnroll {
  en_Server : string;
  en_Token : string;
  en_DeviceID : string;
  en_SSL : bool;
  en_Insecure : bool
}.

(** What a dial is made with: the URL, the TLS configuration if there
    is one, with its [InsecureSkipVerify], and the [Authorization]
    header if there is one. *)
Record Dial := mkDial {
  dial_url : string;
  dial_tls : option bool;
  dial_auth : option string
}.

(** The answers of the connection: the error of [Dial], the error of
    [WriteMessage], and what [ReadMessage] returns. *)
Record Peer := mkPeer {
  peer_Dial : Dial -> option string;
  peer_Write : json -> option string;
  peer_Read : string + json
}.

(** The fields of [EnrollAckData] but [Config], and the fields of
    [Config]. *)
Definition EnrollAckData : schema :=
  [ req "success" KBool; opt "message" KString; opt "agentId" KString;
    opt "agentToken" KString ].

Definition EnrollAckConfig : schema :=
  [ req "enableTerminal" KBool; req "enableFileManager" KBool;
    req "enableTunnels" KBool ].

(** A member [config] has to fit the struct it is for. *)
Definition configFits (m : string * json) : bool :=
  if String.eqb (fst m) "config" then
    match json_Unmarshal EnrollAckConfig (snd m) with
    | Some _ => true
    | None => false
    end
  else true.

(** [json.Unmarshal(respMsg.Data, &ackData)]. *)
Definition unmarshalAck (msg : Message) : option (list value) :=
  match msg_Data msg with
  | None => None
  | Some raw =>
      match json_Unmarshal EnrollAckData raw with
      | None => None
      | Some vs =>
          match raw with
          | JObject members =>
              if forallb configFits members then Some vs else None
          | _ => Some vs
          end
      end
  end.

Inductive EnrollError :=
| FailedToConnect (err : string)
| FailedToSend (err : string)
| FailedToRead (err : string)
| FailedToParse
| UnexpectedType (msgType : string)
| FailedToParseAck
| EnrollmentFailed (message : string)
| FailedToStore (err : KeyError).

(** The device id [Enroll] goes on with. *)
Definition deviceOf (cfg : EnrollConfig) : string :=
  if String.eqb (en_DeviceID cfg) "" then
    if String.eqb (host_name host) "" then "unknown"%string
    else host_name host
  else en_DeviceID cfg.

Definition enrollDial (cfg : EnrollConfig) : Dial :=
  mkDial (urlOf (en_SSL cfg) (en_Server cfg))
    (if en_SSL cfg then Some (en_Insecure cfg) else None)
    (Some ("Bearer " ++ en_Token cfg)%string).

Definition registration (deviceID token : string) : json :=
  MarshalMessage "register"
    (Some (RegisterData,
           [VScalar (VString deviceID); VScalar (VString token);
            VScalar (VString (host_name host));
            VScalar (VString (Platform host));
            VScalar (VString (OSInfo host));
            VScalar (VString (Arch host));
            VScalar (VString (host_GoVersion host))])).

Definition Enroll (peer : Peer) (cfg : EnrollConfig) (k : Keyring)
  : Keyring * option EnrollError :=
  let deviceID := deviceOf cfg in
  match peer_Dial peer (enrollDial cfg) with
  | Some err => (k, Some (FailedToConnect err))
  | None =>
      match peer_Write peer (registration deviceID (en_Token cfg)) with
      | Some err => (k, Some (FailedToSend err))
      | None =>
          match peer_Read peer with
          | inl err => (k, Some (FailedToRead err))
          | inr respData =>
              match ParseMessage respData with
              | None => (k, Some FailedToParse)
              | Some respMsg =>
                  if negb (String.eqb (msg_Type respMsg) "register_ack")
                  then (k, Some (UnexpectedType (msg_Type respMsg)))
                  else
                    match unmarshalAck respMsg with
                    | None => (k, Some FailedToParseAck)
                    | Some ackData =>
                        if negb (boolAt 0 ackData) then
                          (k, Some (EnrollmentFailed (stringAt 1 ackData)))
                        else
                          let creds :=
                            mkCreds (en_Server cfg) (stringAt 3 ackData)
                              (stringAt 2 ackData) deviceID (en_SSL cfg) in
                          match SaveCredentials creds k with
                          | (k', Some err) => (k', Some (FailedToStore err))
                          | (k', None) => (k', None)
                          end
                    end
              end
          end
      end
  end.

(** *** main.go *)

(** The flags of the command line: [None] is a flag that is not
    given. *)
Record Flags := mkFlags {
  flag_server : option string;
  flag_id : option string;
  flag_ssl : option bool;
  flag_insecure : option bool;
  flag_reconnect : option bool;
  flag_heartbeat : option Z;
  flag_debug : option bool
}.

Definition noFlags : Flags :=
  mkFlags None None None None None None None.

(** How [runAgent] goes on: it leaves with status 1, or it makes the
    agent with a configuration and runs it. *)
Inductive Startup :=
| NotEnrolled
| InvalidConfiguration (err : string)
| Started (config : Config).

Definition runAgent (flags : Flags) (k : Keyring) : Startup :=
  match LoadCredentials k with
  | inl _ => NotEnrolled
  | inr creds =>
      let config := DefaultConfig host in
      let config :=
        mkConfig (default (cred_ServerAddr creds) (flag_server flags))
          (default (cred_DeviceID creds) (flag_id flags))
          (cred_AgentToken creds)
          (default (cred_SSL creds) (flag_ssl flags))
          (default (cfg_Insecure config) (flag_insecure flags))
          (default (cfg_Reconnect config) (flag_reconnect flags))
          (default (cfg_Heartbeat config) (flag_heartbeat flags))
          (default (cfg_Debug config) (flag_debug flags)) in
      match Validate config with
      | (_, Some err) => InvalidConfiguration err
      | (config, None) => Started config
      end
  end.

(** [runUnenroll] and [runStatus], by what they print first. *)
Definition runUnenroll (k : Keyring) : Keyring * bool :=
  match DeleteCredentials k with
  | (k', Some _) => (k', false)
  | (k', None) => (k', true)
  end.

Definition runStatus (k : Keyring) : option StoredCredentials :=
  match LoadCredentials k with
  | inl _ => None
  | inr creds => Some creds
  end.

End WithKeychain.

(** What [Agent.connect] dials with (agent.go). *)
Definition connectDial (c : Config) : Dial :=
  mkDial (WebSocketURL c)
    (if cfg_SSL c then Some (cfg_Insecure c) else None)
    (if String.eqb (cfg_Token c) "" then None
     else Some ("Bearer " ++ cfg_Token c)%string).

(** The answer of a server that accepts an enrolment. *)
Definition ackFrame (agentID agentToken : string)
    (terminal files tunnels : bool) : json :=
  JObject [("type"%string, JString "register_ack");
           ("data"%string,
            JObject [("success"%string, JBool true);
                     ("agentId"%string, JString agentID);
                     ("agentToken"%string, JString agentToken);
                     ("config"%string,
                      JObject [("enableTerminal"%string, JBool terminal);
                               ("enableFileManager"%string, JBool files);
                               ("enableTunnels"%string, JBool tunnels)])])].

(** Strings that are stored as they are. *)
Definition credsText (c : StoredCredentials) : bool :=
  validText (cred_ServerAddr c) && validText (cred_AgentToken c)
  && validText (cred_AgentID c) && validText (cred_DeviceID c).

(** For examples. *)
Definition demo_host : Host := mkHost "box" "linux" "amd64" "go1.22".

Definition demo_enroll : EnrollConfig :=
  mkEnroll "termix.example.com:30007" "install" "" true true.

Definition demo_ack : json := ackFrame "a7" "secret" true false false.

Definition demo_peer : Peer :=
  mkPeer (fun _ => None) (fun _ => None) (inr demo_ack).

End Setup.

(** ** Streaming a file in chunks (file_ops.go: StreamChunk)

    The file system is what [os.Open] returns for a path: an error, or
    a file.  Of an open file, the operating system decides whether a
    seek to an offset fails and whether reading fails with an error
    other than the end of the file; [file_content] is what reads of it
    give.  [fs_available] is the largest slice the runtime can make. *)

Module FileOps.
Import GoInt Codec Dispatch.

Record OpenFile := mkOpenFile {
  file_content : list byte;
  file_Seek : Z -> option string;
  file_readError : option string
}.

Record FileSystem := mkFileSystem {
  fs_Open : string -> string + OpenFile;
  fs_available : Z
}.

(** What the goroutine of a request ends with: the message it hands to
    [sendResult], or a panic of the runtime, which ends the process. *)
Inductive Outcome :=
| Sent (msgType : string) (fields : list value)
| Panics.

Definition chunkResponse (requestID : string) (offset length : Z)
    (data error : string) : Outcome :=
  Sent "stream_chunk_response"
    [VScalar (VString requestID); VScalar (VInt offset);
     VScalar (VInt length); VScalar (VString data);
     VScalar (VString error)].

(** [io.ReadFull] into a slice of [length] bytes, from [offset] on: the
    bytes it has read when it returns, having met the end of the file
    or not. *)
Definition readFull (content : list byte) (offset length : Z)
  : list byte :=
  firstn (Z.to_nat length) (skipn (Z.to_nat offset) content).

Definition StreamChunk (sys : FileSystem) (requestID path : string)
    (offset length : Z) : Outcome :=
  match fs_Open sys path with
  | inl err =>
      chunkResponse requestID 0 0 ""
        ("Failed to open file: " ++ err)%string
  | inr file =>
      match file_Seek file offset with
      | Some err =>
          chunkResponse requestID 0 0 ""
            ("Failed to seek: " ++ err)%string
      | None =>
          if (length <? 0) || (fs_available sys <? length) then Panics
          else
            (* [io.ReadFull] into an empty slice reads nothing *)
            match (if length =? 0 then None else file_readError file) with
            | Some err =>
                chunkResponse requestID 0 0 ""
                  ("Failed to read: " ++ err)%string
            | None =>
                let chunk := readFull (file_content file) offset length in
                chunkResponse requestID offset
                  (Z.of_nat (List.length chunk))
                  (Base64.EncodeToString chunk) ""
            end
      end
  end.

(** The bytes a response carries. *)
Definition bytesOf (o : Outcome) : option (list byte) :=
  match o with
  | Sent _ fields =>
      if String.eqb (stringAt 4 fields) "" then
        Base64.DecodeString (stringAt 3 fields)
      else None
  | Panics => None
  end.

(** The bytes of the responses to requests for chunk after chunk of
    [length] bytes, the first at [offset]. *)
Fixpoint chunksFrom (sys : FileSystem) (requestID path : string)
    (offset length : Z) (count : nat) : option (list byte) :=
  match count with
  | O => Some []
  | S count' =>
      match bytesOf (StreamChunk sys requestID path offset length),
            chunksFrom sys requestID path (offset + length) length count'
      with
      | Some chunk, Some rest => Some (chunk ++ rest)
      | _, _ => None
      end
  end.

(** A regular file: seeking fails below zero. *)
Definition regularFile (content : list byte) : OpenFile :=
  mkOpenFile content
    (fun offset => if offset <? 0 then Some "invalid argument"%string
                   else None)
    None.

(** For examples: one file of five bytes. *)
Definition demo_fs : FileSystem :=
  mkFileSystem
    (fun path =>
       if String.eqb path "/tmp/f" then
         inr (regularFile [x68; x65; x6c; x6c; x6f])
       else inl ("open " ++ path ++ ": no such file or directory")%string)
    1048576.

End FileOps.

(** * Properties *)

(** ** Integers, durations and base64 *)

Module GoIntFacts.
Import GoInt Time.

Lemma wrap64_small (z : Z) :
  MinInt64 <= z <= MaxInt64 -> wrap64 z = z.
Proof.
  unfold wrap64, wrap, MinInt64, MaxInt64. intros Hz.
  rewrite Z.mod_small; lia.
Qed.

Lemma wrap32_small (z : Z) :
  - 2 ^ 31 <= z <= 2 ^ 31 - 1 -> wrap32 z = z.
Proof.
  unfold wrap32, wrap. intros Hz.
  rewrite Z.mod_small; lia.
Qed.

Lemma Seconds_exact (n : Z) :
  0 <= n <= MaxSeconds -> Seconds n = n * Second.
Proof.
  unfold Seconds, MaxSeconds, Second. intros Hn.
  rewrite (wrap64_small n) by (unfold MinInt64, MaxInt64; lia).
  apply wrap64_small. unfold MinInt64, MaxInt64. lia.
Qed.

Lemma Since_gt (now t bound : Z) :
  0 <= bound < MaxInt64 ->
  (bound <? Since now t) = (bound <? now - t).
Proof.
  unfold Since, Sub, MinInt64, MaxInt64. intros Hb.
  destruct (Z.ltb_spec bound (now - t)); destruct (Z.ltb_spec bound
    (Z.max (- 2 ^ 63) (Z.min (2 ^ 63 - 1) (now - t)))); lia.
Qed.

End GoIntFacts.

Module Base64Facts.
Import Base64.

(** Lists are consumed three bytes at a time. *)
Lemma list_ind3 {A} (P : list A -> Prop) :
  P [] -> (forall a, P [a]) -> (forall a b, P [a; b]) ->
  (forall a b c l, P l -> P (a :: b :: c :: l)) ->
  forall l, P l.
Proof.
  intros H0 H1 H2 H3.
  fix IH 1.
  intros [|a [|b [|c l]]];
    [exact H0 | apply H1 | apply H2 | apply H3, IH].
Qed.

Lemma EncodedLen_step (n : Z) : EncodedLen (n + 3) = EncodedLen n + 4.
Proof.
  unfold EncodedLen.
  replace (n + 3 + 2) with (n + 2 + 1 * 3) by lia.
  rewrite Z.div_add by lia. lia.
Qed.

Lemma EncodeToString_length (src : list byte) :
  Z.of_nat (String.length (EncodeToString src))
  = EncodedLen (Z.of_nat (List.length src)).
Proof.
  induction src as [|a|a b|a b c l IH] using list_ind3; try reflexivity.
  cbn [EncodeToString String.length List.length].
  rewrite !Nat2Z.inj_succ, IH.
  replace (Z.succ (Z.succ (Z.succ (Z.of_nat (List.length l)))))
    with (Z.of_nat (List.length l) + 3) by lia.
  rewrite EncodedLen_step. lia.
Qed.

End Base64Facts.

(** ** Command executor *)

Module ExecutorSpec.
Import GoInt Time Os Executor GoIntFacts.

Lemma determineTimeout_unset (requested : Z) :
  requested <= 0 -> determineTimeout requested = 30 * Second.
Proof.
  intros H. unfold determineTimeout.
  destruct (Z.ltb_spec 0 requested); [lia | reflexivity].
Qed.

Lemma determineTimeout_le_max (requested : Z) :
  determineTimeout requested <= 600 * Second.
Proof.
  unfold determineTimeout, cmdExecMaxTimeout, cmdExecDefaultTimeout.
  destruct (0 <? requested).
  - destruct (Z.ltb_spec (600 * Second) (Seconds requested)); lia.
  - unfold Second. lia.
Qed.

Lemma determineTimeout_in_range (requested : Z) :
  0 < requested <= 600 -> determineTimeout requested = requested * Second.
Proof.
  intros H. unfold determineTimeout, cmdExecMaxTimeout.
  destruct (Z.ltb_spec 0 requested); [|lia].
  rewrite Seconds_exact by (unfold MaxSeconds; lia).
  destruct (Z.ltb_spec (600 * Second) (requested * Second));
    unfold Second in *; lia.
Qed.

Lemma determineTimeout_clamped (requested : Z) :
  600 < requested <= MaxSeconds ->
  determineTimeout requested = 600 * Second.
Proof.
  intros H. unfold determineTimeout, cmdExecMaxTimeout.
  destruct (Z.ltb_spec 0 requested); [|lia].
  rewrite Seconds_exact by lia.
  destruct (Z.ltb_spec (600 * Second) (requested * Second));
    unfold Second in *; lia.
Qed.

(** A request of more seconds than a [Duration] holds, were the field
    wide enough to carry it: the product wraps and stays below the
    maximum, so it is taken as it is. *)
Remark determineTimeout_wraps :
  determineTimeout (MaxSeconds + 1) = Seconds (MaxSeconds + 1)
  /\ Seconds (MaxSeconds + 1) < 0.
Proof. split; vm_compute; reflexivity. Qed.

Lemma Execute_identity_fails lk lp cmd sem :
  identityFails lk cmd ->
  Execute lk lp cmd sem
  = (sem, Rejected (sendError (req_Token cmd) CmdErrPermit
                      "operation not permitted")).
Proof.
  intros [Hname Hlk]. unfold Execute.
  destruct (String.eqb_spec (req_Username cmd) ""); [contradiction|].
  rewrite Hlk. reflexivity.
Qed.

Lemma Execute_path_fails lk lp cmd sem u :
  identityOf lk cmd u -> pathFails lp cmd ->
  Execute lk lp cmd sem
  = (sem, Rejected (sendError (req_Token cmd) CmdErrNotFound
                      "command not found")).
Proof.
  intros Hid Hp. unfold Execute.
  assert ((if String.eqb (req_Username cmd) "" then Some None
           else match lk (req_Username cmd) with
                | Some u0 => Some (Some u0)
                | None => None
                end) = Some u) as ->.
  { destruct Hid as [[Hn ->]|(Hn & Hlk & Hu)].
    - rewrite Hn. reflexivity.
    - destruct (String.eqb_spec (req_Username cmd) ""); [contradiction|].
      rewrite Hlk. destruct u; [reflexivity | contradiction]. }
  unfold pathFails in Hp.
  destruct (lp (req_Command cmd)) as [p e]; simpl in Hp.
  destruct Hp as [He | ->].
  - destruct e; [reflexivity | contradiction].
  - destruct e; reflexivity.
Qed.

Lemma Execute_admission lk lp cmd sem u p :
  identityOf lk cmd u -> pathOf lp cmd p ->
  Execute lk lp cmd sem
  = match trySend sem with
    | Some sem' =>
        (sem', Spawned (mkJob u p (req_Args cmd) (req_Token cmd)
                          (determineTimeout (req_Timeout cmd))))
    | None =>
        (sem, Rejected (sendError (req_Token cmd) CmdErrNoMem
                          "too many concurrent commands"))
    end.
Proof.
  intros Hid [Hp Hne]. unfold Execute.
  assert ((if String.eqb (req_Username cmd) "" then Some None
           else match lk (req_Username cmd) with
                | Some u0 => Some (Some u0)
                | None => None
                end) = Some u) as ->.
  { destruct Hid as [[Hn ->]|(Hn & Hlk & Hu)].
    - rewrite Hn. reflexivity.
    - destruct (String.eqb_spec (req_Username cmd) ""); [contradiction|].
      rewrite Hlk. destruct u; [reflexivity | contradiction]. }
  rewrite Hp. simpl.
  destruct (String.eqb_spec p ""); [contradiction|]. reflexivity.
Qed.

Lemma Execute_pool_bound lk lp cmd sem :
  0 <= sem <= cmdRunningLimit ->
  0 <= fst (Execute lk lp cmd sem) <= cmdRunningLimit.
Proof.
  intros Hs. unfold Execute, trySend.
  destruct (if String.eqb _ _ then _ else _); [|simpl; lia].
  destruct (lp _) as [p e].
  destruct (_ || _); [simpl; lia|].
  destruct (Z.ltb_spec sem cmdRunningLimit); simpl; lia.
Qed.

Lemma executeCommand_reply_cases j r sem :
  snd (executeCommand j r sem)
  = match run_err r, run_ctxErr r with
    | Some _, Some DeadlineExceeded =>
        sendError (job_token j) CmdErrSysErr "command timeout"
    | Some (OtherError text), _ =>
        sendError (job_token j) CmdErrSysErr text
    | Some (ExitError code), _ =>
        if tooBigB r
        then sendError (job_token j) CmdErrRespTooBig
               "stdout+stderr is too big"
        else sendResult (mkCmdResult (job_token j) code
               (Base64.EncodeToString (run_stdout r))
               (Base64.EncodeToString (run_stderr r)))
    | None, _ =>
        if tooBigB r
        then sendError (job_token j) CmdErrRespTooBig
               "stdout+stderr is too big"
        else sendResult (mkCmdResult (job_token j) 0
               (Base64.EncodeToString (run_stdout r))
               (Base64.EncodeToString (run_stderr r)))
    end.
Proof.
  unfold executeCommand, tooBigB, strlen.
  rewrite !Base64Facts.EncodeToString_length.
  destruct (run_err r) as [[code|text]|], (run_ctxErr r) as [[|]|];
    reflexivity.
Qed.


(** Every exec_cmd request is validated in this order before
    admission: an unresolvable user name is answered with PermissionDenied
    whatever the command and the pool are; otherwise an unresolvable
    executable is answered with NotFound whatever the timeout and the pool
    are; otherwise the request goes to admission with the timeout of its
    timeout field, which is 30 s when the field is unset, never more than
    600 s, the requested number of seconds up to 600, and 600 s above. *)
Theorem Execute_validation_order
    (user_Lookup : string -> option User)
    (exec_LookPath : string -> string * option string)
    (cmd : ExecCmdData) (sem : Semaphore) :
  (identityFails user_Lookup cmd ->
     Execute user_Lookup exec_LookPath cmd sem
     = (sem, Rejected (sendError (req_Token cmd) CmdErrPermit
                         "operation not permitted")))
  /\ (forall u, identityOf user_Lookup cmd u ->
      pathFails exec_LookPath cmd ->
      Execute user_Lookup exec_LookPath cmd sem
      = (sem, Rejected (sendError (req_Token cmd) CmdErrNotFound
                          "command not found")))
  /\ (forall u p, identityOf user_Lookup cmd u ->
      pathOf exec_LookPath cmd p ->
      Execute user_Lookup exec_LookPath cmd sem
      = match trySend sem with
        | Some sem' =>
            (sem', Spawned (mkJob u p (req_Args cmd) (req_Token cmd)
                              (determineTimeout (req_Timeout cmd))))
        | None =>
            (sem, Rejected (sendError (req_Token cmd) CmdErrNoMem
                              "too many concurrent commands"))
        end)
  /\ (req_Timeout cmd <= 0 ->
      determineTimeout (req_Timeout cmd) = 30 * Second)
  /\ determineTimeout (req_Timeout cmd) <= 600 * Second
  /\ (0 < req_Timeout cmd <= 600 ->
      determineTimeout (req_Timeout cmd) = req_Timeout cmd * Second)
  /\ (600 < req_Timeout cmd <= MaxSeconds ->
      determineTimeout (req_Timeout cmd) = 600 * Second).
Proof.
  repeat split.
  - apply Execute_identity_fails.
  - intros u. apply Execute_path_fails.
  - intros u p. apply Execute_admission.
  - apply determineTimeout_unset.
  - apply determineTimeout_le_max.
  - apply determineTimeout_in_range.
  - apply determineTimeout_clamped.
Qed.

Lemma Execute_validation_order_witness :
  Execute demo_Lookup demo_LookPath
    (mkExecCmd "t1" "mallory" "no-such-tool" [] 0) 5
  = (5, Rejected (sendError "t1" CmdErrPermit "operation not permitted"))
  /\ Execute demo_Lookup demo_LookPath
       (mkExecCmd "t2" "alice" "no-such-tool" [] 7200) 5
     = (5, Rejected (sendError "t2" CmdErrNotFound "command not found"))
  /\ Execute demo_Lookup demo_LookPath
       (mkExecCmd "t3" "alice" "ls" ["-l"] 7200) 2
     = (3, Spawned (mkJob (Some demo_alice) "/bin/ls" ["-l"] "t3"
                      (600 * Second)))
  /\ determineTimeout 0 = 30 * Second
  /\ determineTimeout 45 = 45 * Second.
Proof.
  split; [|split; [|split; [|split]]].
  - apply (proj1 (Execute_validation_order demo_Lookup demo_LookPath
                    (mkExecCmd "t1" "mallory" "no-such-tool" [] 0) 5)).
    split; [discriminate | reflexivity].
  - apply (proj1 (proj2 (Execute_validation_order demo_Lookup demo_LookPath
                    (mkExecCmd "t2" "alice" "no-such-tool" [] 7200) 5))
             (Some demo_alice)).
    + right. repeat split; discriminate.
    + left. discriminate.
  - pose proof (proj1 (proj2 (proj2 (Execute_validation_order
                    demo_Lookup demo_LookPath
                    (mkExecCmd "t3" "alice" "ls" ["-l"] 7200) 2)))
             (Some demo_alice) "/bin/ls") as H.
    rewrite H.
    + reflexivity.
    + right. repeat split; discriminate.
    + split; [reflexivity | discriminate].
  - apply (Execute_validation_order demo_Lookup demo_LookPath
             (mkExecCmd "t" "" "ls" [] 0) 0). simpl. lia.
  - apply (Execute_validation_order demo_Lookup demo_LookPath
             (mkExecCmd "t" "" "ls" [] 45) 0). simpl. lia.
Defined.

(** C1. A request for more seconds than a [Duration] holds is not
    clamped: with the timeout field as wide as a Go [int], the product
    [time.Duration(cmd.Timeout) * time.Second] wraps below zero before
    it is compared with the maximum, so a request for 9223372037 s is
    admitted with a negative timeout instead of 600 s, and its context
    is done before the command starts, which is answered as a command
    timeout. *)
Theorem Execute_timeout_overflow :
  Execute demo_Lookup demo_LookPath
    (mkExecCmd "t4" "alice" "ls" ["-l"] 9223372037) 0
  = (1, Spawned (mkJob (Some demo_alice) "/bin/ls" ["-l"] "t4"
                   (-9223372036709551616)))
  /\ determineTimeout 9223372037 <> 600 * Second
  /\ determineTimeout 9223372037 < 0
  /\ forall late sem,
       snd (runJob (mkJob (Some demo_alice) "/bin/ls" ["-l"] "t4"
                      (determineTimeout 9223372037))
              late demo_quick sem)
       = sendError "t4" CmdErrSysErr "command timeout".
Proof.
  split; [vm_compute; reflexivity|].
  split; [vm_compute; discriminate|].
  split; [vm_compute; reflexivity|].
  intros late sem. reflexivity.
Qed.







(** C5. With all five slots of the pool taken, [Execute] lets nothing in:
    it starts no execution, leaves the pool as it is, answers at once with
    a cmd_error, and for every request that passes validation that error
    is TooManyConcurrent (code NoMem).  The send on the semaphore is the
    non-waiting one, and the request is kept nowhere. *)
Theorem Execute_saturated_rejects
    (user_Lookup : string -> option User)
    (exec_LookPath : string -> string * option string)
    (cmd : ExecCmdData) :
  trySend cmdRunningLimit = None
  /\ fst (Execute user_Lookup exec_LookPath cmd cmdRunningLimit)
     = cmdRunningLimit
  /\ (exists code message,
       snd (Execute user_Lookup exec_LookPath cmd cmdRunningLimit)
       = Rejected (sendError (req_Token cmd) code message))
  /\ (forall u p, identityOf user_Lookup cmd u ->
      pathOf exec_LookPath cmd p ->
      Execute user_Lookup exec_LookPath cmd cmdRunningLimit
      = (cmdRunningLimit,
         Rejected (sendError (req_Token cmd) CmdErrNoMem
                     "too many concurrent commands"))).
Proof.
  split; [reflexivity|]. split; [|split].
  - unfold Execute.
    destruct (if String.eqb _ _ then _ else _); [|reflexivity].
    destruct (exec_LookPath _) as [p e].
    destruct (_ || _); reflexivity.
  - unfold Execute.
    destruct (if String.eqb _ _ then _ else _); [|simpl; eauto].
    destruct (exec_LookPath _) as [p e].
    destruct (_ || _); simpl; eauto.
  - intros u p Hid Hp. rewrite (Execute_admission _ _ _ _ u p Hid Hp).
    reflexivity.
Qed.

Lemma Execute_saturated_rejects_witness :
  Execute demo_Lookup demo_LookPath
    (mkExecCmd "t6" "alice" "ls" ["-l"] 10) 5
  = (5, Rejected (sendError "t6" CmdErrNoMem
                    "too many concurrent commands")).
Proof.
  apply (proj2 (proj2 (proj2 (Execute_saturated_rejects demo_Lookup
           demo_LookPath (mkExecCmd "t6" "alice" "ls" ["-l"] 10))))
           (Some demo_alice) "/bin/ls").
  - right. repeat split; discriminate.
  - split; [reflexivity | discriminate].
Defined.

End ExecutorSpec.

(** ** Pseudo-terminal backends *)

Module PtySpec.
Import Os Pty.

Lemma shellCommand_shell sys username :
  cmd_Path (shellCommand sys username) = defaultShell sys
  /\ cmd_Args (shellCommand sys username) = [defaultShell sys; "-l"]
  /\ cmd_SysProcAttr (shellCommand sys username) = None.
Proof.
  unfold shellCommand, defaultShell.
  destruct (String.eqb username ""); [auto|].
  destruct (sys_Lookup sys username) as [u|]; [|auto].
  destruct (String.eqb (HomeDir u) ""); auto.
Qed.

Lemma shellCommand_resolved sys username u :
  username <> "" -> sys_Lookup sys username = Some u -> HomeDir u <> "" ->
  cmd_Dir (shellCommand sys username) = HomeDir u
  /\ cmd_Env (shellCommand sys username)
     = sys_Environ sys ++
       [ String.append "HOME=" (HomeDir u);
         String.append "USER=" username;
         String.append "LOGNAME=" username;
         "TERM=xterm-256color" ].
Proof.
  intros Hn Hl Hh. unfold shellCommand. rewrite Hl.
  destruct (String.eqb_spec username ""); [contradiction|].
  destruct (String.eqb_spec (HomeDir u) ""); [contradiction|].
  simpl. rewrite <- app_assoc. auto.
Qed.

Lemma shellCommand_fallback sys username :
  sys_Lookup sys username = None ->
  shellCommand sys username = shellCommand sys "".
Proof.
  intros Hl. unfold shellCommand. rewrite Hl.
  destruct (String.eqb username ""); reflexivity.
Qed.

Lemma NewUnixTerminal_error sys username err :
  NewUnixTerminal sys username = inr err ->
  sys_ptyStart sys (shellCommand sys username) = Some err.
Proof.
  unfold NewUnixTerminal.
  destruct (sys_ptyStart sys (shellCommand sys username));
    congruence.
Qed.

(** The subprocess of the command executor does get the credentials. *)
Lemma commandOf_impersonates (j : Executor.Job) (u : User) uid gid :
  Executor.job_user j = Some u ->
  Atoi (Uid u) = Some uid -> Atoi (Gid u) = Some gid ->
  impersonates u (Executor.commandOf j).
Proof.
  intros Hu Huid Hgid. exists uid, gid.
  unfold Executor.commandOf, Executor.setSysProcAttr.
  rewrite Hu, Huid, Hgid. auto.
Qed.

(** C7, as stated, fails: the shell spawned for a resolved identity
    carries no credentials of that identity, it is the shell a spawn
    without identity runs, and the Windows variant starts the same
    terminal with and without identity. *)
Lemma NewTerminal_no_credentials :
  sys_Lookup demo_unix "alice" = Some demo_alice
  /\ ~ impersonates demo_alice (shellCommand demo_unix "alice")
  /\ cmd_Path (shellCommand demo_unix "alice")
     = cmd_Path (shellCommand demo_unix "")
  /\ NewWindowsTerminal demo_windows "alice"
     = NewWindowsTerminal demo_windows "".
Proof.
  split; [reflexivity|]. split; [|split; reflexivity].
  intros (uid & gid & _ & _ & H). discriminate H.
Qed.

(** C7, amended. For a spawn request that supplies an identity the POSIX
    variant starts the agent's own shell ([$SHELL], else /bin/sh) in login
    mode; when the identity resolves to a user with a home directory,
    that directory is the working directory and HOME, USER and LOGNAME
    are set for it on top of the agent's environment; when it does not
    resolve the command is the one of a spawn without identity, and the
    spawn fails only if starting the pty fails; the Windows variant
    ignores the identity. *)
Theorem NewTerminal_identity (sys : UnixSystem) (wsys : WindowsSystem)
    (username : string) :
  username <> "" ->
  (cmd_Path (shellCommand sys username) = defaultShell sys
   /\ cmd_Args (shellCommand sys username) = [defaultShell sys; "-l"])
  /\ (forall u, sys_Lookup sys username = Some u -> HomeDir u <> "" ->
      cmd_Dir (shellCommand sys username) = HomeDir u
      /\ cmd_Env (shellCommand sys username)
         = sys_Environ sys ++
           [ String.append "HOME=" (HomeDir u);
             String.append "USER=" username;
             String.append "LOGNAME=" username;
             "TERM=xterm-256color" ])
  /\ (sys_Lookup sys username = None ->
      shellCommand sys username = shellCommand sys "")
  /\ (forall err, NewUnixTerminal sys username = inr err ->
      sys_ptyStart sys (shellCommand sys username) = Some err)
  /\ NewWindowsTerminal wsys username = NewWindowsTerminal wsys "".
Proof.
  intros Hn.
  destruct (shellCommand_shell sys username) as (Hpath & Hargs & _).
  split; [split; assumption|].
  split; [intros u; apply shellCommand_resolved; assumption|].
  split; [apply shellCommand_fallback|].
  split; [intros err; apply NewUnixTerminal_error | reflexivity].
Qed.

Lemma NewTerminal_identity_witness :
  cmd_Path (shellCommand demo_unix "alice") = "/bin/bash"
  /\ cmd_Dir (shellCommand demo_unix "alice") = "/home/alice"
  /\ shellCommand demo_unix "mallory" = shellCommand demo_unix "".
Proof.
  assert ("alice" <> "") as Ha by discriminate.
  assert ("mallory" <> "") as Hm by discriminate.
  pose proof (NewTerminal_identity demo_unix demo_windows "alice" Ha)
    as ((Hp & _) & Hr & _).
  pose proof (NewTerminal_identity demo_unix demo_windows "mallory" Hm)
    as (_ & _ & Hf & _).
  split; [exact Hp|].
  split; [apply (Hr demo_alice); [reflexivity | discriminate]|].
  apply Hf. reflexivity.
Defined.







End PtySpec.

(** ** Reconnect backoff *)

Module AgentSpec.
Import GoInt Time Agent GoIntFacts.

Lemma backoff_pos (k : nat) : 0 < backoff k <= 60 * Second.
Proof.
  unfold backoff, Second.
  assert (0 < 2 ^ Z.of_nat k) by (apply Z.pow_pos_nonneg; lia).
  lia.
Qed.

Lemma backoff_succ (k : nat) :
  backoff (S k) = Z.min (2 * backoff k) (60 * Second).
Proof.
  unfold backoff, Second.
  rewrite Nat2Z.inj_succ, Z.pow_succ_r by lia.
  assert (0 < 2 ^ Z.of_nat k) by (apply Z.pow_pos_nonneg; lia).
  lia.
Qed.

Lemma nextDelay_backoff (k : nat) : nextDelay (backoff k) = backoff (S k).
Proof.
  rewrite backoff_succ. pose proof (backoff_pos k) as Hk.
  unfold nextDelay, Double, maxReconnectDelay.
  rewrite wrap64_small
    by (unfold MinInt64, MaxInt64, Second in *; lia).
  destruct (Z.ltb_spec (60 * Second) (backoff k * 2)); lia.
Qed.

Lemma backoff_0 : backoff 0 = minReconnectDelay.
Proof. reflexivity. Qed.

Lemma sleeps_app (a b : list Action) :
  sleeps (a ++ b) = sleeps a ++ sleeps b.
Proof.
  induction a as [|[| d | | |] a IH]; simpl; rewrite ?IH; reflexivity.
Qed.

Lemma RunLoop_failures (errs : list string) (k : nat) :
  RunLoop true (backoff k) (map dialFails errs)
  = (flat_map (fun i => [Connect; Sleep (backoff i)])
       (seq k (List.length errs)),
     Looping (backoff (k + List.length errs))).
Proof.
  revert k. induction errs as [|e errs IH]; intros k.
  - simpl. rewrite Nat.add_0_r. reflexivity.
  - cbn [map RunLoop dialFails turn_stopped turn_connect negb].
    rewrite nextDelay_backoff, IH. cbn [List.length seq flat_map app].
    rewrite Nat.add_succ_r. reflexivity.
Qed.

Lemma sleeps_failures (k n : nat) :
  sleeps (flat_map (fun i => [Connect; Sleep (backoff i)]) (seq k n))
  = map backoff (seq k n).
Proof.
  revert k. induction n as [|n IH]; intros k; simpl; [reflexivity|].
  rewrite IH. reflexivity.
Qed.

Lemma RunLoop_app (before rest : list Turn) (d : Duration) :
  Forall (fun t => turn_stopped t = false) before ->
  exists d',
    RunLoop true d before = (fst (RunLoop true d before), Looping d')
    /\ RunLoop true d (before ++ rest)
       = (fst (RunLoop true d before) ++ fst (RunLoop true d' rest),
          snd (RunLoop true d' rest)).
Proof.
  intros Hb. revert d. induction Hb as [|t before Ht _ IH]; intros d.
  - exists d. simpl. destruct (RunLoop true d rest). auto.
  - cbn [app RunLoop]. rewrite Ht. cbn [negb].
    destruct (turn_connect t) as [err|].
    + destruct (IH (nextDelay d)) as (d' & H1 & H2). exists d'.
      rewrite H2. destruct (RunLoop true (nextDelay d) before) as [a s].
      simpl in *. inversion H1; subst. auto.
    + destruct (IH minReconnectDelay) as (d' & H1 & H2). exists d'.
      rewrite H2. destruct (RunLoop true minReconnectDelay before) as [a s].
      simpl in *. inversion H1; subst. auto.
Qed.

(** C3. A run of immediate dial failures sleeps 5 s, 10 s, 20 s, 40 s,
    60 s, 60 s, ...: each delay is the double of the one before, capped at
    60 s; and after any successful connect, whatever came before it, the
    delays start again at 5 s. *)
Theorem Run_backoff (before : list Turn) (lost : option string)
    (errs : list string) :
  sleeps (fst (Run true (map dialFails errs)))
  = map backoff (seq 0 (List.length errs))
  /\ map backoff (seq 0 6)
     = [5 * Second; 10 * Second; 20 * Second; 40 * Second;
        60 * Second; 60 * Second]
  /\ (forall k, backoff k <= 60 * Second
                /\ backoff (S k) = Z.min (2 * backoff k) (60 * Second))
  /\ (Forall (fun t => turn_stopped t = false) before ->
      sleeps (fst (Run true (before ++ connects lost :: map dialFails errs)))
      = sleeps (fst (Run true before))
        ++ 5 * Second :: map backoff (seq 0 (List.length errs))).
Proof.
  split; [|split; [|split]].
  - unfold Run. rewrite <- backoff_0, RunLoop_failures. simpl fst.
    apply sleeps_failures.
  - reflexivity.
  - intros k. split; [apply backoff_pos | apply backoff_succ].
  - intros Hb. unfold Run.
    destruct (RunLoop_app before (connects lost :: map dialFails errs)
                minReconnectDelay Hb) as (d' & _ & ->).
    simpl fst. rewrite sleeps_app. f_equal.
    cbn [RunLoop connects turn_stopped turn_connect negb].
    rewrite <- backoff_0 at 1. rewrite RunLoop_failures.
    cbn [fst sleeps]. rewrite sleeps_failures. reflexivity.
Qed.

Lemma Run_backoff_witness :
  sleeps (fst (Run true
    ([dialFails "refused"; dialFails "refused"; dialFails "refused"]
     ++ connects (Some "EOF")
        :: map dialFails ["refused"; "refused"; "timeout"])))
  = [5 * Second; 10 * Second; 20 * Second]
    ++ 5 * Second :: [5 * Second; 10 * Second; 20 * Second].
Proof.
  apply (proj2 (proj2 (proj2 (Run_backoff
    [dialFails "refused"; dialFails "refused"; dialFails "refused"]
    (Some "EOF") ["refused"; "refused"; "timeout"])))).
  repeat constructor.
Defined.

End AgentSpec.

(** ** Message codec *)

Module CodecSpec.
Import GoInt Codec.

Lemma ok_Forall2 {K V} (ok : K -> V -> bool)
    (fields : list (fieldSpec K)) (vs : list V) :
  (List.length fields =? List.length vs)%nat
  && forallb (fun fv => ok (field_kind (fst fv)) (snd fv))
       (combine fields vs) = true ->
  Forall2 (fun f v => ok (field_kind f) v = true) fields vs.
Proof.
  revert vs. induction fields as [|f fields IH]; intros [|v vs] H;
    try discriminate; [constructor|].
  apply andb_prop in H as [Hlen Hall]. simpl in Hall.
  apply andb_prop in Hall as [Hv Hall].
  constructor; [exact Hv|]. apply IH.
  apply andb_true_intro. split; assumption.
Qed.

Section Struct.
Context {K V : Type}.
Variable encode : K -> V -> json.
Variable decode : K -> json -> V -> option V.
Variable isEmpty : V -> bool.
Variable zero : K -> V.

Lemma findField_middle (pre post : list (fieldSpec K)) f :
  NoDup (map field_key (pre ++ f :: post)) ->
  findField (field_key f) (pre ++ f :: post)
  = Some (List.length pre, f).
Proof.
  induction pre as [|g pre IH]; intros Hnd; simpl.
  - rewrite String.eqb_refl. reflexivity.
  - simpl in Hnd. apply NoDup_cons in Hnd as [Hg Hnd].
    destruct (String.eqb_spec (field_key f) (field_key g)) as [E|_].
    + exfalso. apply Hg. rewrite <- E, map_app. simpl.
      apply list_elem_of_In, in_or_app. right. left. reflexivity.
    + rewrite (IH Hnd). reflexivity.
Qed.

Lemma store_marshalled (post : list (fieldSpec K)) :
  forall (vpost : list V) (pre : list (fieldSpec K)) (npre : list V),
  NoDup (map field_key (pre ++ post)) ->
  List.length npre = List.length pre ->
  Forall2 (survives encode decode zero) post vpost ->
  fold_left (storeMember decode (pre ++ post))
    (marshalStruct encode isEmpty post vpost)
    (Some (npre ++ zeroStruct zero post))
  = Some (npre ++ normalize isEmpty zero post vpost).
Proof.
  induction post as [|f post IH]; intros vpost pre npre Hnd Hlen Hsv.
  - inversion Hsv; subst. reflexivity.
  - inversion Hsv as [|? v ? vpost' Hf Hrest]; subst.
    cbn [marshalStruct normalize zeroStruct map].
    assert (pre ++ f :: post = (pre ++ [f]) ++ post) as Eapp
      by (rewrite <- app_assoc; reflexivity).
    destruct (field_omitempty f && isEmpty v) eqn:Homit.
    + rewrite Eapp.
      replace (npre ++ zero (field_kind f) :: map
                 (fun f0 => zero (field_kind f0)) post)
        with ((npre ++ [zero (field_kind f)]) ++ zeroStruct zero post)
        by (rewrite <- app_assoc; reflexivity).
      rewrite IH.
      * rewrite <- app_assoc. reflexivity.
      * rewrite <- Eapp. exact Hnd.
      * rewrite !length_app, Hlen. reflexivity.
      * exact Hrest.
    + cbn [fold_left]. unfold storeMember at 2. cbn [fst snd].
      rewrite (findField_middle pre post f Hnd).
      rewrite lookup_app_r by lia.
      rewrite Hlen, Nat.sub_diag. cbn [lookup list_lookup].
      unfold survives in Hf. rewrite Hf.
      replace (<[List.length pre:=v]>
                 (npre ++ zero (field_kind f) :: map
                    (fun f0 => zero (field_kind f0)) post))
        with ((npre ++ [v]) ++ zeroStruct zero post).
      * rewrite Eapp, IH.
        -- rewrite <- app_assoc. reflexivity.
        -- rewrite <- Eapp. exact Hnd.
        -- rewrite !length_app, Hlen. reflexivity.
        -- exact Hrest.
      * rewrite <- Hlen, insert_app_r_alt by lia.
        rewrite Nat.sub_diag, <- app_assoc. reflexivity.
Qed.

Lemma unmarshal_marshal (fields : list (fieldSpec K)) (vs : list V) :
  NoDup (map field_key fields) ->
  Forall2 (survives encode decode zero) fields vs ->
  unmarshalStruct decode zero fields
    (marshalStruct encode isEmpty fields vs)
  = Some (normalize isEmpty zero fields vs).
Proof.
  intros Hnd Hsv. unfold unmarshalStruct.
  apply (store_marshalled fields vs [] [] Hnd eq_refl Hsv).
Qed.
End Struct.

Lemma scalar_survives (k : scalarKind) (v cur : scalar) :
  scalarOk k v = true ->
  decodeScalar k (encodeScalar k v) cur = Some v.
Proof.
  destruct k, v; simpl; try discriminate; intros H; try reflexivity;
    try (rewrite H; reflexivity).
  apply String.eqb_eq in H. rewrite H. reflexivity.
Qed.

Lemma scalar_empty_zero (k : scalarKind) (v : scalar) :
  scalarOk k v = true -> emptyScalar v = true -> zeroScalar k = v.
Proof.
  destruct k, v; simpl; try discriminate; intros _ H.
  - apply String.eqb_eq in H. subst. reflexivity.
  - destruct b; [discriminate | reflexivity].
  - apply Z.eqb_eq in H. subst. reflexivity.
  - apply Z.eqb_eq in H. subst. reflexivity.
  - apply Z.eqb_eq in H. subst. reflexivity.
Qed.

Lemma normalize_row (leaves : list leaf) (row : list scalar) :
  Forall2 (fun f v => scalarOk (field_kind f) v = true) leaves row ->
  normalize emptyScalar zeroScalar leaves row = row.
Proof.
  induction 1 as [|f v leaves row Hv _ IH]; [reflexivity|].
  cbn [normalize]. rewrite IH.
  destruct (field_omitempty f && emptyScalar v) eqn:E; [|reflexivity].
  apply andb_prop in E as [_ E].
  rewrite (scalar_empty_zero _ _ Hv E). reflexivity.
Qed.

Lemma row_survives (leaves : list leaf) (row : list scalar) :
  distinctKeys leaves = true -> rowOk leaves row = true ->
  decodeRow leaves (marshalRow leaves row) = Some row.
Proof.
  intros Hnd Hok. apply bool_decide_eq_true in Hnd.
  apply ok_Forall2 in Hok.
  unfold decodeRow, marshalRow.
  rewrite unmarshal_marshal.
  - rewrite normalize_row by exact Hok. reflexivity.
  - exact Hnd.
  - eapply Forall2_impl; [exact Hok|].
    intros f v Hv. apply scalar_survives, Hv.
Qed.

Lemma decodeAll_map {A} (dec : json -> option A) (enc : A -> json)
    (items : list A) :
  Forall (fun a => dec (enc a) = Some a) items ->
  decodeAll dec (map enc items) = Some items.
Proof.
  induction 1 as [|a items Ha _ IH]; [reflexivity|].
  simpl. rewrite Ha, IH. reflexivity.
Qed.

Lemma value_survives (k : kind) (v : value) :
  kindWf k = true -> valueOk k v = true ->
  decodeValue k (encodeValue k v) (zeroValue k) = Some v.
Proof.
  destruct k as [sk| |leaves], v as [s|[items|]|[rows|]];
    simpl; try discriminate; intros Hwf Hok; try reflexivity.
  - rewrite scalar_survives by exact Hok. reflexivity.
  - rewrite decodeAll_map; [reflexivity|].
    apply Forall_forall. intros s Hin. simpl.
    rewrite forallb_forall in Hok.
    apply list_elem_of_In, Hok, String.eqb_eq in Hin.
    rewrite Hin. reflexivity.
  - rewrite decodeAll_map; [reflexivity|].
    apply Forall_forall. intros row Hin. apply row_survives; [exact Hwf|].
    rewrite forallb_forall in Hok. apply Hok.
    apply list_elem_of_In. exact Hin.
Qed.

Lemma json_roundtrip (fields : schema) (vs : list value) :
  schemaWf fields = true -> structOk fields vs = true ->
  json_Unmarshal fields (json_Marshal fields vs)
  = Some (normalize emptyValue zeroValue fields vs).
Proof.
  intros Hwf Hok. apply andb_prop in Hwf as [Hnd Hkinds].
  apply bool_decide_eq_true in Hnd. apply ok_Forall2 in Hok.
  unfold json_Unmarshal, json_Marshal.
  apply unmarshal_marshal; [exact Hnd|].
  rewrite forallb_forall in Hkinds.
  clear Hnd. induction Hok as [|f v fields vs Hv Hrest IH];
    constructor.
  - apply value_survives; [|exact Hv]. apply Hkinds. left. reflexivity.
  - apply IH. intros g Hg. apply Hkinds. right. exact Hg.
Qed.

Lemma normalize_same (fields : schema) (vs : list value) :
  structOk fields vs = true ->
  Forall2 sameValue vs (normalize emptyValue zeroValue fields vs).
Proof.
  intros Hok. apply ok_Forall2 in Hok.
  induction Hok as [|f v fields vs Hv _ IH]; [constructor|].
  cbn [normalize]. constructor; [|exact IH].
  destruct (field_omitempty f && emptyValue v) eqn:E; [|left; reflexivity].
  apply andb_prop in E as [_ E].
  destruct (field_kind f) as [sk| |leaves], v as [s|items|rows];
    simpl in Hv; try discriminate.
  - left. simpl. f_equal. symmetry. apply scalar_empty_zero; assumption.
  - right. auto.
  - right. auto.
Qed.

Lemma ParseMessage_MarshalMessage msgType data :
  validText msgType = true ->
  ParseMessage (MarshalMessage msgType data) = Some (NewMessage msgType data).
Proof.
  intros H. apply String.eqb_eq in H.
  destruct data as [[fields vs]|]; simpl; rewrite H; reflexivity.
Qed.

Lemma catalogue_wf :
  Forall (fun entry => match snd entry with
                       | Some fields => schemaWf fields = true
                       | None => True
                       end) catalogue.
Proof. repeat constructor. Qed.

Lemma catalogue_text :
  Forall (fun entry => validText (fst entry) = true) catalogue.
Proof. repeat constructor. Qed.

(** Bytes that start no UTF-8 sequence do not come back: each is read
    back as U+FFFD. *)
Remark textOf_invalid :
  textOf (String (ascii_of_N 255) "a") = String.append RuneError "a".
Proof. reflexivity. Qed.

(** C9. For every message type of the catalogue that carries a struct,
    and every value of that struct whose strings are well-formed UTF-8,
    the frame made by [MarshalMessage] is read back by [ParseMessage]
    with the same type, and [UnmarshalData] gives the value back, each
    field as it was except that an [omitempty] slice of length zero comes
    back nil; a message without payload is encoded as an object with the
    single member [type], and is read back with no data. *)
Theorem Message_roundtrip (msgType : string) (payload : option schema) :
  In (msgType, payload) catalogue ->
  match payload with
  | Some fields =>
      forall vs, structOk fields vs = true ->
      exists msg,
        ParseMessage (MarshalMessage msgType (Some (fields, vs))) = Some msg
        /\ msg_Type msg = msgType
        /\ UnmarshalData fields msg
           = Some (normalize emptyValue zeroValue fields vs)
        /\ Forall2 sameValue vs (normalize emptyValue zeroValue fields vs)
  | None =>
      MarshalMessage msgType None
      = JObject [("type"%string, JString msgType)]
      /\ ParseMessage (MarshalMessage msgType None)
         = Some (mkMessage msgType None)
  end.
Proof.
  intros Hin. apply list_elem_of_In in Hin.
  pose proof catalogue_text as Htext. rewrite Forall_forall in Htext.
  pose proof (Htext _ Hin) as Hty. simpl in Hty.
  destruct payload as [fields|].
  - intros vs Hok.
    exists (NewMessage msgType (Some (fields, vs))).
    split; [apply ParseMessage_MarshalMessage, Hty|].
    split; [reflexivity|].
    split; [|apply normalize_same, Hok].
    unfold UnmarshalData. simpl. apply json_roundtrip; [|exact Hok].
    pose proof catalogue_wf as Hwf. rewrite Forall_forall in Hwf.
    apply (Hwf _ Hin).
  - pose proof (ParseMessage_MarshalMessage msgType None Hty) as Hp.
    split; [|exact Hp].
    apply String.eqb_eq in Hty. unfold MarshalMessage. simpl.
    rewrite Hty. reflexivity.
Qed.

Lemma Message_roundtrip_witness :
  exists msg,
    ParseMessage (MarshalMessage "exec_cmd" (Some (ExecCmdData, demo_exec)))
    = Some msg
    /\ msg_Type msg = "exec_cmd"%string
    /\ UnmarshalData ExecCmdData msg
       = Some [ VScalar (VString "t1"); VScalar (VString "");
                VScalar (VString "ls"); VStrings None;
                VScalar (VInt 45) ].
Proof.
  destruct (Message_roundtrip "exec_cmd" (Some ExecCmdData)) with demo_exec
    as (msg & Hp & Ht & Hu & _).
  - unfold catalogue. do 16 right. left. reflexivity.
  - reflexivity.
  - exists msg. split; [exact Hp|]. split; [exact Ht|]. exact Hu.
Defined.

(** C9, the claim as it was stated.  A string of a Go program is any
    bytes, and [json.Marshal] prints a byte that is not UTF-8 as U+FFFD:
    a register message whose host name holds such a byte is read back
    with another host name than it was encoded with. *)
Lemma Message_roundtrip_not_text :
  In ("register"%string, Some RegisterData) catalogue
  /\ exists msg back,
       ParseMessage
         (MarshalMessage "register" (Some (RegisterData, demo_register)))
       = Some msg
       /\ UnmarshalData RegisterData msg = Some back
       /\ back !! 2%nat
          = Some (VScalar (VString (String.append RuneError "a")))
       /\ demo_register !! 2%nat
          = Some (VScalar (VString (String (ascii_of_N 255) "a")))
       /\ ~ Forall2 sameValue demo_register back.
Proof.
  split; [left; reflexivity|].
  eexists. eexists. split; [reflexivity|]. split; [reflexivity|].
  split; [reflexivity|]. split; [reflexivity|].
  intros H.
  apply Forall2_cons_1 in H as [_ H]. apply Forall2_cons_1 in H as [_ H].
  apply Forall2_cons_1 in H as [[Heq | (_ & _ & [])] _].
  discriminate Heq.
Qed.

End CodecSpec.

(** ** Session manager *)

Module SessionSpec.
Import GoInt Time Session GoIntFacts.

(** *** The heap *)

Lemma alter_as_insert {A} (f : A -> A) (h : nat) (l : list A) (x : A) :
  l !! h = Some x -> alter f h l = <[h := f x]> l.
Proof.
  intros Hx. apply list_eq. intros i.
  destruct (decide (h = i)) as [<-|Hne].
  - rewrite list_lookup_alter_eq, Hx.
    rewrite list_lookup_insert_eq; [reflexivity|].
    apply lookup_lt_Some in Hx. exact Hx.
  - rewrite list_lookup_alter_ne, list_lookup_insert_ne by exact Hne.
    reflexivity.
Qed.

Lemma insert_lookup_same {A} (h : nat) (l : list A) (x y : A) :
  l !! h = Some x -> <[h := y]> l !! h = Some y.
Proof.
  intros Hx. apply list_lookup_insert_eq.
  apply lookup_lt_Some in Hx. exact Hx.
Qed.

Lemma onSession_at (h : nat) (f : TermSession -> TermSession)
    reg cnt hp t out (s : TermSession) :
  hp !! h = Some s ->
  onSession h f (mkManager reg cnt hp t out)
  = mkManager reg cnt (<[h := f s]> hp) t out.
Proof.
  intros Hs. unfold onSession, withHeap. simpl.
  rewrite (alter_as_insert f h hp s Hs). reflexivity.
Qed.

Lemma AddInt32_small (x d : Z) :
  - 2 ^ 31 <= x + d <= 2 ^ 31 - 1 -> AddInt32 x d = x + d.
Proof. apply wrap32_small. Qed.

(** *** A goroutine on its way out, run to its return *)

Lemma exitWith_at setTask h reg cnt hp t out s stage :
  hp !! h = Some s ->
  exitWith setTask h s stage (mkManager reg cnt hp t out)
  = match stage with
    | AtSendExit =>
        mkManager reg cnt (<[h := setTask (Exiting AtDelete) s]> hp) t
          (ExitFrame h (ID s) 0 :: out)
    | AtDelete =>
        mkManager (delete (ID s) reg) cnt
          (<[h := setTask (Exiting AtDecrement) s]> hp) t out
    | AtDecrement =>
        mkManager reg (AddInt32 cnt (-1))
          (<[h := setTask (Exiting AtClose) s]> hp) t out
    | AtClose =>
        mkManager reg cnt (<[h := setTask Finished (Close s)]> hp) t out
    end.
Proof.
  intros Hs. unfold exitWith. destruct stage; cbn [exitStep];
    cbn [sessions sessionCount heap now sent].
  - apply onSession_at, Hs.
  - apply onSession_at, Hs.
  - apply onSession_at, Hs.
  - rewrite (onSession_at h Close _ _ _ _ _ s Hs).
    rewrite (onSession_at h _ _ _ _ _ _ (Close s))
      by (apply (insert_lookup_same h hp s _ Hs)).
    rewrite list_insert_insert_eq. reflexivity.
Qed.

(** A goroutine that can take all its steps takes them when drained. *)
Lemma run_drain (e : Event) (fuel : nat) (m m' : Manager) :
  run m (repeat e fuel) = Some m' -> drain e fuel m = m'.
Proof.
  revert m. induction fuel as [|fuel IH]; intros m; simpl.
  - intros [= <-]. reflexivity.
  - destruct (step e m) as [m1|]; [apply IH | discriminate].
Qed.

Lemma run_reader (h : nat) (m : Manager) (s : TermSession) :
  heap m !! h = Some s -> reader s = Exiting AtSendExit ->
  run m [ReaderStep h; ReaderStep h; ReaderStep h; ReaderStep h]
  = Some (departed h s (withReader Finished (Close s)) m).
Proof.
  intros Hs Hr. destruct m as [reg cnt hp t out]. simpl in Hs.
  unfold departed. cbn [sessions sessionCount heap now sent].
  cbn [run step heap]. rewrite Hs, Hr.
  rewrite exitWith_at by exact Hs. cbn [heap].
  rewrite (insert_lookup_same h hp s _ Hs). cbn [reader withReader].
  rewrite exitWith_at by (apply (insert_lookup_same h hp s _ Hs)).
  cbn [heap ID withReader]. rewrite list_insert_insert_eq.
  rewrite (insert_lookup_same h hp s _ Hs). cbn [reader withReader].
  rewrite exitWith_at by (apply (insert_lookup_same h hp s _ Hs)).
  cbn [heap ID withReader]. rewrite list_insert_insert_eq.
  rewrite (insert_lookup_same h hp s _ Hs). cbn [reader withReader].
  rewrite exitWith_at by (apply (insert_lookup_same h hp s _ Hs)).
  cbn [heap ID withReader]. rewrite list_insert_insert_eq.
  do 3 f_equal. destruct s as [i tc pf la c sc r mo nt]. unfold Close.
  simpl. destruct c; reflexivity.
Qed.

Lemma drain_reader (h : nat) (m : Manager) (s : TermSession) :
  heap m !! h = Some s -> reader s = Exiting AtSendExit ->
  drain (ReaderStep h) 4 m
  = departed h s (withReader Finished (Close s)) m.
Proof.
  intros Hs Hr. apply (run_drain (ReaderStep h) 4 m).
  apply (run_reader h m s Hs Hr).
Qed.

Lemma run_monitor (h : nat) (m : Manager) (s : TermSession) :
  heap m !! h = Some s -> monitor s = Exiting AtSendExit ->
  run m [MonitorStep h; MonitorStep h; MonitorStep h; MonitorStep h]
  = Some (departed h s (withMonitor Finished (Close s)) m).
Proof.
  intros Hs Hr. destruct m as [reg cnt hp t out]. simpl in Hs.
  unfold departed. cbn [sessions sessionCount heap now sent].
  cbn [run step heap]. rewrite Hs, Hr.
  rewrite exitWith_at by exact Hs. cbn [heap].
  rewrite (insert_lookup_same h hp s _ Hs). cbn [monitor withMonitor].
  rewrite exitWith_at by (apply (insert_lookup_same h hp s _ Hs)).
  cbn [heap ID withMonitor]. rewrite list_insert_insert_eq.
  rewrite (insert_lookup_same h hp s _ Hs). cbn [monitor withMonitor].
  rewrite exitWith_at by (apply (insert_lookup_same h hp s _ Hs)).
  cbn [heap ID withMonitor]. rewrite list_insert_insert_eq.
  rewrite (insert_lookup_same h hp s _ Hs). cbn [monitor withMonitor].
  rewrite exitWith_at by (apply (insert_lookup_same h hp s _ Hs)).
  cbn [heap ID withMonitor]. rewrite list_insert_insert_eq.
  do 3 f_equal. destruct s as [i tc pf la c sc r mo nt]. unfold Close.
  simpl. destruct c; reflexivity.
Qed.

Lemma drain_monitor (h : nat) (m : Manager) (s : TermSession) :
  heap m !! h = Some s -> monitor s = Exiting AtSendExit ->
  drain (MonitorStep h) 4 m
  = departed h s (withMonitor Finished (Close s)) m.
Proof.
  intros Hs Hr. apply (run_drain (MonitorStep h) 4 m).
  apply (run_monitor h m s Hs Hr).
Qed.

Lemma drain_stuck (e : Event) (fuel : nat) (m : Manager) :
  step e m = None -> drain e fuel m = m.
Proof. intros H. destruct fuel; simpl; rewrite ?H; reflexivity. Qed.

(** *** Whole operations keep the manager consistent *)

Lemma Consistent_init (start : Z) : Consistent (NewSessionManager start).
Proof.
  split; simpl.
  - reflexivity.
  - unfold live, maxSessions. simpl. rewrite map_size_empty. lia.
  - intros id h H. rewrite lookup_empty in H. discriminate.
  - intros h s H. rewrite lookup_nil in H. discriminate.
  - intros h s st H. rewrite lookup_nil in H. discriminate.
Qed.

(** Only the registry, the counter and the heap matter. *)
Lemma Consistent_same (m m' : Manager) :
  sessions m' = sessions m -> sessionCount m' = sessionCount m ->
  heap m' = heap m -> Consistent m -> Consistent m'.
Proof.
  intros Hr Hc Hh [C1 C2 C3 C4 C5].
  split; unfold live in *; rewrite ?Hr, ?Hc, ?Hh; assumption.
Qed.

Lemma Consistent_onSession (h : nat) (f : TermSession -> TermSession)
    (m : Manager) :
  harmless f -> Consistent m -> Consistent (onSession h f m).
Proof.
  intros Hf [C1 C2 C3 C4 C5].
  split; unfold onSession, withHeap, live in *; simpl.
  - exact C1.
  - exact C2.
  - intros id h' Hreg. destruct (C3 id h' Hreg) as (s & Hs & Hid & Hcl).
    destruct (decide (h = h')) as [<-|Hne].
    + exists (f s). rewrite list_lookup_alter_eq, Hs.
      destruct (Hf s) as (-> & -> & _). auto.
    + exists s. rewrite list_lookup_alter_ne by exact Hne. auto.
  - intros h' s' Hs' Hcl. destruct (decide (h = h')) as [<-|Hne].
    + rewrite list_lookup_alter_eq in Hs'.
      destruct (heap m !! h) as [s|] eqn:Hs; [|discriminate].
      injection Hs' as <-. destruct (Hf s) as (Hid & Hc & _).
      rewrite Hid. apply C4; [exact Hs | congruence].
    + rewrite list_lookup_alter_ne in Hs' by exact Hne. auto.
  - intros h' s' stage Hs'. destruct (decide (h = h')) as [<-|Hne].
    + rewrite list_lookup_alter_eq in Hs'.
      destruct (heap m !! h) as [s|] eqn:Hs; [|discriminate].
      injection Hs' as <-. destruct (Hf s) as (_ & _ & Hr & Hm).
      destruct (C5 h s stage Hs). auto.
    + rewrite list_lookup_alter_ne in Hs' by exact Hne. eauto.
Qed.

Lemma harmless_touch t : harmless (touch t).
Proof. intros s. repeat split; auto. Qed.

Lemma harmless_failPty : harmless failPty.
Proof. intros s. unfold failPty. destruct (terminalClosed s); auto. Qed.

Lemma harmless_withReader t :
  (forall stage, t <> Exiting stage) -> harmless (withReader t).
Proof. intros Ht s. repeat split; auto. Qed.

Lemma harmless_withMonitor t :
  (forall stage, t <> Exiting stage) -> harmless (withMonitor t).
Proof. intros Ht s. repeat split; auto. Qed.

Lemma harmless_ticked : harmless ticked.
Proof. intros s. repeat split; auto. Qed.

Lemma harmless_compose f g :
  harmless f -> harmless g -> harmless (fun s => f (g s)).
Proof.
  intros Hf Hg s. destruct (Hg s) as (G1 & G2 & G3 & G4).
  destruct (Hf (g s)) as (F1 & F2 & F3 & F4).
  repeat split; try congruence; auto.
Qed.

(** An open session leaves the registry, the counter and the heap at
    once: what [CloseSession] does, and what a reader or a watchdog does
    when nothing falls between its statements. *)
Lemma Consistent_remove (m : Manager) (h : nat) (s s' : TermSession)
    (t : Z) (out : list Output) :
  Consistent m -> heap m !! h = Some s -> closed s = false ->
  closed s' = true ->
  (forall stage, reader s' <> Exiting stage
                 /\ monitor s' <> Exiting stage) ->
  Consistent (mkManager (delete (ID s) (sessions m))
                (AddInt32 (sessionCount m) (-1))
                (<[h := s']> (heap m)) t out).
Proof.
  intros [C1 C2 C3 C4 C5] Hs Hopen Hclosed Hquiet.
  pose proof (C4 h s Hs Hopen) as Hreg.
  assert (size (sessions m) <> 0%nat) as Hpos.
  { intros H0. apply map_size_empty_iff in H0. rewrite H0 in Hreg.
    rewrite lookup_empty in Hreg. discriminate. }
  assert (Z.of_nat (size (delete (ID s) (sessions m)))
          = Z.of_nat (size (sessions m)) - 1) as Hsize.
  { rewrite map_size_delete_Some by eauto.
    destruct (size (sessions m)); [contradiction | cbn [Nat.pred]; lia]. }
  unfold live, maxSessions in *.
  split; unfold live; simpl.
  - rewrite Hsize, C1. apply AddInt32_small. lia.
  - rewrite Hsize. unfold maxSessions. lia.
  - intros id h' Hl.
    destruct (decide (ID s = id)) as [<-|Hne];
      [rewrite lookup_delete_eq in Hl; discriminate|].
    rewrite lookup_delete_ne in Hl by exact Hne.
    destruct (C3 id h' Hl) as (s0 & Hs0 & Hid & Hcl).
    exists s0. split; [|auto].
    rewrite list_lookup_insert_ne; [exact Hs0|].
    intros <-. congruence.
  - intros h' s0 Hs0 Hcl.
    destruct (decide (h = h')) as [<-|Hne].
    + rewrite (insert_lookup_same h _ s s' Hs) in Hs0. congruence.
    + rewrite list_lookup_insert_ne in Hs0 by exact Hne.
      rewrite lookup_delete_ne; [auto|].
      intros E. pose proof (C4 h' s0 Hs0 Hcl) as H'.
      rewrite <- E, Hreg in H'. congruence.
  - intros h' s0 stage Hs0.
    destruct (decide (h = h')) as [<-|Hne].
    + rewrite (insert_lookup_same h _ s s' Hs) in Hs0.
      injection Hs0 as <-. apply Hquiet.
    + rewrite list_lookup_insert_ne in Hs0 by exact Hne. eauto.
Qed.

Lemma Close_closed (s : TermSession) : closed (Close s) = true.
Proof. unfold Close. destruct (closed s) eqn:E; [exact E | reflexivity]. Qed.

Lemma Close_tasks (s : TermSession) :
  reader (Close s) = reader s /\ monitor (Close s) = monitor s
  /\ ID (Close s) = ID s.
Proof. unfold Close. destruct (closed s); auto. Qed.

Lemma Consistent_SpawnSession sessionID cols rows username pty m :
  Consistent m ->
  Consistent (fst (SpawnSession sessionID cols rows username pty m)).
Proof.
  intros Hc. unfold SpawnSession.
  destruct (Z.leb_spec maxSessions (sessionCount m)) as [|Hlt];
    [exact Hc|].
  destruct (sessions m !! sessionID) eqn:Hfresh; [exact Hc|].
  destruct pty; [|exact Hc..]. cbn [fst].
  destruct Hc as [C1 C2 C3 C4 C5]. unfold live, maxSessions in *.
  split; unfold live; simpl.
  - rewrite map_size_insert_None by exact Hfresh.
    rewrite AddInt32_small by lia. lia.
  - rewrite map_size_insert_None by exact Hfresh. unfold maxSessions. lia.
  - intros id h Hl. destruct (decide (sessionID = id)) as [<-|Hne].
    + rewrite lookup_insert_eq in Hl. injection Hl as <-.
      eexists. split; [apply list_lookup_middle; reflexivity|]. auto.
    + rewrite lookup_insert_ne in Hl by exact Hne.
      destruct (C3 id h Hl) as (s & Hs & Hid & Hcl).
      exists s. split; [|auto]. apply lookup_app_l_Some, Hs.
  - intros h s Hs Hcl. apply lookup_snoc_Some in Hs as [[Hlt' Hs]|[-> <-]].
    + pose proof (C4 h s Hs Hcl) as Hreg.
      rewrite lookup_insert_ne; [exact Hreg|].
      intros E. rewrite <- E, Hfresh in Hreg. discriminate.
    + simpl. apply lookup_insert_eq.
  - intros h s stage Hs.
    apply lookup_snoc_Some in Hs as [[Hlt' Hs]|[-> <-]];
      [eauto | split; discriminate].
Qed.

Lemma Consistent_closeOne (m : Manager) (sessionID : string) (h : nat) :
  Consistent m -> sessions m !! sessionID = Some h ->
  Consistent (closeOne m (sessionID, h)).
Proof.
  intros Hc Hreg. destruct (cons_registered m Hc sessionID h Hreg)
    as (s & Hs & <- & Hopen).
  unfold closeOne. cbn [fst snd].
  rewrite (alter_as_insert Close h (heap m) s Hs).
  apply Consistent_remove; auto using Close_closed.
  intros stage. destruct (cons_quiet m Hc h s stage Hs).
  destruct (Close_tasks s) as (-> & -> & _). auto.
Qed.

Lemma Consistent_CloseSession sessionID m :
  Consistent m -> Consistent (fst (CloseSession sessionID m)).
Proof.
  intros Hc. unfold CloseSession.
  destruct (sessions m !! sessionID) as [h|] eqn:Hreg; [|exact Hc].
  apply (Consistent_closeOne m sessionID h Hc Hreg).
Qed.

Lemma size_closeOne (m : Manager) (sessionID : string) (h : nat) :
  sessions m !! sessionID = Some h ->
  S (size (sessions (closeOne m (sessionID, h)))) = size (sessions m).
Proof.
  intros Hreg. simpl. rewrite map_size_delete_Some by eauto.
  destruct (size (sessions m)) eqn:E; [|reflexivity].
  apply map_size_empty_iff in E. rewrite E, lookup_empty in Hreg.
  discriminate.
Qed.

(** The [Range] of [CloseAllSessions] over any part of the registry. *)
Lemma closeAll_entries (entries : list (string * nat)) :
  forall m, NoDup (entries.*1) ->
  (forall sessionID h, (sessionID, h) ∈ entries ->
                       sessions m !! sessionID = Some h) ->
  Consistent m ->
  Consistent (fold_left closeOne entries m)
  /\ (size (sessions (fold_left closeOne entries m))
      + List.length entries)%nat = size (sessions m).
Proof.
  induction entries as [|[id h] entries IH]; intros m Hnd Hreg Hc.
  - simpl. split; [exact Hc | lia].
  - cbn [fold_left]. rewrite fmap_cons in Hnd.
    apply NoDup_cons in Hnd as [Hid Hnd].
    assert (sessions m !! id = Some h) as Hh
      by (apply Hreg; left).
    destruct (IH (closeOne m (id, h))) as [Hc' Hsize].
    + exact Hnd.
    + intros id' h' Hin. simpl. rewrite lookup_delete_ne.
      * apply Hreg. right. exact Hin.
      * intros <-. apply Hid. apply list_elem_of_fmap.
        exists (id, h'). auto.
    + apply Consistent_closeOne; assumption.
    + split; [exact Hc'|].
      pose proof (size_closeOne m id h Hh). simpl List.length. lia.
Qed.

Lemma CloseAllSessions_empties (m : Manager) :
  Consistent m ->
  Consistent (CloseAllSessions m) /\ sessions (CloseAllSessions m) = ∅.
Proof.
  intros Hc. unfold CloseAllSessions.
  destruct (closeAll_entries (map_to_list (sessions m)) m) as [Hc' Hsize].
  - apply NoDup_fst_map_to_list.
  - intros id h Hin. apply elem_of_map_to_list. exact Hin.
  - exact Hc.
  - split; [exact Hc'|]. apply map_size_empty_iff.
    rewrite length_map_to_list in Hsize. lia.
Qed.

Lemma Consistent_Write sessionID m :
  Consistent m -> Consistent (fst (Write sessionID m)).
Proof.
  intros Hc. unfold Write.
  destruct (sessions m !! sessionID) as [h|]; [|exact Hc].
  destruct (heap m !! h) as [s|]; [|exact Hc].
  destruct (closed s); [exact Hc|].
  apply Consistent_onSession; [apply harmless_touch | exact Hc].
Qed.

Lemma step_ReaderWakes (h : nat) (m m' : Manager) :
  step (ReaderWakes h) m = Some m' ->
  exists s, heap m !! h = Some s /\ reader s = Running
    /\ ((m' = onSession h (withReader Finished) m
         /\ (stopChan s = true \/ closed s = true))
        \/ (m' = onSession h (withReader (Exiting AtSendExit)) m
            /\ stopChan s = false /\ readFails s = true
            /\ closed s = false)).
Proof.
  unfold step. destruct (heap m !! h) as [s|] eqn:Hs; [|discriminate].
  destruct (reader s) eqn:Hr; try discriminate. intros H.
  exists s. split; [reflexivity|]. split; [exact Hr|].
  destruct (stopChan s); [injection H as <-; auto|].
  destruct (readFails s); [|discriminate].
  destruct (closed s); injection H as <-; auto 6.
Qed.

Lemma step_Tick (h : nat) (m m' : Manager) :
  step (Tick h) m = Some m' ->
  exists s, heap m !! h = Some s /\ monitor s = Running
    /\ nextTick s <= now m
    /\ ((m' = onSession h (fun s' => withMonitor (Exiting AtSendExit)
                                       (ticked s')) m
         /\ inactive (now m) s = true /\ closed s = false)
        \/ (m' = onSession h (fun s' => withMonitor Running (ticked s')) m
            /\ inactive (now m) s && negb (closed s) = false)).
Proof.
  unfold step. destruct (heap m !! h) as [s|] eqn:Hs; [|discriminate].
  destruct (monitor s) eqn:Hr; try discriminate.
  destruct (Z.leb_spec (nextTick s) (now m)) as [Hdue|];
    [|discriminate]. intros H.
  exists s. split; [reflexivity|]. split; [exact Hr|].
  split; [exact Hdue|].
  destruct (inactive (now m) s && negb (closed s)) eqn:Hgo;
    injection H as <-; [left | right; auto].
  apply andb_prop in Hgo as [Hi Hopen]. apply negb_true_iff in Hopen.
  auto.
Qed.

Lemma step_ReaderStep_finished (h : nat) (m : Manager) :
  readerOf h m = Some Finished -> step (ReaderStep h) m = None.
Proof.
  unfold readerOf, step. destruct (heap m !! h) as [s|]; [|reflexivity].
  simpl. intros [= ->]. reflexivity.
Qed.

Lemma Consistent_ReaderExit (h : nat) (m m' : Manager) :
  Consistent m -> perform (ReaderExit h) m = Some m' -> Consistent m'.
Proof.
  intros Hc. unfold perform.
  destruct (step (ReaderWakes h) m) as [m1|] eqn:Hw; [|discriminate].
  intros Heq. apply (inj Some) in Heq. subst m'.
  apply step_ReaderWakes in Hw
    as (s & Hs & Hr & [[-> _]|(-> & _ & _ & Hopen)]).
  - rewrite drain_stuck.
    + apply Consistent_onSession; [|exact Hc].
      apply harmless_withReader. discriminate.
    + apply step_ReaderStep_finished.
      unfold readerOf, onSession, withHeap. simpl.
      rewrite list_lookup_alter_eq, Hs. reflexivity.
  - destruct m as [reg cnt hp t out]. simpl in Hs.
    rewrite (onSession_at h _ reg cnt hp t out s Hs).
    rewrite (drain_reader h _ (withReader (Exiting AtSendExit) s))
      by (simpl; try apply (insert_lookup_same h hp s _ Hs); reflexivity).
    unfold departed.
    cbn [sessions sessionCount heap now sent ID withReader].
    rewrite list_insert_insert_eq.
    apply (Consistent_remove (mkManager reg cnt hp t out) h s); auto.
    + apply Close_closed.
    + intros stage. simpl. split; [discriminate|].
      destruct (cons_quiet _ Hc h s stage Hs) as [_ Hm].
      unfold Close. simpl. rewrite Hopen. exact Hm.
Qed.

Lemma Consistent_WatchdogPoll (h : nat) (m m' : Manager) :
  Consistent m -> perform (WatchdogPoll h) m = Some m' -> Consistent m'.
Proof.
  intros Hc. unfold perform.
  destruct (step (Tick h) m) as [m1|] eqn:Hw; [|discriminate].
  intros Heq. apply (inj Some) in Heq. subst m'.
  apply step_Tick in Hw
    as (s & Hs & Hr & _ & [(-> & _ & Hopen)|(-> & _)]).
  - destruct m as [reg cnt hp t out]. simpl in Hs.
    rewrite (onSession_at h _ reg cnt hp t out s Hs).
    rewrite (drain_monitor h _
               (withMonitor (Exiting AtSendExit) (ticked s)))
      by (simpl; try apply (insert_lookup_same h hp s _ Hs); reflexivity).
    unfold departed.
    cbn [sessions sessionCount heap now sent ID withMonitor ticked].
    rewrite list_insert_insert_eq.
    apply (Consistent_remove (mkManager reg cnt hp t out) h s); auto.
    + apply Close_closed.
    + intros stage. simpl. split; [|discriminate].
      destruct (cons_quiet _ Hc h s stage Hs) as [Hrd _].
      unfold Close. simpl. rewrite Hopen. exact Hrd.
  - rewrite drain_stuck.
    + apply Consistent_onSession; [|exact Hc].
      apply (harmless_compose (withMonitor Running) ticked);
        [apply harmless_withMonitor; discriminate | apply harmless_ticked].
    + unfold step, onSession, withHeap. simpl.
      rewrite list_lookup_alter_eq, Hs. reflexivity.
Qed.

Lemma Consistent_perform (op : Op) (m m' : Manager) :
  Consistent m -> perform op m = Some m' -> Consistent m'.
Proof.
  intros Hc. destruct op as [e|h|h];
    [|apply Consistent_ReaderExit, Hc
     |apply Consistent_WatchdogPoll, Hc].
  unfold perform. destruct e; try discriminate; cbn [isSingle step].
  - intros [= <-]. apply Consistent_SpawnSession, Hc.
  - intros [= <-]. apply Consistent_CloseSession, Hc.
  - intros [= <-]. apply CloseAllSessions_empties, Hc.
  - intros [= <-]. apply Consistent_Write, Hc.
  - intros [= <-]. apply Consistent_Write, Hc.
  - destruct (0 <=? d); [|discriminate]. intros [= <-].
    apply (Consistent_same m); auto.
  - destruct (heap m !! h); [|discriminate]. intros [= <-].
    apply Consistent_onSession; [apply harmless_failPty | exact Hc].
  - destruct (heap m !! h) as [s|]; [|discriminate].
    destruct (reader s), (readFails s), data; try discriminate.
    intros [= <-].
    apply (Consistent_same (onSession h (touch (now m)) m)); auto.
    apply Consistent_onSession; [apply harmless_touch | exact Hc].
  - destruct (heap m !! h) as [s|]; [|discriminate].
    destruct (monitor s); try discriminate.
    destruct (stopChan s); [|discriminate]. intros [= <-].
    apply Consistent_onSession; [|exact Hc].
    apply harmless_withMonitor. discriminate.
Qed.

Lemma Consistent_performAll (ops : list Op) :
  forall m m', Consistent m -> performAll m ops = Some m' ->
               Consistent m'.
Proof.
  induction ops as [|op ops IH]; intros m m' Hc; simpl.
  - intros [= <-]. exact Hc.
  - destruct (perform op m) as [m1|] eqn:Hop; [|discriminate].
    apply IH. apply (Consistent_perform op m m1 Hc Hop).
Qed.

(** *** Every step keeps the manager well-formed *)

Lemma orderly_id s : orderly (fun s => s) s.
Proof. unfold orderly, flagsAgree. simpl. tauto. Qed.

Lemma orderly_Close s : orderly Close s.
Proof.
  unfold orderly, Close, flagsAgree.
  destruct (closed s) eqn:E; simpl; intuition congruence.
Qed.

Lemma orderly_touch t s : orderly (touch t) s.
Proof. unfold orderly, flagsAgree. simpl. intuition congruence. Qed.

Lemma orderly_failPty s : orderly failPty s.
Proof.
  unfold orderly, failPty, flagsAgree.
  destruct (terminalClosed s) eqn:E; simpl; intuition congruence.
Qed.

Lemma orderly_withReader t s : t <> Running -> orderly (withReader t) s.
Proof.
  intros Ht. unfold orderly, flagsAgree. simpl. intuition congruence.
Qed.

Lemma orderly_withMonitor t s : t <> Running -> orderly (withMonitor t) s.
Proof.
  intros Ht. unfold orderly, flagsAgree. simpl. intuition congruence.
Qed.

Lemma orderly_compose f g s :
  orderly g s -> orderly f (g s) -> orderly (f ∘ g) s.
Proof.
  intros (G1 & G2 & G3 & G4) (F1 & F2 & F3 & F4). unfold compose.
  repeat split; try congruence; auto; apply F2, G2; assumption.
Qed.

Lemma WellFormed_init (start : Z) : WellFormed (NewSessionManager start).
Proof.
  split; simpl.
  - intros h s H. rewrite lookup_nil in H. discriminate.
  - intros id h H. rewrite lookup_empty in H. discriminate.
  - intros h id code H. apply elem_of_nil in H. contradiction.
Qed.

(** A step that changes one session object, takes entries out of the
    registry at most, and sends an exit notification only for an object it
    has moved out of its loop. *)
Lemma WellFormed_local (m : Manager) reg' cnt' t' out'
    (f : TermSession -> TermSession) (h0 : nat) :
  WellFormed m ->
  (forall sessionID h, reg' !! sessionID = Some h ->
                       sessions m !! sessionID = Some h) ->
  (forall s, heap m !! h0 = Some s -> orderly f s) ->
  (forall h sessionID code,
     ExitFrame h sessionID code ∈ out' ->
     ExitFrame h sessionID code ∈ sent m
     \/ (h = h0 /\ exists s, heap m !! h0 = Some s
                    /\ (reader (f s) <> Running
                        \/ monitor (f s) <> Running))) ->
  WellFormed (mkManager reg' cnt' (alter f h0 (heap m)) t' out').
Proof.
  intros [W1 W2 W3] Hreg Hf Hout. split; simpl.
  - intros h s' Hs'. rewrite list_lookup_alter in Hs'.
    destruct (decide (h0 = h)) as [->|Hne]; [|eauto].
    destruct (heap m !! h) as [s|] eqn:Hs; [|discriminate].
    injection Hs' as <-. destruct (Hf s eq_refl) as (_ & Hflags & _).
    apply Hflags, (W1 h s Hs).
  - intros id h Hl. destruct (W2 id h (Hreg id h Hl)) as (s & Hs & Hid).
    rewrite list_lookup_alter.
    destruct (decide (h0 = h)) as [->|Hne]; [|eauto].
    exists (f s). rewrite Hs. destruct (Hf s Hs) as (-> & _). auto.
  - intros h id code Hin.
    destruct (Hout h id code Hin) as [Hold|(-> & s & Hs & Htask)].
    + destruct (W3 h id code Hold) as (s & Hs & Htask).
      rewrite list_lookup_alter.
      destruct (decide (h0 = h)) as [->|Hne]; [|eauto].
      exists (f s). rewrite Hs. split; [reflexivity|].
      destruct (Hf s Hs) as (_ & _ & Hr & Hm). tauto.
    + exists (f s). rewrite list_lookup_alter_eq, Hs. auto.
Qed.


Lemma exitWith_shape setTask h s stage m :
  exitWith setTask h s stage m
  = mkManager
      (match stage with
       | AtDelete => delete (ID s) (sessions m)
       | _ => sessions m
       end)
      (match stage with
       | AtDecrement => AddInt32 (sessionCount m) (-1)
       | _ => sessionCount m
       end)
      (alter (match stage with
              | AtClose => setTask Finished ∘ Close
              | _ => setTask (nextTask stage)
              end) h (heap m))
      (now m)
      (match stage with
       | AtSendExit => ExitFrame h (ID s) 0 :: sent m
       | _ => sent m
       end).
Proof.
  unfold exitWith.
  destruct stage; cbn [exitStep nextTask]; unfold onSession, withHeap;
    cbn [sessions sessionCount heap now sent]; try reflexivity.
  rewrite list_alter_alter_eq. reflexivity.
Qed.

Lemma WellFormed_closeOne (m : Manager) (entry : string * nat) :
  WellFormed m -> WellFormed (closeOne m entry).
Proof.
  intros Hw. unfold closeOne. apply WellFormed_local; auto.
  - intros id h Hl. apply lookup_delete_Some in Hl as [_ Hl]. exact Hl.
  - intros s _. apply orderly_Close.
Qed.

Lemma WellFormed_closeAll (entries : list (string * nat)) :
  forall m, WellFormed m -> WellFormed (fold_left closeOne entries m).
Proof.
  induction entries as [|entry entries IH]; intros m Hw; simpl;
    [exact Hw|]. apply IH, WellFormed_closeOne, Hw.
Qed.

Lemma WellFormed_SpawnSession sessionID cols rows username pty m :
  WellFormed m ->
  WellFormed (fst (SpawnSession sessionID cols rows username pty m)).
Proof.
  intros Hw. unfold SpawnSession.
  destruct (maxSessions <=? sessionCount m); [exact Hw|].
  destruct (sessions m !! sessionID) eqn:Hfresh; [exact Hw|].
  destruct pty; [|exact Hw..]. cbn [fst].
  destruct Hw as [W1 W2 W3]. split; simpl.
  - intros h s Hs. apply lookup_snoc_Some in Hs as [[_ Hs]|[_ <-]];
      [eauto | split; reflexivity].
  - intros id h Hl. rewrite lookup_insert in Hl.
    destruct (decide (sessionID = id)) as [<-|Hne].
    + injection Hl as <-. eexists.
      split; [apply list_lookup_middle; reflexivity | reflexivity].
    + destruct (W2 id h Hl) as (s & Hs & Hid). exists s.
      split; [apply lookup_app_l_Some, Hs | exact Hid].
  - intros h id code Hin. destruct (W3 h id code Hin) as (s & Hs & Ht).
    exists s. split; [apply lookup_app_l_Some, Hs | exact Ht].
Qed.

Lemma WellFormed_Write sessionID m :
  WellFormed m -> WellFormed (fst (Write sessionID m)).
Proof.
  intros Hw. unfold Write.
  destruct (sessions m !! sessionID) as [h|]; [|exact Hw].
  destruct (heap m !! h) as [s|]; [|exact Hw].
  destruct (closed s); [exact Hw|].
  apply WellFormed_local; auto using orderly_touch.
Qed.

Lemma WellFormed_exitWith setTask h s stage m :
  WellFormed m -> heap m !! h = Some s ->
  (forall t x, t <> Running -> orderly (setTask t) x) ->
  (forall t x, reader (setTask t x) = t \/ monitor (setTask t x) = t) ->
  WellFormed (exitWith setTask h s stage m).
Proof.
  intros Hw Hs Hset Hget. rewrite exitWith_shape.
  apply WellFormed_local; [exact Hw|..].
  - intros id h' Hl. destruct stage; try exact Hl.
    apply lookup_delete_Some in Hl as [_ Hl]. exact Hl.
  - intros x _. destruct stage; cbn [nextTask];
      try (apply Hset; discriminate).
    apply orderly_compose; [apply orderly_Close | apply Hset; discriminate].
  - intros h' id code Hin. destruct stage; auto.
    apply elem_of_cons in Hin as [[= -> -> ->]|Hin]; [|auto].
    right. split; [reflexivity|]. exists s. split; [exact Hs|].
    cbn [nextTask].
    destruct (Hget (Exiting AtDelete) s) as [E|E]; rewrite E;
      [left | right]; discriminate.
Qed.

Lemma WellFormed_step (e : Event) (m m' : Manager) :
  WellFormed m -> step e m = Some m' -> WellFormed m'.
Proof.
  intros Hw. destruct e; cbn [step].
  - intros [= <-]. apply WellFormed_SpawnSession, Hw.
  - intros [= <-]. unfold CloseSession.
    destruct (sessions m !! sessionID) as [h|]; [|exact Hw].
    apply (WellFormed_closeOne m (sessionID, h) Hw).
  - intros [= <-]. apply WellFormed_closeAll, Hw.
  - intros [= <-]. apply WellFormed_Write, Hw.
  - intros [= <-]. apply WellFormed_Write, Hw.
  - destruct (0 <=? d); [|discriminate]. intros [= <-].
    destruct Hw as [W1 W2 W3]. split; assumption.
  - destruct (heap m !! h); [|discriminate]. intros [= <-].
    apply WellFormed_local; auto using orderly_failPty.
  - destruct (heap m !! h) as [s|]; [|discriminate].
    destruct (reader s), (readFails s), data; try discriminate.
    intros [= <-]. apply WellFormed_local; auto using orderly_touch.
    intros h' id code Hin.
    apply elem_of_cons in Hin as [[=]|Hin]. auto.
  - destruct (heap m !! h) as [s|]; [|discriminate].
    destruct (reader s); try discriminate.
    destruct (stopChan s).
    { intros [= <-]. apply WellFormed_local; auto.
      intros x _. apply orderly_withReader. discriminate. }
    destruct (readFails s); [|discriminate]. intros [= <-].
    apply WellFormed_local; auto.
    intros x _. apply orderly_withReader.
    destruct (closed s); discriminate.
  - destruct (heap m !! h) as [s|] eqn:Hs; [|discriminate].
    destruct (reader s); try discriminate. intros [= <-].
    apply WellFormed_exitWith; auto using orderly_withReader.
  - destruct (heap m !! h) as [s|] eqn:Hs; [|discriminate].
    destruct (monitor s) eqn:Hm; try discriminate.
    destruct (nextTick s <=? now m); [|discriminate]. intros [= <-].
    apply WellFormed_local; auto.
    intros x Hx. rewrite Hs in Hx. injection Hx as <-.
    unfold orderly, flagsAgree. simpl. intuition congruence.
  - destruct (heap m !! h) as [s|]; [|discriminate].
    destruct (monitor s); try discriminate.
    destruct (stopChan s); [|discriminate]. intros [= <-].
    apply WellFormed_local; auto.
    intros x _. apply orderly_withMonitor. discriminate.
  - destruct (heap m !! h) as [s|] eqn:Hs; [|discriminate].
    destruct (monitor s); try discriminate. intros [= <-].
    apply WellFormed_exitWith; auto using orderly_withMonitor.
Qed.

(** *** A session the watchdog is closing *)

Lemma Closing_frame (h : nat) (sessionID : string) (m m' : Manager) :
  Closing h sessionID m ->
  heap m' !! h = heap m !! h ->
  (registered h m' -> registered h m) ->
  exitsOf h m' = exitsOf h m ->
  Closing h sessionID m'.
Proof.
  intros (s & Hs & Hid & Hrd & Hmon) Hheap Hreg Hout.
  exists s. rewrite Hheap, Hout. repeat (split; [assumption|]).
  destruct (monitor s) as [|[| | |]|]; intuition.
Qed.

(** A step that changes one session object, and if it is [h], keeps its
    id, its watchdog and a set [closed], and leaves its reader out of the
    exit statements. *)
Lemma Closing_local (h : nat) (sessionID : string) (m : Manager)
    reg' cnt' t' out' (f : TermSession -> TermSession) (h0 : nat) :
  Closing h sessionID m ->
  (forall id', reg' !! id' = Some h -> sessions m !! id' = Some h) ->
  List.filter (isExitOf h) out' = exitsOf h m ->
  (h0 = h -> forall s, heap m !! h = Some s ->
     ID (f s) = ID s /\ (forall stage, reader (f s) <> Exiting stage)
     /\ monitor (f s) = monitor s
     /\ (closed s = true -> closed (f s) = true)) ->
  Closing h sessionID (mkManager reg' cnt' (alter f h0 (heap m)) t' out').
Proof.
  intros (s & Hs & Hid & Hrd & Hmon) Hreg Hout Hf.
  assert (registered h (mkManager reg' cnt' (alter f h0 (heap m)) t' out')
          -> registered h m) as Hreg'.
  { intros [id' Hl]. exists id'. apply Hreg, Hl. }
  unfold Closing, exitsOf. cbn [heap sent]. rewrite Hout.
  rewrite list_lookup_alter.
  destruct (decide (h0 = h)) as [E|Hne].
  - destruct (Hf E s Hs) as (F1 & F2 & F3 & F4).
    exists (f s). subst h0. rewrite Hs. split; [reflexivity|].
    split; [congruence|]. split; [exact F2|]. rewrite F3.
    destruct (monitor s) as [|[| | |]|]; intuition.
  - exists s. repeat (split; [assumption|]).
    destruct (monitor s) as [|[| | |]|]; intuition.
Qed.

Lemma Closing_closeOne h sessionID m entry :
  Closing h sessionID m -> Closing h sessionID (closeOne m entry).
Proof.
  intros Hc. unfold closeOne. apply Closing_local; auto.
  - intros id' Hl. apply lookup_delete_Some in Hl as [_ Hl]. exact Hl.
  - intros _ s Hs. destruct Hc as (s0 & Hs0 & _ & Hrd & _).
    rewrite Hs in Hs0. injection Hs0 as <-.
    destruct (Close_tasks s) as (Er & Em & Ei).
    rewrite Er, Em, Ei. repeat split; auto.
    intros _. apply Close_closed.
Qed.

Lemma Closing_closeAll h sessionID (entries : list (string * nat)) :
  forall m, Closing h sessionID m ->
            Closing h sessionID (fold_left closeOne entries m).
Proof.
  induction entries as [|entry entries IH]; intros m Hc; simpl;
    [exact Hc|]. apply IH, Closing_closeOne, Hc.
Qed.

Lemma Closing_SpawnSession h sessionID id cols rows username pty m :
  Closing h sessionID m ->
  Closing h sessionID (fst (SpawnSession id cols rows username pty m)).
Proof.
  intros Hc. unfold SpawnSession.
  destruct (maxSessions <=? sessionCount m); [exact Hc|].
  destruct (sessions m !! id) eqn:Hfresh; [exact Hc|].
  destruct pty; [|exact Hc..]. cbn [fst].
  pose proof Hc as (s & Hs & _).
  apply (Closing_frame h sessionID m); [exact Hc|..].
  - simpl. rewrite (lookup_app_l_Some _ _ _ _ Hs). symmetry. exact Hs.
  - intros [id' Hl]. simpl in Hl. rewrite lookup_insert in Hl.
    destruct (decide (id = id')) as [_|_]; [|exists id'; exact Hl].
    injection Hl as <-. apply lookup_lt_Some in Hs. lia.
  - reflexivity.
Qed.

Lemma Closing_Write h sessionID id m :
  Closing h sessionID m -> Closing h sessionID (fst (Write id m)).
Proof.
  intros Hc. unfold Write.
  destruct (sessions m !! id) as [h0|]; [|exact Hc].
  destruct (heap m !! h0) as [s0|]; [|exact Hc].
  destruct (closed s0); [exact Hc|].
  apply Closing_local; auto.
  intros _ s Hs. destruct Hc as (s1 & Hs1 & _ & Hrd & _).
  rewrite Hs in Hs1. injection Hs1 as <-. simpl. auto.
Qed.

(** The steps of another session's goroutine on its way out. *)
Lemma Closing_exitWith_other setTask h sessionID h0 s0 stage m :
  h0 <> h -> Closing h sessionID m ->
  Closing h sessionID (exitWith setTask h0 s0 stage m).
Proof.
  intros Hne Hc. rewrite exitWith_shape. apply Closing_local; auto.
  - intros id' Hl. destruct stage; try exact Hl.
    apply lookup_delete_Some in Hl as [_ Hl]. exact Hl.
  - destruct stage; try reflexivity. simpl.
    destruct (Nat.eqb_spec h h0); [congruence | reflexivity].
  - intros E. contradiction.
Qed.

(** The steps of the watchdog of [h] itself. *)
Lemma Closing_exitWith_monitor h sessionID s stage m :
  WellFormed m -> Closing h sessionID m ->
  heap m !! h = Some s -> monitor s = Exiting stage ->
  Closing h sessionID (exitWith withMonitor h s stage m).
Proof.
  intros Hw (s0 & Hs0 & Hid & Hrd & Hmon) Hs Hstage.
  rewrite Hs in Hs0. injection Hs0 as <-. rewrite Hstage in Hmon.
  rewrite exitWith_shape. unfold Closing, exitsOf, registered.
  cbn [heap sent sessions]. rewrite list_lookup_alter_eq, Hs.
  assert (forall id', delete (ID s) (sessions m) !! id' <> Some h)
    as Hgone.
  { intros id' Hl. apply lookup_delete_Some in Hl as [Hne Hl].
    destruct (wf_registered m Hw id' h Hl) as (s1 & Hs1 & Hid1).
    congruence. }
  destruct stage; cbn [fmap option_fmap option_map nextTask compose];
    (eexists; split; [reflexivity|]); simpl.
  - rewrite Nat.eqb_refl. fold (exitsOf h m). rewrite Hmon, Hid. auto.
  - repeat (split; [assumption|]). intros [id' Hl]. apply (Hgone id' Hl).
  - destruct Hmon. auto.
  - destruct (Close_tasks s) as (Er & Em & Ei).
    rewrite Er, Ei. destruct Hmon as [Hout Hreg].
    repeat (split; [assumption|]). apply Close_closed.
Qed.

Lemma ptyFailed_alter (f : TermSession -> TermSession) h0 h m s reg' cnt'
    t' out' :
  heap m !! h = Some s ->
  (forall x, ptyFailed (f x) = false -> ptyFailed x = false) ->
  ptyFailedOf h (mkManager reg' cnt' (alter f h0 (heap m)) t' out')
  = Some false ->
  ptyFailed s = false.
Proof.
  intros Hs Hf. unfold ptyFailedOf. cbn [heap].
  rewrite list_lookup_alter. destruct (decide (h0 = h)) as [->|_];
    rewrite Hs; simpl; intros [= E]; auto.
Qed.

Lemma Closing_step (h : nat) (sessionID : string) (e : Event)
    (m m' : Manager) :
  WellFormed m -> Closing h sessionID m -> step e m = Some m' ->
  ptyFailedOf h m' = Some false ->
  Closing h sessionID m'.
Proof.
  intros Hw Hc. pose proof Hc as (s & Hs & Hid & Hrd & Hmon).
  destruct e; cbn [step].
  - intros [= <-] _. apply Closing_SpawnSession, Hc.
  - intros [= <-] _. unfold CloseSession.
    destruct (sessions m !! sessionID0) as [h0|]; [|exact Hc].
    apply (Closing_closeOne h sessionID m (sessionID0, h0) Hc).
  - intros [= <-] _. apply Closing_closeAll, Hc.
  - intros [= <-] _. apply Closing_Write, Hc.
  - intros [= <-] _. apply Closing_Write, Hc.
  - destruct (0 <=? d); [|discriminate]. intros [= <-] _.
    apply (Closing_frame h sessionID m); auto.
  - destruct (heap m !! h0) as [s0|] eqn:Hs0; [|discriminate].
    intros [= <-] _.
    apply Closing_local; [exact Hc | auto | reflexivity |].
    intros -> x Hx. rewrite Hs in Hx. injection Hx as <-.
    unfold failPty. destruct (terminalClosed s); simpl; auto.
  - destruct (heap m !! h0) as [s0|] eqn:Hs0; [|discriminate].
    destruct (reader s0), (readFails s0), data; try discriminate.
    intros [= <-] _.
    apply Closing_local; [exact Hc | auto | reflexivity |].
    intros -> x Hx. rewrite Hs in Hx. injection Hx as <-. simpl. auto.
  - destruct (heap m !! h0) as [s0|] eqn:Hs0; [|discriminate].
    destruct (reader s0) eqn:Hr0; try discriminate.
    destruct (stopChan s0) eqn:Hstop.
    { intros [= <-] _.
      apply Closing_local; [exact Hc | auto | reflexivity |].
      intros -> x Hx. rewrite Hs in Hx. injection Hx as <-. simpl.
      repeat split; auto; discriminate. }
    destruct (readFails s0) eqn:Hfail; [|discriminate].
    intros [= <-] Hpty.
    apply Closing_local; [exact Hc | auto | reflexivity |].
    intros -> x Hx. rewrite Hs in Hx. injection Hx as <-.
    rewrite Hs in Hs0. injection Hs0 as <-.
    assert (ptyFailed s = false) as Hok.
    { apply (ptyFailed_alter _ h h m s _ _ _ _ Hs) in Hpty; auto. }
    unfold readFails in Hfail. rewrite Hok, orb_false_r in Hfail.
    destruct (wf_flags m Hw h s Hs) as [Hflag _].
    assert (closed s = true) as Hcl by congruence.
    rewrite Hcl. simpl. repeat split; auto; discriminate.
  - destruct (heap m !! h0) as [s0|] eqn:Hs0; [|discriminate].
    destruct (reader s0) eqn:Hr0; try discriminate. intros [= <-] _.
    apply Closing_exitWith_other; [|exact Hc].
    intros ->. rewrite Hs in Hs0. injection Hs0 as <-.
    apply (Hrd stage Hr0).
  - destruct (heap m !! h0) as [s0|] eqn:Hs0; [|discriminate].
    destruct (monitor s0) eqn:Hm0; try discriminate.
    destruct (nextTick s0 <=? now m); [|discriminate]. intros [= <-] _.
    apply Closing_local; [exact Hc | auto | reflexivity |].
    intros -> x Hx. rewrite Hs in Hs0. injection Hs0 as <-.
    rewrite Hm0 in Hmon. contradiction.
  - destruct (heap m !! h0) as [s0|] eqn:Hs0; [|discriminate].
    destruct (monitor s0) eqn:Hm0; try discriminate.
    destruct (stopChan s0); [|discriminate]. intros [= <-] _.
    apply Closing_local; [exact Hc | auto | reflexivity |].
    intros -> x Hx. rewrite Hs in Hs0. injection Hs0 as <-.
    rewrite Hm0 in Hmon. contradiction.
  - destruct (heap m !! h0) as [s0|] eqn:Hs0; [|discriminate].
    destruct (monitor s0) eqn:Hm0; try discriminate. intros [= <-] _.
    destruct (decide (h0 = h)) as [->|Hne].
    + rewrite Hs in Hs0. injection Hs0 as <-.
      apply Closing_exitWith_monitor; assumption.
    + apply Closing_exitWith_other; assumption.
Qed.

Lemma WellFormed_run (trace : list Event) :
  forall m m', WellFormed m -> run m trace = Some m' -> WellFormed m'.
Proof.
  induction trace as [|e trace IH]; intros m m' Hw; simpl.
  - intros [= <-]. exact Hw.
  - destruct (step e m) as [m1|] eqn:He; [|discriminate].
    apply IH, (WellFormed_step e m m1 Hw He).
Qed.

Lemma gentle_Close : gentle Close.
Proof. intros x. unfold Close. destruct (closed x); auto. Qed.

Lemma gentle_failPty : gentle failPty.
Proof.
  intros x. unfold failPty.
  destruct (terminalClosed x); [auto | discriminate].
Qed.

Lemma gentle_compose f g : gentle f -> gentle g -> gentle (f ∘ g).
Proof. intros Hf Hg x H. apply Hg, Hf, H. Qed.

Lemma healthy_alter (f : TermSession -> TermSession) h0 h
    (hp : list TermSession) :
  gentle f -> ptyFailed <$> alter f h0 hp !! h = Some false ->
  ptyFailed <$> hp !! h = Some false.
Proof.
  intros Hf. rewrite list_lookup_alter.
  destruct (decide (h0 = h)) as [->|_]; [|auto].
  destruct (hp !! h) as [x|]; [|discriminate]. simpl.
  intros [= E]. f_equal. apply Hf, E.
Qed.

Lemma healthy_closeAll h (entries : list (string * nat)) :
  forall m, ptyFailedOf h (fold_left closeOne entries m) = Some false ->
            ptyFailedOf h m = Some false.
Proof.
  induction entries as [|entry entries IH]; intros m H; simpl in H;
    [exact H|].
  apply IH in H. unfold ptyFailedOf, closeOne in *. cbn [heap] in H.
  apply (healthy_alter Close _ _ _ gentle_Close H).
Qed.

(** A session whose pty has not failed after a step had not failed
    before it. *)
Lemma healthy_step (h : nat) (e : Event) (m m' : Manager) :
  step e m = Some m' -> is_Some (heap m !! h) ->
  ptyFailedOf h m' = Some false -> ptyFailedOf h m = Some false.
Proof.
  intros He [s Hs]. unfold ptyFailedOf.
  assert (forall f, gentle f -> forall h0,
            ptyFailed <$> alter f h0 (heap m) !! h = Some false ->
            ptyFailed <$> heap m !! h = Some false) as Halter
    by (intros f Hf h0; apply healthy_alter, Hf).
  destruct e; cbn [step] in He.
  - injection He as <-. unfold SpawnSession.
    destruct (maxSessions <=? sessionCount m); [auto|].
    destruct (sessions m !! sessionID); [auto|].
    destruct pty; auto. cbn [fst heap].
    rewrite (lookup_app_l_Some _ _ _ _ Hs), Hs. auto.
  - injection He as <-. unfold CloseSession.
    destruct (sessions m !! sessionID); [|auto].
    cbn [fst heap]. apply Halter, gentle_Close.
  - injection He as <-. apply healthy_closeAll.
  - injection He as <-. unfold Write.
    destruct (sessions m !! sessionID) as [h0|]; [|auto].
    destruct (heap m !! h0); [|auto]. destruct (closed t); [auto|].
    cbn [fst]. apply Halter. intros x. auto.
  - injection He as <-. unfold Resize, Write.
    destruct (sessions m !! sessionID) as [h0|]; [|auto].
    destruct (heap m !! h0); [|auto]. destruct (closed t); [auto|].
    cbn [fst]. apply Halter. intros x. auto.
  - destruct (0 <=? d); [|discriminate]. injection He as <-. auto.
  - destruct (heap m !! h0); [|discriminate]. injection He as <-.
    apply Halter, gentle_failPty.
  - destruct (heap m !! h0) as [s0|]; [|discriminate].
    destruct (reader s0), (readFails s0), data; try discriminate.
    injection He as <-. apply Halter. intros x. auto.
  - destruct (heap m !! h0) as [s0|]; [|discriminate].
    destruct (reader s0); try discriminate.
    destruct (stopChan s0);
      [injection He as <-; apply Halter; intros x; auto|].
    destruct (readFails s0); [|discriminate].
    injection He as <-. apply Halter. intros x. auto.
  - destruct (heap m !! h0) as [s0|]; [|discriminate].
    destruct (reader s0); try discriminate. injection He as <-.
    rewrite exitWith_shape. cbn [heap]. apply Halter.
    destruct stage; try (intros x; auto; fail).
    apply gentle_compose; [intros x; auto | apply gentle_Close].
  - destruct (heap m !! h0) as [s0|]; [|discriminate].
    destruct (monitor s0); try discriminate.
    destruct (nextTick s0 <=? now m); [|discriminate].
    injection He as <-. apply Halter. intros x. auto.
  - destruct (heap m !! h0) as [s0|]; [|discriminate].
    destruct (monitor s0); try discriminate.
    destruct (stopChan s0); [|discriminate].
    injection He as <-. apply Halter. intros x. auto.
  - destruct (heap m !! h0) as [s0|]; [|discriminate].
    destruct (monitor s0); try discriminate. injection He as <-.
    rewrite exitWith_shape. cbn [heap]. apply Halter.
    destruct stage; try (intros x; auto; fail).
    apply gentle_compose; [intros x; auto | apply gentle_Close].
Qed.

Lemma length_closeAll (entries : list (string * nat)) :
  forall m, List.length (heap (fold_left closeOne entries m))
            = List.length (heap m).
Proof.
  induction entries as [|entry entries IH]; intros m; simpl;
    [reflexivity|]. rewrite IH. simpl. apply length_alter.
Qed.

(** Session objects are never taken off the heap. *)
Lemma length_step (e : Event) (m m' : Manager) :
  step e m = Some m' ->
  (List.length (heap m) <= List.length (heap m'))%nat.
Proof.
  destruct e; cbn [step]; intros He;
    repeat match type of He with
           | (match ?x with _ => _ end) = Some _ =>
               destruct x eqn:?; try discriminate
           | (if ?x then _ else _) = Some _ =>
               destruct x eqn:?; try discriminate
           end;
    injection He as <-;
    rewrite ?exitWith_shape;
    unfold SpawnSession, CloseSession, Resize, Write, CloseAllSessions,
      onSession, withHeap;
    rewrite ?length_closeAll;
    repeat match goal with
           | |- context [match ?x with _ => _ end] => destruct x
           | |- context [if ?x then _ else _] => destruct x
           end;
    cbn [fst heap]; rewrite ?length_alter, ?length_app; simpl; lia.
Qed.

Lemma allocated_step (h : nat) (e : Event) (m m' : Manager) :
  step e m = Some m' -> is_Some (heap m !! h) -> is_Some (heap m' !! h).
Proof.
  intros He Hs. apply lookup_lt_is_Some. apply lookup_lt_is_Some in Hs.
  pose proof (length_step e m m' He). lia.
Qed.

Lemma healthy_run (h : nat) (trace : list Event) :
  forall m m', run m trace = Some m' -> is_Some (heap m !! h) ->
  ptyFailedOf h m' = Some false -> ptyFailedOf h m = Some false.
Proof.
  induction trace as [|e trace IH]; intros m m'; simpl.
  - intros [= <-] _ Hok. exact Hok.
  - destruct (step e m) as [m1|] eqn:He; [|discriminate].
    intros Hrun Hs Hok. apply (healthy_step h e m m1 He Hs).
    apply (IH m1 m' Hrun); [|exact Hok].
    apply (allocated_step h e m m1 He Hs).
Qed.

Lemma Closing_run (h : nat) (sessionID : string) (trace : list Event) :
  forall m m', WellFormed m -> Closing h sessionID m ->
  run m trace = Some m' -> ptyFailedOf h m' = Some false ->
  Closing h sessionID m'.
Proof.
  induction trace as [|e trace IH]; intros m m' Hw Hc; simpl.
  - intros [= <-] _. exact Hc.
  - destruct (step e m) as [m1|] eqn:He; [|discriminate].
    intros Hrun Hok.
    assert (is_Some (heap m !! h)) as Hs
      by (destruct Hc as (s & Hs & _); eauto).
    apply (IH m1 m'); [| |exact Hrun|exact Hok].
    + apply (WellFormed_step e m m1 Hw He).
    + apply (Closing_step h sessionID e m m1 Hw Hc He).
      apply (healthy_run h trace m1 m' Hrun); [|exact Hok].
      apply (allocated_step h e m m1 He Hs).
Qed.

Lemma exitsOf_none (h : nat) (m : Manager) (s : TermSession) :
  WellFormed m -> heap m !! h = Some s ->
  reader s = Running -> monitor s = Running -> exitsOf h m = [].
Proof.
  intros Hw Hs Hr Hm. unfold exitsOf.
  pose proof (wf_sent m Hw h) as Hsent.
  induction (sent m) as [|o out IH]; [reflexivity|].
  assert (forall id code, ExitFrame h id code ∈ out ->
            exists s', heap m !! h = Some s'
              /\ (reader s' <> Running \/ monitor s' <> Running)) as Hout
    by (intros id code Hin; apply (Hsent id code); right; exact Hin).
  simpl. destruct o as [h' id data|h' id code]; simpl.
  - apply IH, Hout.
  - destruct (Nat.eqb_spec h h') as [<-|Hne]; [|apply IH, Hout].
    destruct (Hsent id code) as (s' & Hs' & Ht); [left|].
    rewrite Hs in Hs'. injection Hs' as <-. tauto.
Qed.

Lemma Tick_closes (h : nat) (m : Manager) (s : TermSession) :
  heap m !! h = Some s -> closed s = false -> monitor s = Running ->
  nextTick s <= now m ->
  inactivityTimeout < now m - lastActivity s ->
  step (Tick h) m
  = Some (onSession h (fun s' => withMonitor (Exiting AtSendExit)
                                   (ticked s')) m).
Proof.
  intros Hs Hopen Hm Hdue Hidle. cbn [step]. rewrite Hs, Hm.
  destruct (Z.leb_spec (nextTick s) (now m)); [|lia].
  unfold inactive.
  rewrite Since_gt
    by (unfold inactivityTimeout, Second, MaxInt64; lia).
  destruct (Z.ltb_spec inactivityTimeout (now m - lastActivity s)); [|lia].
  rewrite Hopen. reflexivity.
Qed.

(** X13. A session that is open, whose goroutines are in their loops and
    that has seen no activity for more than 600 s is closed by its
    watchdog at the next tick of the 60 s ticker: the watchdog leaves its
    loop, its four statements can always be taken and, taken, end it;
    and however the other steps of the manager fall between them, as
    long as the pty has not failed on its own the reader never reaches
    its exit statements, at most one exit notification of the session
    is ever sent, and when the watchdog has returned the session is
    closed and in no entry of the registry and its exit notification has
    been sent exactly once. *)
Theorem inactivity_autoclose (start : Z) (before : list Event)
    (m : Manager) (h : nat) (s : TermSession) :
  run (NewSessionManager start) before = Some m ->
  heap m !! h = Some s ->
  closed s = false -> reader s = Running -> monitor s = Running ->
  nextTick s <= now m ->
  inactivityTimeout < now m - lastActivity s ->
  exists m1,
    step (Tick h) m = Some m1
    /\ monitorOf h m1 = Some (Exiting AtSendExit)
    /\ (exists m2,
          run m1 [MonitorStep h; MonitorStep h; MonitorStep h;
                  MonitorStep h] = Some m2
          /\ monitorOf h m2 = Some Finished)
    /\ forall after m2,
         run m1 after = Some m2 -> ptyFailedOf h m2 = Some false ->
         (forall stage, readerOf h m2 <> Some (Exiting stage))
         /\ (List.length (exitsOf h m2) <= 1)%nat
         /\ (monitorOf h m2 <> Some Finished ->
             is_Some (step (MonitorStep h) m2))
         /\ (monitorOf h m2 = Some Finished ->
             closedOf h m2 = Some true /\ ~ registered h m2
             /\ exitsOf h m2 = [ExitFrame h (ID s) 0]).
Proof.
  intros Hrun Hs Hopen Hr Hm Hdue Hidle.
  pose proof (WellFormed_run before _ _ (WellFormed_init start) Hrun)
    as Hw.
  pose proof (Tick_closes h m s Hs Hopen Hm Hdue Hidle) as Htick.
  eexists. split; [exact Htick|].
  pose proof (WellFormed_step _ _ _ Hw Htick) as Hw1.
  set (m1 := onSession h (fun s' => withMonitor (Exiting AtSendExit)
                                      (ticked s')) m) in *.
  assert (heap m1 !! h
          = Some (withMonitor (Exiting AtSendExit) (ticked s))) as Hs1.
  { unfold m1, onSession, withHeap. simpl.
    rewrite list_lookup_alter_eq, Hs. reflexivity. }
  split; [unfold monitorOf; rewrite Hs1; reflexivity|].
  split.
  { eexists. split; [apply (run_monitor h m1 _ Hs1); reflexivity|].
    unfold monitorOf, departed. cbn [heap].
    rewrite (insert_lookup_same h _ _ _ Hs1). reflexivity. }
  assert (Closing h (ID s) m1) as Hc.
  { eexists. split; [exact Hs1|]. simpl.
    split; [reflexivity|]. split; [rewrite Hr; discriminate|].
    apply (exitsOf_none h m s Hw Hs Hr Hm). }
  intros after m2 Hafter Hok.
  destruct (Closing_run h (ID s) after m1 m2 Hw1 Hc Hafter Hok)
    as (s2 & Hs2 & Hid & Hrd & Hmon).
  unfold readerOf, monitorOf, closedOf. rewrite Hs2. simpl.
  split; [intros stage [= E]; apply (Hrd stage E)|].
  split.
  { destruct (monitor s2) as [|[| | |]|]; try contradiction;
      try (rewrite Hmon; simpl; lia);
      destruct Hmon as [-> _]; simpl; lia. }
  split.
  { intros Hnf. cbn [step]. rewrite Hs2.
    destruct (monitor s2) as [|stage|]; [contradiction | eauto |].
    exfalso. apply Hnf. reflexivity. }
  intros [= Hfin]. rewrite Hfin in Hmon.
  destruct Hmon as (Hout & Hreg & Hcl). rewrite Hcl. auto.
Qed.

Lemma inactivity_autoclose_witness :
  exists m1,
    step (Tick 0) demo_idle_state = Some m1
    /\ monitorOf 0 m1 = Some (Exiting AtSendExit)
    /\ exists m2,
         run m1 [MonitorStep 0; MonitorStep 0; MonitorStep 0; MonitorStep 0]
         = Some m2
         /\ monitorOf 0 m2 = Some Finished.
Proof.
  destruct (inactivity_autoclose 0 demo_idle demo_idle_state 0 demo_session)
    as (m1 & Htick & Hmon & Hend & _).
  - vm_compute. reflexivity.
  - reflexivity.
  - reflexivity.
  - reflexivity.
  - reflexivity.
  - vm_compute. discriminate.
  - vm_compute. reflexivity.
  - exists m1. split; [exact Htick|]. split; [exact Hmon | exact Hend].
Defined.

Lemma SpawnSession_full sessionID cols rows username pty m :
  maxSessions <= sessionCount m ->
  SpawnSession sessionID cols rows username pty m
  = (m, Some ErrMaxSessions).
Proof.
  intros Hfull. unfold SpawnSession.
  destruct (Z.leb_spec maxSessions (sessionCount m)); [reflexivity | lia].
Qed.

Lemma SpawnSession_fresh sessionID cols rows username m :
  Consistent m -> live m < maxSessions ->
  sessions m !! sessionID = None ->
  snd (SpawnSession sessionID cols rows username PtyStarted m) = None
  /\ is_Some (sessions (fst (SpawnSession sessionID cols rows username
                               PtyStarted m)) !! sessionID)
  /\ live (fst (SpawnSession sessionID cols rows username PtyStarted m))
     = live m + 1.
Proof.
  intros Hc Hroom Hfresh. unfold SpawnSession.
  rewrite (cons_count m Hc).
  destruct (Z.leb_spec maxSessions (live m)); [lia|].
  rewrite Hfresh. cbn [fst snd sessions]. split; [reflexivity|].
  split; [rewrite lookup_insert_eq; eauto|].
  unfold live. simpl. rewrite map_size_insert_None by exact Hfresh. lia.
Qed.

Lemma CloseSession_registered sessionID m :
  is_Some (sessions m !! sessionID) ->
  snd (CloseSession sessionID m) = None
  /\ live (fst (CloseSession sessionID m)) = live m - 1.
Proof.
  intros [h Hreg]. unfold CloseSession. rewrite Hreg.
  cbn [fst snd]. split; [reflexivity|].
  pose proof (size_closeOne m sessionID h Hreg) as Hsize.
  unfold live. simpl in *. lia.
Qed.

(** X12. Whatever whole operations the manager has carried out, one after
    the other, at most 10 sessions are registered and the counter is their number; with 10
    registered every spawn returns MaxSessions and leaves the manager as
    it is; with fewer than 10 a spawn under an id that is not registered
    succeeds once its pty has started; and closing any registered session
    leaves one fewer, so that such a spawn succeeds after it. *)
Theorem SpawnSession_limit (start : Z) (ops : list Op) (m : Manager) :
  performAll (NewSessionManager start) ops = Some m ->
  live m <= maxSessions /\ SessionCount m = live m
  /\ (live m = maxSessions ->
      forall sessionID cols rows username pty,
        SpawnSession sessionID cols rows username pty m
        = (m, Some ErrMaxSessions))
  /\ (live m < maxSessions ->
      forall fresh cols rows username,
        sessions m !! fresh = None ->
        snd (SpawnSession fresh cols rows username PtyStarted m) = None
        /\ is_Some (sessions (fst (SpawnSession fresh cols rows username
                                     PtyStarted m)) !! fresh))
  /\ (forall sessionID,
        is_Some (sessions m !! sessionID) ->
        snd (CloseSession sessionID m) = None
        /\ live (fst (CloseSession sessionID m)) = live m - 1
        /\ forall fresh cols rows username,
             sessions (fst (CloseSession sessionID m)) !! fresh = None ->
             snd (SpawnSession fresh cols rows username PtyStarted
                    (fst (CloseSession sessionID m))) = None
             /\ is_Some
                  (sessions (fst (SpawnSession fresh cols rows username
                                    PtyStarted
                                    (fst (CloseSession sessionID m))))
                   !! fresh)).
Proof.
  intros Hrun.
  pose proof (Consistent_performAll ops _ _ (Consistent_init start) Hrun)
    as Hc.
  split; [apply (cons_bound m Hc)|].
  split; [apply (cons_count m Hc)|].
  split.
  { intros Hfull sessionID cols rows username pty.
    apply SpawnSession_full. rewrite (cons_count m Hc). lia. }
  split.
  { intros Hroom fresh cols rows username Hfresh.
    destruct (SpawnSession_fresh fresh cols rows username m Hc Hroom
                Hfresh) as (H1 & H2 & _). auto. }
  intros sessionID Hreg.
  destruct (CloseSession_registered sessionID m Hreg) as [Hok Hlive].
  split; [exact Hok|]. split; [exact Hlive|].
  intros fresh cols rows username Hfresh.
  pose proof (Consistent_CloseSession sessionID m Hc) as Hc1.
  destruct (SpawnSession_fresh fresh cols rows username _ Hc1) as
    (H1 & H2 & _); auto.
  pose proof (cons_bound m Hc). lia.
Qed.

Lemma SpawnSession_limit_witness :
  live demo_full = maxSessions
  /\ SpawnSession "s10" 80 24 "" PtyStarted demo_full
     = (demo_full, Some ErrMaxSessions)
  /\ snd (SpawnSession "s10" 80 24 "" PtyStarted
            (fst (CloseSession "s3" demo_full))) = None.
Proof.
  assert (performAll (NewSessionManager 0) demo_spawns = Some demo_full)
    as Hrun by (vm_compute; reflexivity).
  assert (live demo_full = maxSessions) as Hfull
    by (vm_compute; reflexivity).
  destruct (SpawnSession_limit 0 demo_spawns demo_full Hrun)
    as (_ & _ & Hmax & _ & Hclose).
  split; [exact Hfull|]. split; [apply Hmax, Hfull|].
  destruct (Hclose "s3"%string) as (_ & _ & Hspawn).
  - vm_compute. eauto.
  - apply Hspawn. vm_compute. reflexivity.
Defined.

(** C10. A reader that has read [closed = false] and is overtaken by
    [CloseSession] for its session still deletes and decrements: one
    session was spawned and is gone, no session is registered, and the
    counter is -1. *)
Theorem sessionCount_race :
  let after := run (NewSessionManager 0) demo_race in
  option_map live after = Some 0
  /\ option_map SessionCount after = Some (-1)
  /\ option_map (exitsOf 0) after = Some [ExitFrame 0 "s1" 0].
Proof. repeat split; vm_compute; reflexivity. Qed.

(** C2. With the counter at -1 after that overlap, eleven spawns under
    eleven ids all succeed: eleven sessions are registered and open, one
    more than [maxSessions], and only the twelfth spawn is refused. *)
Theorem SpawnSession_eleven :
  let after := run (NewSessionManager 0) (demo_race ++ demo_eleven) in
  option_map live after = Some (maxSessions + 1)
  /\ option_map (fun m => forallb (isLive m) (demo_ids ++ ["s10"%string]))
       after = Some true
  /\ option_map SessionCount after = Some maxSessions
  /\ option_map (fun m => snd (SpawnSession "s11" 80 24 "" PtyStarted m))
       after = Some (Some ErrMaxSessions).
Proof. repeat split; vm_compute; reflexivity. Qed.

(** C6. A session idle for more than 600 s whose child exits after the
    watchdog has read [closed = false] at its tick and before the
    watchdog closes it: the reader reads [closed = false] as well, both
    run to their return, both send the exit notification, and the
    counter is decremented twice. *)
Theorem inactivity_double_exit :
  let after := run (NewSessionManager 0) demo_overlap in
  option_map (monitorOf 0) after = Some (Some Finished)
  /\ option_map (readerOf 0) after = Some (Some Finished)
  /\ option_map (exitsOf 0) after
     = Some [ExitFrame 0 "s1" 0; ExitFrame 0 "s1" 0]
  /\ option_map live after = Some 0
  /\ option_map SessionCount after = Some (-1).
Proof. repeat split; vm_compute; reflexivity. Qed.

End SessionSpec.

(** ** Base64: decoding what was encoded *)

Module Base64Round.
Import Base64 Base64Facts.

Lemma testbit_small (a k n : N) :
  (a < 2 ^ k)%N -> (k <= n)%N -> N.testbit a n = false.
Proof.
  intros Ha Hn. destruct (N.eq_dec a 0%N) as [->|Hne]; [apply N.bits_0|].
  apply N.bits_above_log2.
  apply N.lt_le_trans with k; [|exact Hn].
  apply N.log2_lt_pow2; [lia | exact Ha].
Qed.

Lemma byte_bits (b : byte) (n : N) :
  (8 <= n)%N -> N.testbit (Byte.to_N b) n = false.
Proof.
  apply testbit_small. pose proof (Byte.to_N_bounded b). simpl. lia.
Qed.

Lemma chunk_bit (v k n : N) :
  N.testbit (N.shiftl (N.land (N.shiftr v k) 63) k) n
  = N.testbit v n && (k <=? n)%N && (n <? k + 6)%N.
Proof.
  destruct (N.leb_spec k n) as [Hkn|Hkn].
  - rewrite N.shiftl_spec_high' by exact Hkn.
    rewrite N.land_spec, N.shiftr_spec'.
    replace (n - k + k)%N with n by lia.
    change 63%N with (N.ones 6).
    destruct (N.ltb_spec n (k + 6)).
    + rewrite N.ones_spec_low by lia. rewrite !andb_true_r. reflexivity.
    + rewrite N.ones_spec_high by lia. rewrite !andb_false_r. reflexivity.
  - rewrite N.shiftl_spec_low by exact Hkn.
    rewrite andb_false_r. reflexivity.
Qed.

Lemma low_bits (v n : N) :
  N.testbit (N.land v 63) n = N.testbit v n && (n <? 6)%N.
Proof.
  rewrite N.land_spec. change 63%N with (N.ones 6).
  destruct (N.ltb_spec n 6).
  - rewrite N.ones_spec_low by lia. reflexivity.
  - rewrite N.ones_spec_high by lia. reflexivity.
Qed.

Lemma group3_bits (b0 b1 b2 : byte) (n : N) :
  N.testbit (group3 b0 b1 b2) n
  = if (n <? 8)%N then N.testbit (Byte.to_N b2) n
    else if (n <? 16)%N then N.testbit (Byte.to_N b1) (n - 8)
    else N.testbit (Byte.to_N b0) (n - 16).
Proof.
  unfold group3. rewrite !N.lor_spec.
  destruct (N.ltb_spec n 8); [|destruct (N.ltb_spec n 16)].
  - rewrite !N.shiftl_spec_low by lia. reflexivity.
  - rewrite N.shiftl_spec_low by lia.
    rewrite N.shiftl_spec_high' by lia.
    rewrite (byte_bits b2) by lia. rewrite orb_false_r. reflexivity.
  - rewrite !N.shiftl_spec_high' by lia.
    rewrite (byte_bits b1) by lia. rewrite (byte_bits b2) by lia.
    rewrite !orb_false_r. reflexivity.
Qed.

Ltac cases_on_n :=
  repeat match goal with
         | |- context [(?a <=? ?b)%N] => destruct (N.leb_spec a b)
         | |- context [(?a <? ?b)%N] => destruct (N.ltb_spec a b)
         end.

(** The digits of a group put together again. *)
Lemma recombine (v : N) (keep : N) :
  (forall n, (24 <= n)%N -> N.testbit v n = false) ->
  (forall n, (n < keep)%N -> N.testbit v n = false) ->
  (keep = 0 \/ keep = 6 \/ keep = 12)%N ->
  N.lor (N.lor (N.lor (N.shiftl (N.land (N.shiftr v 18) 63) 18)
                      (N.shiftl (N.land (N.shiftr v 12) 63) 12))
               (if (keep <=? 6)%N
                then N.shiftl (N.land (N.shiftr v 6) 63) 6 else 0%N))
        (if (keep <=? 0)%N then N.land v 63 else 0%N)
  = v.
Proof.
  intros Hhigh Hlow Hkeep.
  destruct Hkeep as [-> | [-> | ->]]; cbn [N.leb N.compare Pos.compare Pos.compare_cont];
    apply N.bits_inj; intros n;
    rewrite !N.lor_spec, ?chunk_bit, ?low_bits, ?N.bits_0;
    (destruct (N.leb_spec 24 n) as [H24|H24];
     [rewrite (Hhigh n H24); reflexivity|]).
  - cases_on_n; try lia; destruct (N.testbit v n); reflexivity.
  - destruct (N.ltb_spec n 6) as [H6|H6].
    + rewrite (Hlow n H6). reflexivity.
    + cases_on_n; try lia; destruct (N.testbit v n); reflexivity.
  - destruct (N.ltb_spec n 12) as [H6|H6].
    + rewrite (Hlow n H6). reflexivity.
    + cases_on_n; try lia; destruct (N.testbit v n); reflexivity.
Qed.

Lemma recombine4 (v : N) :
  (forall n, (24 <= n)%N -> N.testbit v n = false) ->
  N.lor (N.lor (N.lor (N.shiftl (N.land (N.shiftr v 18) 63) 18)
                      (N.shiftl (N.land (N.shiftr v 12) 63) 12))
               (N.shiftl (N.land (N.shiftr v 6) 63) 6))
        (N.land v 63)
  = v.
Proof.
  intros Hhigh. refine (recombine v 0 Hhigh _ (or_introl eq_refl)).
  intros n Hn. lia.
Qed.

Lemma recombine3 (v : N) :
  (forall n, (24 <= n)%N -> N.testbit v n = false) ->
  (forall n, (n < 6)%N -> N.testbit v n = false) ->
  N.lor (N.lor (N.lor (N.shiftl (N.land (N.shiftr v 18) 63) 18)
                      (N.shiftl (N.land (N.shiftr v 12) 63) 12))
               (N.shiftl (N.land (N.shiftr v 6) 63) 6))
        0
  = v.
Proof.
  intros Hhigh Hlow.
  exact (recombine v 6 Hhigh Hlow (or_intror (or_introl eq_refl))).
Qed.

Lemma recombine2 (v : N) :
  (forall n, (24 <= n)%N -> N.testbit v n = false) ->
  (forall n, (n < 12)%N -> N.testbit v n = false) ->
  N.lor (N.lor (N.lor (N.shiftl (N.land (N.shiftr v 18) 63) 18)
                      (N.shiftl (N.land (N.shiftr v 12) 63) 12))
               (N.shiftl 0 6))
        0
  = v.
Proof.
  intros Hhigh Hlow.
  exact (recombine v 12 Hhigh Hlow (or_intror (or_intror eq_refl))).
Qed.

Lemma land63_lt (v : N) : (N.land v 63 < 64)%N.
Proof.
  change 63%N with (N.ones 6). rewrite N.land_ones.
  apply N.mod_lt. discriminate.
Qed.

Lemma digit_index (v : N) : decodeMap (digit v) = Some (N.land v 63).
Proof.
  assert (forallb (fun k => match decodeMap (digit k) with
                            | Some d => N.eqb d k
                            | None => false
                            end) (map N.of_nat (seq 0 64)) = true) as Hall
    by (vm_compute; reflexivity).
  rewrite forallb_forall in Hall.
  assert (digit v = digit (N.land v 63)) as ->.
  { unfold digit. rewrite <- N.land_assoc, N.land_diag. reflexivity. }
  pose proof (land63_lt v) as Hlt.
  specialize (Hall (N.land v 63)).
  destruct (decodeMap (digit (N.land v 63))) as [d|].
  - f_equal. apply N.eqb_eq, Hall. apply in_map_iff.
    exists (N.to_nat (N.land v 63)).
    split; [apply N2Nat.id | apply in_seq; lia].
  - discriminate Hall. apply in_map_iff.
    exists (N.to_nat (N.land v 63)).
    split; [apply N2Nat.id | apply in_seq; lia].
Qed.

Lemma byteOf_to_N (b : byte) (n : N) :
  N.land n 255 = Byte.to_N b -> byteOf n = b.
Proof. intros H. unfold byteOf. rewrite H, Byte.of_to_N. reflexivity. Qed.

Lemma low8_bits (v n : N) :
  N.testbit (N.land v 255) n = N.testbit v n && (n <? 8)%N.
Proof.
  rewrite N.land_spec. change 255%N with (N.ones 8).
  destruct (N.ltb_spec n 8).
  - rewrite N.ones_spec_low by lia. reflexivity.
  - rewrite N.ones_spec_high by lia. reflexivity.
Qed.

Lemma group3_bytes (b0 b1 b2 : byte) :
  byteOf (N.shiftr (group3 b0 b1 b2) 16) = b0
  /\ byteOf (N.shiftr (group3 b0 b1 b2) 8) = b1
  /\ byteOf (group3 b0 b1 b2) = b2.
Proof.
  repeat split; apply byteOf_to_N; apply N.bits_inj; intros n;
    rewrite low8_bits, ?N.shiftr_spec', group3_bits;
    (destruct (N.ltb_spec n 8) as [H8|H8];
     [rewrite andb_true_r | rewrite andb_false_r, byte_bits by lia;
                            reflexivity]);
    cases_on_n; try lia; try reflexivity; f_equal; lia.
Qed.

Lemma group3_high (b0 b1 b2 : byte) (n : N) :
  (24 <= n)%N -> N.testbit (group3 b0 b1 b2) n = false.
Proof.
  intros Hn. rewrite group3_bits.
  destruct (N.ltb_spec n 8); [lia|]. destruct (N.ltb_spec n 16); [lia|].
  apply byte_bits. lia.
Qed.

Lemma group3_low (b0 b1 : byte) (n : N) :
  (n < 8)%N -> N.testbit (group3 b0 b1 x00) n = false.
Proof.
  intros Hn. rewrite group3_bits.
  destruct (N.ltb_spec n 8); [|lia]. apply N.bits_0.
Qed.

Lemma group3_low16 (b0 : byte) (n : N) :
  (n < 16)%N -> N.testbit (group3 b0 x00 x00) n = false.
Proof.
  intros Hn. rewrite group3_bits.
  destruct (N.ltb_spec n 8); [apply N.bits_0|].
  destruct (N.ltb_spec n 16); [|lia]. apply N.bits_0.
Qed.

Lemma quantum4 (b0 b1 b2 : byte) :
  quantumBytes (sextets (group3 b0 b1 b2) 4) = [b0; b1; b2].
Proof.
  unfold quantumBytes, sextets.
  cbn [firstn nth List.length Nat.pred].
  rewrite (recombine4 (group3 b0 b1 b2)) by (apply group3_high).
  destruct (group3_bytes b0 b1 b2) as (-> & -> & ->). reflexivity.
Qed.

Lemma quantum3 (b0 b1 : byte) :
  quantumBytes (sextets (group3 b0 b1 x00) 3) = [b0; b1].
Proof.
  unfold quantumBytes, sextets.
  cbn [firstn nth List.length Nat.pred].
  rewrite (recombine3 (group3 b0 b1 x00))
    by (try apply group3_high; intros n Hn; apply group3_low; lia).
  destruct (group3_bytes b0 b1 x00) as (-> & -> & _). reflexivity.
Qed.

Lemma quantum2 (b0 : byte) :
  quantumBytes (sextets (group3 b0 x00 x00) 2) = [b0].
Proof.
  unfold quantumBytes, sextets.
  cbn [firstn nth List.length Nat.pred].
  rewrite (recombine2 (group3 b0 x00 x00))
    by (try apply group3_high; intros n Hn; apply group3_low16; lia).
  destruct (group3_bytes b0 x00 x00) as (-> & _ & _). reflexivity.
Qed.

Lemma decode_digit (dbuf : list N) (v : N) (rest : string) :
  decodeFrom dbuf (String (digit v) rest)
  = if Nat.eqb (List.length dbuf) 3 then
      match decodeFrom [] rest with
      | Some out => Some (quantumBytes (dbuf ++ [N.land v 63]) ++ out)
      | None => None
      end
    else decodeFrom (dbuf ++ [N.land v 63]) rest.
Proof. cbn [decodeFrom]. rewrite digit_index. reflexivity. Qed.

Lemma decode_pad2 (d0 d1 : N) :
  decodeFrom [d0; d1] "==" = Some (quantumBytes [d0; d1]).
Proof. reflexivity. Qed.

Lemma decode_pad3 (d0 d1 d2 : N) :
  decodeFrom [d0; d1; d2] "=" = Some (quantumBytes [d0; d1; d2]).
Proof. reflexivity. Qed.

Lemma decode_group (v : N) (rest : string) :
  decodeFrom []
    (String (digit (N.shiftr v 18))
       (String (digit (N.shiftr v 12))
          (String (digit (N.shiftr v 6)) (String (digit v) rest))))
  = match decodeFrom [] rest with
    | Some out => Some (quantumBytes (sextets v 4) ++ out)
    | None => None
    end.
Proof.
  rewrite decode_digit. cbn [List.length Nat.eqb app].
  rewrite decode_digit. cbn [List.length Nat.eqb app].
  rewrite decode_digit. cbn [List.length Nat.eqb app].
  rewrite decode_digit. cbn [List.length Nat.eqb app]. reflexivity.
Qed.

Lemma DecodeString_EncodeToString (src : list byte) :
  DecodeString (EncodeToString src) = Some src.
Proof.
  unfold DecodeString.
  induction src as [|a|a b|a b c l IH] using list_ind3.
  - reflexivity.
  - cbn [EncodeToString].
    rewrite decode_digit. cbn [List.length Nat.eqb app].
    rewrite decode_digit. cbn [List.length Nat.eqb app].
    rewrite decode_pad2. f_equal. apply (quantum2 a).
  - cbn [EncodeToString].
    rewrite decode_digit. cbn [List.length Nat.eqb app].
    rewrite decode_digit. cbn [List.length Nat.eqb app].
    rewrite decode_digit. cbn [List.length Nat.eqb app].
    rewrite decode_pad3. f_equal. apply (quantum3 a b).
  - cbn [EncodeToString]. rewrite decode_group, IH.
    rewrite (quantum4 a b c). reflexivity.
Qed.

Lemma skip_keeps (c : ascii) (s : string) :
  isNewline c = false -> In c (list_ascii_of_string s) ->
  In c (list_ascii_of_string (skipNewlines s)).
Proof.
  intros Hc. induction s as [|a s IH]; [auto|].
  cbn [skipNewlines]. destruct (isNewline a) eqn:Ea; [|auto].
  intros [->|Hin]; [congruence | auto].
Qed.

(** A byte that is no digit, no line break and no padding makes the
    whole input corrupt, wherever it stands. *)
Lemma decodeFrom_rejects (c : ascii) (s : string) :
  legal c = false -> In c (list_ascii_of_string s) ->
  forall dbuf, decodeFrom dbuf s = None.
Proof.
  unfold legal. intros Hc.
  destruct (decodeMap c) eqn:Ec; [discriminate|].
  apply orb_false_elim in Hc as [Hnl Hpad].
  induction s as [|a s IH]; [intros []|].
  intros [->|Hin] dbuf; cbn [decodeFrom].
  - rewrite Ec, Hnl, Hpad. reflexivity.
  - destruct (decodeMap a).
    + destruct (Nat.eqb _ 3); [rewrite IH by exact Hin; reflexivity|].
      apply IH, Hin.
    + destruct (isNewline a); [apply IH, Hin|].
      destruct (Ascii.eqb a "="); [|reflexivity].
      pose proof (skip_keeps c s Hnl Hin) as Hs.
      destruct (List.length dbuf) as [|[|[|[|n]]]]; try reflexivity.
      * destruct (skipNewlines s) as [|c' rest'] eqn:Es; [reflexivity|].
        destruct (Ascii.eqb c' "=") eqn:Ec'; [|reflexivity].
        destruct Hs as [->|Hs]; [congruence|].
        apply (skip_keeps c _ Hnl) in Hs.
        destruct (skipNewlines rest'); [destruct Hs | reflexivity].
      * destruct (skipNewlines s); [destruct Hs | reflexivity].
Qed.

Lemma digit_ascii (v : N) : (N_of_ascii (digit v) <? 128)%N = true.
Proof.
  assert (forallb (fun k => (N_of_ascii (digit k) <? 128)%N)
            (map N.of_nat (seq 0 64)) = true) as Hall
    by (vm_compute; reflexivity).
  rewrite forallb_forall in Hall.
  assert (digit v = digit (N.land v 63)) as ->.
  { unfold digit. rewrite <- N.land_assoc, N.land_diag. reflexivity. }
  pose proof (land63_lt v) as Hlt.
  apply Hall. apply in_map_iff.
  exists (N.to_nat (N.land v 63)).
  split; [apply N2Nat.id | apply in_seq; lia].
Qed.

(** What is encoded is plain ASCII. *)
Lemma EncodeToString_ascii (src : list byte) :
  Codec.isASCII (EncodeToString src) = true.
Proof.
  unfold Codec.isASCII.
  induction src as [|a|a b|a b c l IH] using list_ind3;
    cbn [EncodeToString list_ascii_of_string forallb];
    rewrite ?digit_ascii; try reflexivity.
  exact IH.
Qed.

End Base64Round.

(** ** The reconnect loop, whatever it meets *)

Module AgentFacts.
Import GoInt Time Agent GoIntFacts.

Lemma nextDelay_bounds (d : Duration) :
  minReconnectDelay <= d <= maxReconnectDelay ->
  minReconnectDelay <= nextDelay d <= maxReconnectDelay.
Proof.
  unfold nextDelay, Double, minReconnectDelay, maxReconnectDelay, Second.
  intros Hd.
  rewrite wrap64_small by (unfold MinInt64, MaxInt64; lia).
  destruct (Z.ltb_spec (60 * 1000000000) (d * 2)); lia.
Qed.

Lemma RunLoop_sleeps (reconnect : bool) (turns : list Turn) :
  forall d, minReconnectDelay <= d <= maxReconnectDelay ->
  Forall (fun s => minReconnectDelay <= s <= maxReconnectDelay)
    (sleeps (fst (RunLoop reconnect d turns))).
Proof.
  induction turns as [|t turns IH]; intros d Hd; [constructor|].
  cbn [RunLoop]. destruct (turn_stopped t); [constructor|].
  destruct (turn_connect t) as [err|], reconnect; cbn [negb];
    try constructor.
  - destruct (RunLoop true (nextDelay d) turns) as [acts st] eqn:E.
    cbn [fst sleeps]. constructor; [exact Hd|].
    specialize (IH (nextDelay d) (nextDelay_bounds d Hd)).
    rewrite E in IH. exact IH.
  - destruct (RunLoop true minReconnectDelay turns) as [acts st] eqn:E.
    cbn [fst sleeps].
    assert (minReconnectDelay <= minReconnectDelay <= maxReconnectDelay)
      as Hmin by (unfold minReconnectDelay, maxReconnectDelay, Second; lia).
    constructor; [exact Hmin|].
    specialize (IH minReconnectDelay Hmin). rewrite E in IH. exact IH.
Qed.

(** The head of what the loop does next is a [Connect], if anything. *)
Lemma RunLoop_head (reconnect : bool) (d : Duration) (turns : list Turn) :
  fst (RunLoop reconnect d turns) = []
  \/ exists rest, fst (RunLoop reconnect d turns) = Connect :: rest.
Proof.
  destruct turns as [|t turns]; [left; reflexivity|].
  cbn [RunLoop]. destruct (turn_stopped t); [left; reflexivity|].
  right. destruct (turn_connect t) as [err|], reconnect; cbn [negb];
    try (eexists; reflexivity).
  - destruct (RunLoop true (nextDelay d) turns). eexists. reflexivity.
  - destruct (RunLoop true minReconnectDelay turns). eexists. reflexivity.
Qed.

Lemma paced_Sleep (d : Duration) (acts : list Action) :
  paced acts = true -> paced (Sleep d :: acts) = true.
Proof. intros H. destruct acts as [|[| | | |] acts]; exact H. Qed.

Lemma RunLoop_paced (reconnect : bool) (turns : list Turn) :
  forall d, paced (fst (RunLoop reconnect d turns)) = true.
Proof.
  induction turns as [|t turns IH]; intros d; [reflexivity|].
  cbn [RunLoop]. destruct (turn_stopped t); [reflexivity|].
  destruct (turn_connect t) as [err|], reconnect; cbn [negb];
    try reflexivity.
  - specialize (IH (nextDelay d)).
    destruct (RunLoop true (nextDelay d) turns) as [acts st].
    cbn [fst] in *. change (paced (Sleep d :: acts) = true).
    apply paced_Sleep, IH.
  - specialize (IH minReconnectDelay).
    destruct (RunLoop true minReconnectDelay turns) as [acts st].
    cbn [fst] in *.
    change (paced (Sleep minReconnectDelay :: acts) = true).
    apply paced_Sleep, IH.
Qed.

Lemma RunLoop_returns (turns : list Turn) :
  forall d err,
    snd (RunLoop true d turns) = Returned err ->
    err = None /\ Exists (fun t => turn_stopped t = true) turns.
Proof.
  induction turns as [|t turns IH]; intros d err; [discriminate|].
  cbn [RunLoop]. destruct (turn_stopped t) eqn:Hstop.
  { intros [= <-]. split; [reflexivity|]. left. exact Hstop. }
  destruct (turn_connect t) as [e|]; cbn [negb].
  - specialize (IH (nextDelay d) err).
    destruct (RunLoop true (nextDelay d) turns) as [acts st].
    intros H. destruct (IH H) as [Hnone Hex]. split; [exact Hnone|].
    right. exact Hex.
  - specialize (IH minReconnectDelay err).
    destruct (RunLoop true minReconnectDelay turns) as [acts st].
    intros H. destruct (IH H) as [Hnone Hex]. split; [exact Hnone|].
    right. exact Hex.
Qed.

Lemma RunLoop_stopped (turns : list Turn) :
  Exists (fun t => turn_stopped t = true) turns ->
  forall d, snd (RunLoop true d turns) = Returned None.
Proof.
  induction turns as [|t turns IH]; intros Hex d;
    [inversion Hex|].
  cbn [RunLoop]. destruct (turn_stopped t) eqn:Hstop; [reflexivity|].
  assert (Exists (fun t => turn_stopped t = true) turns) as Hrest.
  { inversion Hex as [? ? Hhere | ? ? Hlater]; subst;
      [congruence | exact Hlater]. }
  destruct (turn_connect t) as [e|]; cbn [negb].
  - specialize (IH Hrest (nextDelay d)).
    destruct (RunLoop true (nextDelay d) turns) as [acts st]. exact IH.
  - specialize (IH Hrest minReconnectDelay).
    destruct (RunLoop true minReconnectDelay turns) as [acts st].
    exact IH.
Qed.

(** X1. Whatever the agent meets while it runs, every delay it sleeps is
    between 5 s and 60 s, and every connection attempt but the first comes
    right after such a sleep.  With reconnection enabled [Run] returns
    when a turn of its loop finds the agent stopped, then without an
    error, and only then: if it has returned, one of its turns has found
    the agent stopped, and no failure of a dial or of the main loop
    makes it return. *)
Theorem Run_paced (reconnect : bool) (turns : list Turn) :
  Forall (fun s => 5 * Second <= s <= 60 * Second)
    (sleeps (fst (Run reconnect turns)))
  /\ paced (fst (Run reconnect turns)) = true
  /\ (Exists (fun t => turn_stopped t = true) turns ->
      snd (Run true turns) = Returned None)
  /\ forall err,
       snd (Run true turns) = Returned err ->
       err = None /\ Exists (fun t => turn_stopped t = true) turns.
Proof.
  split; [|split; [|split]].
  - apply RunLoop_sleeps.
    unfold minReconnectDelay, maxReconnectDelay, Second. lia.
  - apply RunLoop_paced.
  - intros Hex. apply RunLoop_stopped, Hex.
  - apply RunLoop_returns.
Qed.

End AgentFacts.

(** ** The executor under any schedule *)

Module ExecutorFacts.
Import GoInt Time Os Executor GoIntFacts Base64Facts.

Section Pool.
Variable lk : string -> option User.
Variable lp : string -> string * option string.

Lemma executeCommand_reply_cases_more j r sem :
  snd (executeCommand j r sem)
  = match run_err r, run_ctxErr r with
    | Some _, Some DeadlineExceeded =>
        sendError (job_token j) CmdErrSysErr "command timeout"
    | Some (OtherError text), _ =>
        sendError (job_token j) CmdErrSysErr text
    | Some (ExitError code), _ =>
        if tooBigB r
        then sendError (job_token j) CmdErrRespTooBig
               "stdout+stderr is too big"
        else sendResult (mkCmdResult (job_token j) code
               (Base64.EncodeToString (run_stdout r))
               (Base64.EncodeToString (run_stderr r)))
    | None, _ =>
        if tooBigB r
        then sendError (job_token j) CmdErrRespTooBig
               "stdout+stderr is too big"
        else sendResult (mkCmdResult (job_token j) 0
               (Base64.EncodeToString (run_stdout r))
               (Base64.EncodeToString (run_stderr r)))
    end.
Proof. apply ExecutorSpec.executeCommand_reply_cases. Qed.

Lemma Execute_cases cmd sem :
  (exists reply, Execute lk lp cmd sem = (sem, Rejected reply))
  \/ (exists j, Execute lk lp cmd sem = (sem + 1, Spawned j)
                /\ sem < cmdRunningLimit).
Proof.
  unfold Execute, trySend.
  destruct (if String.eqb _ _ then _ else _); [|left; eauto].
  destruct (lp _) as [p e].
  destruct (_ || _); [left; eauto|].
  destruct (Z.ltb_spec sem cmdRunningLimit); [right | left]; eauto.
Qed.

Lemma executeCommand_release j r sem :
  fst (executeCommand j r sem) = receive sem.
Proof.
  unfold executeCommand.
  destruct (run_err r) as [[code|text]|], (run_ctxErr r) as [[|]|];
    reflexivity.
Qed.

Lemma balanced_step n e p p' :
  balanced n p -> poolStep lk lp e p = Some p' ->
  balanced (match e with Request _ => S n | Returns _ _ => n end) p'.
Proof.
  intros (Hs & Hb & Hn) Hstep. destruct e as [cmd|i r]; simpl in Hstep.
  - destruct (Execute_cases cmd (pool_slots p)) as [[reply E]|(j & E & Hlt)];
      rewrite E in Hstep; apply (inj Some) in Hstep; subst p';
      unfold balanced; simpl.
    + auto with lia.
    + rewrite length_app. simpl. lia.
  - destruct (pool_running p !! i) as [j|] eqn:Hi; [|discriminate].
    pose proof (executeCommand_release j r (pool_slots p)) as Hrel.
    destruct (executeCommand j r (pool_slots p)) as [[sem|] reply];
      [|discriminate].
    apply (inj Some) in Hstep. subst p'. simpl in Hrel.
    unfold receive in Hrel.
    destruct (Z.ltb_spec 0 (pool_slots p)); [|discriminate].
    apply (inj Some) in Hrel. subst sem.
    pose proof (lookup_lt_Some _ _ _ Hi) as Hlt.
    unfold balanced. simpl. rewrite length_delete by eauto. lia.
Qed.

Lemma balanced_run events : forall n p p',
  balanced n p -> poolRun lk lp p events = Some p' ->
  balanced (requests events + n) p'.
Proof.
  induction events as [|e events IH]; intros n p p' Hb Hrun.
  - simpl in *. apply (inj Some) in Hrun. subst. exact Hb.
  - simpl in Hrun.
    destruct (poolStep lk lp e p) as [p1|] eqn:Hstep; [|discriminate].
    pose proof (balanced_step n e p p1 Hb Hstep) as Hb1.
    specialize (IH _ p1 p' Hb1 Hrun).
    destruct e; simpl in *; [|exact IH].
    replace (S (requests events + n)) with (requests events + S n)%nat
      by lia. exact IH.
Qed.

(** X3. Whatever requests arrive and in whatever order the running
    commands return, the slots taken of the pool are the commands
    running, never more than 5; every request so far has been answered
    exactly once or is still running; and a command that returns always
    gets to give its slot back and to answer. *)
Theorem Pool_accounting (events : list PoolEvent) (p : Pool) :
  poolRun lk lp emptyPool events = Some p ->
  pool_slots p = Z.of_nat (List.length (pool_running p))
  /\ 0 <= pool_slots p <= cmdRunningLimit
  /\ (List.length (pool_replies p) + List.length (pool_running p)
      = requests events)%nat
  /\ forall i j r, pool_running p !! i = Some j ->
       exists p', poolStep lk lp (Returns i r) p = Some p'
                  /\ pool_replies p'
                     = snd (executeCommand j r (pool_slots p))
                       :: pool_replies p
                  /\ pool_slots p' = pool_slots p - 1.
Proof.
  intros Hrun.
  assert (balanced 0 emptyPool) as Hb0
    by (unfold balanced, emptyPool, cmdRunningLimit; simpl; lia).
  pose proof (balanced_run events _ _ _ Hb0 Hrun) as (Hs & Hb & Hn).
  rewrite Nat.add_0_r in Hn.
  split; [exact Hs|]. split; [exact Hb|]. split; [exact Hn|].
  intros i j r Hi. simpl. rewrite Hi.
  pose proof (executeCommand_release j r (pool_slots p)) as Hrel.
  pose proof (lookup_lt_Some _ _ _ Hi) as Hlt.
  destruct (executeCommand j r (pool_slots p)) as [sem reply].
  simpl in Hrel. subst sem. unfold receive.
  destruct (Z.ltb_spec 0 (pool_slots p)); [|lia].
  eexists. split; [reflexivity|]. split; reflexivity.
Qed.
End Pool.

Lemma Pool_accounting_witness :
  exists p,
    poolRun demo_Lookup demo_LookPath emptyPool
      [ Request (mkExecCmd "a" "" "ls" [] 0);
        Request (mkExecCmd "b" "" "nope" [] 0);
        Request (mkExecCmd "c" "alice" "ls" ["-l"] 5);
        Returns 0 (mkRun None None [] []) ] = Some p
    /\ pool_slots p = 1
    /\ List.length (pool_replies p) = 2%nat.
Proof.
  eexists. split; [reflexivity|].
  destruct (Pool_accounting demo_Lookup demo_LookPath
              [ Request (mkExecCmd "a" "" "ls" [] 0);
                Request (mkExecCmd "b" "" "nope" [] 0);
                Request (mkExecCmd "c" "alice" "ls" ["-l"] 5);
                Returns 0 (mkRun None None [] []) ] _ eq_refl)
    as (Hs & _ & Hn & _).
  split; [exact Hs | reflexivity].
Defined.

Lemma EncodedLen_bounds (n : Z) :
  0 <= n -> 4 * n <= 3 * Base64.EncodedLen n <= 4 * n + 8.
Proof.
  intros Hn. unfold Base64.EncodedLen.
  pose proof (Z.div_mod (n + 2) 3 ltac:(lia)) as Hd.
  pose proof (Z.mod_pos_bound (n + 2) 3 ltac:(lia)) as Hm. lia.
Qed.

Lemma encodedSize_bounds (r : RunResult) :
  4 * outputSize r <= 3 * encodedSize r <= 4 * outputSize r + 16.
Proof.
  unfold encodedSize, outputSize.
  pose proof (EncodedLen_bounds (Z.of_nat (List.length (run_stdout r)))
                ltac:(lia)).
  pose proof (EncodedLen_bounds (Z.of_nat (List.length (run_stderr r)))
                ltac:(lia)).
  lia.
Qed.

(** X4. In bytes of output: a command that ran to its exit with at most
    48746 bytes on stdout and stderr together always gets its result
    through, with its exit code and both streams; one with more than
    48750 bytes never does and is answered with RespTooBig. *)
Theorem executeCommand_output_limit (j : Job) (r : RunResult)
    (sem : Semaphore) :
  completed r ->
  (outputSize r <= 48746 ->
   exists code,
     snd (executeCommand j r sem)
     = sendResult (mkCmdResult (job_token j) code
         (Base64.EncodeToString (run_stdout r))
         (Base64.EncodeToString (run_stderr r)))
     /\ (run_err r = None -> code = 0)
     /\ (forall c, run_err r = Some (ExitError c) -> code = c))
  /\ (48750 < outputSize r ->
      snd (executeCommand j r sem)
      = sendError (job_token j) CmdErrRespTooBig
          "stdout+stderr is too big").
Proof.
  intros Hdone. rewrite executeCommand_reply_cases_more.
  pose proof (encodedSize_bounds r) as Hb.
  unfold tooBigB.
  split; intros Hsize.
  - destruct (Z.ltb_spec 65000 (encodedSize r)); [lia|].
    destruct Hdone as [Hnone | (c & He & Hc)].
    + rewrite Hnone. exists 0. split; [reflexivity|].
      split; [reflexivity | discriminate].
    + rewrite He. exists c.
      split; [destruct (run_ctxErr r) as [[|]|];
              [contradiction | reflexivity..]|].
      split; [discriminate | intros c' [= <-]; reflexivity].
  - destruct (Z.ltb_spec 65000 (encodedSize r)); [|lia].
    destruct Hdone as [Hnone | (c & He & Hc)].
    + rewrite Hnone. reflexivity.
    + rewrite He. destruct (run_ctxErr r) as [[|]|];
        [contradiction | reflexivity..].
Qed.

Lemma executeCommand_output_limit_witness :
  (exists code,
     snd (executeCommand demo_job
            (mkRun (Some (ExitError 2)) None [x68; x69] []) 3)
     = sendResult (mkCmdResult "t3" code "aGk=" ""))
  /\ snd (executeCommand demo_job
            (mkRun None None (repeat x41 (N.to_nat 48000))
               (repeat x42 (N.to_nat 751))) 3)
     = sendError "t3" CmdErrRespTooBig "stdout+stderr is too big".
Proof.
  split.
  - assert (completed (mkRun (Some (ExitError 2)) None [x68; x69] []))
      as Hdone by (right; exists 2; split; [reflexivity | discriminate]).
    destruct (proj1 (executeCommand_output_limit demo_job _ 3 Hdone))
      as (code & Hreply & _).
    + vm_compute. discriminate.
    + exists code. exact Hreply.
  - assert (completed (mkRun None None (repeat x41 (N.to_nat 48000))
                         (repeat x42 (N.to_nat 751))))
      as Hdone by (left; reflexivity).
    apply (proj2 (executeCommand_output_limit demo_job _ 3 Hdone)).
    unfold outputSize. cbn [run_stdout run_stderr].
    rewrite !repeat_length, !N_nat_Z. lia.
Defined.

Lemma Execute_spawned lk lp cmd sem j :
  snd (Execute lk lp cmd sem) = Spawned j ->
  exists u p,
    (if String.eqb (req_Username cmd) "" then u = None
     else lk (req_Username cmd) = u /\ u <> None)
    /\ lp (req_Command cmd) = (p, None) /\ p <> ""
    /\ j = mkJob u p (req_Args cmd) (req_Token cmd)
             (determineTimeout (req_Timeout cmd)).
Proof.
  unfold Execute.
  destruct (String.eqb (req_Username cmd) "") eqn:Hname.
  - destruct (lp (req_Command cmd)) as [p [e|]]; simpl; [discriminate|].
    destruct (String.eqb_spec p ""); [discriminate|].
    destruct (trySend sem); simpl; [|discriminate].
    intros [= <-]. exists None, p. auto.
  - destruct (lk (req_Username cmd)) as [u|] eqn:Hlk; [|discriminate].
    destruct (lp (req_Command cmd)) as [p [e|]]; simpl; [discriminate|].
    destruct (String.eqb_spec p ""); [discriminate|].
    destruct (trySend sem); simpl; [|discriminate].
    intros [= <-]. exists (Some u), p.
    split; [split; [reflexivity | discriminate]|]. auto.
Qed.

(** X5. The subprocess of a request that got a slot is the executable
    the search path resolved, with the arguments of the request passed
    as they are and nothing else, in the agent's environment and
    directory; it is given a uid and gid only when the request names a
    user who resolves and whose ids are both numbers, and then these,
    as 32-bit values; in every other case it runs under the agent's own
    identity. *)
Theorem Execute_subprocess lk lp cmd sem j :
  snd (Execute lk lp cmd sem) = Spawned j ->
  cmd_Path (commandOf j) = fst (lp (req_Command cmd))
  /\ cmd_Args (commandOf j) = fst (lp (req_Command cmd)) :: req_Args cmd
  /\ cmd_Env (commandOf j) = [] /\ cmd_Dir (commandOf j) = ""
  /\ match cmd_SysProcAttr (commandOf j) with
     | Some cred =>
         exists u uid gid,
           req_Username cmd <> "" /\ lk (req_Username cmd) = Some u
           /\ Atoi (Uid u) = Some uid /\ Atoi (Gid u) = Some gid
           /\ cred = mkCredential (uid mod 2 ^ 32) (gid mod 2 ^ 32)
     | None =>
         req_Username cmd = ""
         \/ exists u, lk (req_Username cmd) = Some u
                      /\ (Atoi (Uid u) = None \/ Atoi (Gid u) = None)
     end.
Proof.
  intros Hj. destruct (Execute_spawned lk lp cmd sem j Hj)
    as (u & p & Hu & Hp & Hne & ->).
  rewrite Hp. unfold commandOf, setSysProcAttr, exec_Command. simpl.
  destruct (String.eqb_spec (req_Username cmd) "") as [Hn|Hn].
  - subst u. repeat split. left. exact Hn.
  - destruct Hu as [Hlk Hsome]. destruct u as [u|]; [|contradiction].
    destruct (Atoi (Uid u)) as [uid|] eqn:Huid.
    + destruct (Atoi (Gid u)) as [gid|] eqn:Hgid; simpl.
      * repeat split. exists u, uid, gid. auto.
      * repeat split. right. exists u. auto.
    + simpl. repeat split. right. exists u. auto.
Qed.

Lemma Execute_subprocess_witness :
  cmd_Args (commandOf
    (mkJob (Some demo_alice) "/bin/ls" ["-l"; "; rm x"] "t3"
       (5 * Second)))
  = ["/bin/ls"; "-l"; "; rm x"].
Proof.
  apply (proj1 (proj2 (Execute_subprocess demo_Lookup demo_LookPath
    (mkExecCmd "t3" "alice" "ls" ["-l"; "; rm x"] 5) 0 _ eq_refl))).
Defined.

(** X6. Every answer to a request carries the token of that request.
    A request that is turned away is answered at once with Permit,
    NotFound or NoMem and the message [CmdErrorString] has for that code,
    and the pool is left as it was; a request that got a slot is answered
    when its command returns, and an error then is SysErr or
    RespTooBig. *)
Theorem Execute_answers lk lp cmd sem :
  match snd (Execute lk lp cmd sem) with
  | Rejected reply =>
      fst (Execute lk lp cmd sem) = sem
      /\ exists code,
           reply = sendError (req_Token cmd) code (CmdErrorString code)
           /\ (code = CmdErrPermit \/ code = CmdErrNotFound
               \/ code = CmdErrNoMem)
  | Spawned j =>
      forall r sem',
        replyToken (snd (executeCommand j r sem')) = req_Token cmd
        /\ forall token code message,
             snd (executeCommand j r sem') = sendError token code message ->
             code = CmdErrSysErr \/ code = CmdErrRespTooBig
  end.
Proof.
  destruct (snd (Execute lk lp cmd sem)) as [reply|j] eqn:E.
  - revert E. unfold Execute.
    destruct (if String.eqb _ _ then _ else _).
    + destruct (lp _) as [p e]. destruct (_ || _).
      * simpl. intros [= <-]. split; [reflexivity|].
        exists CmdErrNotFound. auto.
      * unfold trySend. destruct (sem <? cmdRunningLimit); simpl;
          [discriminate|]. intros [= <-]. split; [reflexivity|].
        exists CmdErrNoMem. auto.
    + simpl. intros [= <-]. split; [reflexivity|].
      exists CmdErrPermit. auto.
  - destruct (Execute_spawned lk lp cmd sem j E)
      as (u & p & _ & _ & _ & ->).
    intros r sem'. rewrite executeCommand_reply_cases_more. simpl.
    destruct (run_err r) as [[c|text]|], (run_ctxErr r) as [[|]|],
      (tooBigB r); simpl; (split; [reflexivity|]);
      intros token code message; try discriminate;
      intros [= _ <- _]; auto.
Qed.

End ExecutorFacts.

(** ** The session manager, operation by operation *)

Module SessionFacts.
Import GoInt Time Session GoIntFacts SessionSpec.

(** *** Whole operations are runs of steps *)

Lemma drain_run (e : Event) (fuel : nat) :
  forall m, exists k, run m (repeat e k) = Some (drain e fuel m).
Proof.
  induction fuel as [|fuel IH]; intros m; [exists O; reflexivity|].
  simpl. destruct (step e m) as [m1|] eqn:Hstep.
  - destruct (IH m1) as [k Hk]. exists (S k). simpl. rewrite Hstep.
    exact Hk.
  - exists O. reflexivity.
Qed.

Lemma run_app (m : Manager) (a b : list Event) :
  run m (a ++ b) = match run m a with
                   | Some m' => run m' b
                   | None => None
                   end.
Proof.
  revert m. induction a as [|e a IH]; intros m; [reflexivity|].
  simpl. destruct (step e m); [apply IH | reflexivity].
Qed.

Lemma perform_run (op : Op) (m m' : Manager) :
  perform op m = Some m' -> exists trace, run m trace = Some m'.
Proof.
  destruct op as [e|h|h]; unfold perform.
  - destruct (isSingle e); [|discriminate]. intros H.
    exists [e]. cbn [run]. rewrite H. reflexivity.
  - destruct (step (ReaderWakes h) m) as [m1|] eqn:Hw; [|discriminate].
    intros H. apply (inj Some) in H. subst m'.
    destruct (drain_run (ReaderStep h) 4 m1) as [k Hk].
    exists (ReaderWakes h :: repeat (ReaderStep h) k).
    cbn [run]. rewrite Hw. exact Hk.
  - destruct (step (Tick h) m) as [m1|] eqn:Hw; [|discriminate].
    intros H. apply (inj Some) in H. subst m'.
    destruct (drain_run (MonitorStep h) 4 m1) as [k Hk].
    exists (Tick h :: repeat (MonitorStep h) k).
    cbn [run]. rewrite Hw. exact Hk.
Qed.

Lemma performAll_run (ops : list Op) :
  forall m m', performAll m ops = Some m' ->
               exists trace, run m trace = Some m'.
Proof.
  induction ops as [|op ops IH]; intros m m'; simpl.
  - intros H. exists []. exact H.
  - destruct (perform op m) as [m1|] eqn:Hop; [|discriminate].
    intros Hrest. destruct (perform_run op m m1 Hop) as [t1 H1].
    destruct (IH m1 m' Hrest) as [t2 H2].
    exists (t1 ++ t2). rewrite run_app, H1. exact H2.
Qed.

Lemma reachable_Consistent start ops m :
  performAll (NewSessionManager start) ops = Some m -> Consistent m.
Proof. apply Consistent_performAll, Consistent_init. Qed.

Lemma reachable_WellFormed start ops m :
  performAll (NewSessionManager start) ops = Some m -> WellFormed m.
Proof.
  intros H. destruct (performAll_run ops _ _ H) as [trace Hrun].
  apply (WellFormed_run trace _ _ (WellFormed_init start) Hrun).
Qed.

(** *** Closing a session *)

Lemma sent_closeAll (entries : list (string * nat)) :
  forall m, sent (fold_left closeOne entries m) = sent m.
Proof.
  induction entries as [|entry entries IH]; intros m; simpl;
    [reflexivity|]. rewrite IH. reflexivity.
Qed.

(** X7. Between operations of the manager, closing a registered session
    succeeds and closes its object; the id is then unknown, so that a
    second close and any input or resize for it fail with NoSession and
    change nothing; and the id is free again: a spawn under it succeeds
    and registers a new session object, open, beside the old one, which
    stays closed. *)
Theorem CloseSession_frees_id (start : Z) (ops : list Op) (m : Manager)
    (sessionID : string) (h : nat) :
  performAll (NewSessionManager start) ops = Some m ->
  sessions m !! sessionID = Some h ->
  let m1 := fst (CloseSession sessionID m) in
  snd (CloseSession sessionID m) = None
  /\ closedOf h m1 = Some true
  /\ CloseSession sessionID m1 = (m1, Some ErrNoSession)
  /\ Write sessionID m1 = (m1, Some ErrNoSession)
  /\ (forall cols rows, Resize sessionID cols rows m1
                        = (m1, Some ErrNoSession))
  /\ forall cols rows username,
       let m2 := fst (SpawnSession sessionID cols rows username
                        PtyStarted m1) in
       snd (SpawnSession sessionID cols rows username PtyStarted m1) = None
       /\ exists h', sessions m2 !! sessionID = Some h' /\ h' <> h
            /\ closedOf h' m2 = Some false /\ closedOf h m2 = Some true
            /\ SessionCount m2 = SessionCount m.
Proof.
  intros Hreach Hreg. pose proof (reachable_Consistent _ _ _ Hreach) as Hc.
  destruct (cons_registered m Hc sessionID h Hreg) as (s & Hs & Hid & Hopen).
  pose proof (Consistent_CloseSession sessionID m Hc) as Hc1.
  destruct (CloseSession_registered sessionID m (ex_intro _ h Hreg))
    as [Hok Hlive].
  revert Hc1 Hlive. unfold CloseSession. rewrite Hreg. cbn [fst snd].
  set (m1 := mkManager (delete sessionID (sessions m))
               (AddInt32 (sessionCount m) (-1))
               (alter Close h (heap m)) (now m) (sent m)).
  intros Hc1 Hlive.
  assert (heap m1 !! h = Some (Close s)) as Hs1
    by (unfold m1; simpl; rewrite list_lookup_alter_eq, Hs; reflexivity).
  assert (sessions m1 !! sessionID = None) as Hgone
    by (unfold m1; simpl; apply lookup_delete_eq).
  split; [reflexivity|].
  split; [unfold closedOf; rewrite Hs1; simpl; f_equal;
          apply Close_closed|].
  split; [rewrite Hgone; reflexivity|].
  split; [unfold Write; rewrite Hgone; reflexivity|].
  split; [intros cols rows; unfold Resize, Write; rewrite Hgone;
          reflexivity|].
  intros cols rows username.
  pose proof (cons_bound m Hc) as Hbound.
  assert (live m1 < maxSessions) as Hroom by lia.
  destruct (SpawnSession_fresh sessionID cols rows username m1 Hc1 Hroom
              Hgone) as (Hnone & _ & Hlive2).
  split; [exact Hnone|].
  pose proof (Consistent_SpawnSession sessionID cols rows username
                PtyStarted m1 Hc1) as Hc2.
  revert Hlive2 Hc2. unfold SpawnSession.
  rewrite (cons_count m1 Hc1).
  destruct (Z.leb_spec maxSessions (live m1)); [lia|].
  rewrite Hgone. cbn [fst]. intros Hlive2 Hc2.
  exists (List.length (heap m1)). cbn [sessions heap].
  split; [apply lookup_insert_eq|].
  pose proof (lookup_lt_Some _ _ _ Hs1) as Hlt.
  split; [lia|].
  unfold closedOf. cbn [heap].
  split; [rewrite list_lookup_middle by reflexivity; reflexivity|].
  split.
  - rewrite lookup_app_l by exact Hlt. rewrite Hs1. simpl. f_equal.
    apply Close_closed.
  - unfold SessionCount. rewrite (cons_count _ Hc2), (cons_count m Hc).
    lia.
Qed.

Lemma CloseSession_frees_id_witness :
  snd (CloseSession "s3" demo_full) = None
  /\ snd (CloseSession "s3" (fst (CloseSession "s3" demo_full)))
     = Some ErrNoSession
  /\ snd (SpawnSession "s3" 80 24 "" PtyStarted
            (fst (CloseSession "s3" demo_full))) = None.
Proof.
  assert (performAll (NewSessionManager 0) demo_spawns = Some demo_full)
    as Hrun by (vm_compute; reflexivity).
  assert (sessions demo_full !! "s3"%string = Some 3%nat) as Hreg
    by (vm_compute; reflexivity).
  destruct (CloseSession_frees_id 0 demo_spawns demo_full "s3" 3 Hrun Hreg)
    as (Hok & _ & Htwice & _ & _ & Hspawn).
  split; [exact Hok|]. split; [rewrite Htwice; reflexivity|].
  apply (Hspawn 80 24 ""%string).
Defined.

(** X8. Between operations of the manager, [CloseAllSessions] leaves no
    session registered and the counter at 0, closes every session object
    and sends no exit notification; afterwards every id is unknown. *)
Theorem CloseAllSessions_drains (start : Z) (ops : list Op) (m : Manager) :
  performAll (NewSessionManager start) ops = Some m ->
  let m' := CloseAllSessions m in
  sessions m' = ∅ /\ SessionCount m' = 0 /\ sent m' = sent m
  /\ List.length (heap m') = List.length (heap m)
  /\ (forall h s, heap m' !! h = Some s -> closed s = true)
  /\ forall sessionID,
       CloseSession sessionID m' = (m', Some ErrNoSession)
       /\ Write sessionID m' = (m', Some ErrNoSession).
Proof.
  intros Hreach. pose proof (reachable_Consistent _ _ _ Hreach) as Hc.
  destruct (CloseAllSessions_empties m Hc) as [Hc' Hempty]. cbn zeta.
  split; [exact Hempty|].
  split.
  { unfold SessionCount. rewrite (cons_count _ Hc'). unfold live.
    rewrite Hempty, map_size_empty. reflexivity. }
  split; [apply sent_closeAll|].
  split; [apply length_closeAll|].
  split.
  { intros h s Hs. destruct (closed s) eqn:Hcl; [reflexivity|].
    pose proof (cons_open _ Hc' h s Hs Hcl) as Hreg.
    rewrite Hempty, lookup_empty in Hreg. discriminate. }
  intros sessionID. unfold CloseSession, Write.
  rewrite Hempty, lookup_empty. auto.
Qed.

Lemma CloseAllSessions_drains_witness :
  sessions (CloseAllSessions demo_full) = ∅
  /\ SessionCount (CloseAllSessions demo_full) = 0.
Proof.
  assert (performAll (NewSessionManager 0) demo_spawns = Some demo_full)
    as Hrun by (vm_compute; reflexivity).
  destruct (CloseAllSessions_drains 0 demo_spawns demo_full Hrun)
    as (He & Hz & _).
  split; [exact He | exact Hz].
Defined.

(** *** A session whose shell exits *)

(** X9. In a state the manager has reached by whole operations, one
    after the other, so that no other way out of the session is under
    way: when the shell of a registered session exits and its reader
    then runs to its return with no step of another goroutine in
    between, exactly one exit notification is sent, for that session and
    with code 0; the session leaves the registry, the counter goes down
    by one and the session object is closed; the watchdog then stops
    without sending anything. *)
Theorem child_exit_notifies (start : Z) (ops : list Op) (m : Manager)
    (sessionID : string) (h : nat) (s : TermSession) :
  performAll (NewSessionManager start) ops = Some m ->
  sessions m !! sessionID = Some h -> heap m !! h = Some s ->
  reader s = Running ->
  exists m2,
    performAll m [Single (ChildExits h); ReaderExit h] = Some m2
    /\ sent m2 = ExitFrame h sessionID 0 :: sent m
    /\ sessions m2 = delete sessionID (sessions m)
    /\ SessionCount m2 = SessionCount m - 1
    /\ closedOf h m2 = Some true /\ readerOf h m2 = Some Finished
    /\ (monitor s = Running ->
        exists m3, step (MonitorStops h) m2 = Some m3
                   /\ monitorOf h m3 = Some Finished
                   /\ sent m3 = sent m2 /\ sessions m3 = sessions m2
                   /\ sessionCount m3 = sessionCount m2).
Proof.
  intros Hreach Hreg Hs Hr.
  pose proof (reachable_Consistent _ _ _ Hreach) as Hc.
  pose proof (reachable_WellFormed _ _ _ Hreach) as Hw.
  destruct (cons_registered m Hc sessionID h Hreg) as (s' & Hs' & Hid & Hopen).
  rewrite Hs in Hs'. injection Hs' as <-.
  destruct (wf_flags m Hw h s Hs) as [Htc Hsc].
  rewrite Hopen in Htc, Hsc.
  assert (1 <= live m <= maxSessions) as Hlive.
  { split; [|apply (cons_bound m Hc)]. unfold live.
    destruct (size (sessions m)) eqn:E; [|lia].
    apply map_size_empty_iff in E. rewrite E, lookup_empty in Hreg.
    discriminate. }
  pose proof (cons_count m Hc) as Hcount.
  destruct m as [reg cnt hp t out].
  cbn [sessions sessionCount heap now sent] in *.
  assert (exists s1, s1 = failPty s) as [s1 Es1] by eauto.
  assert (reader s1 = Running /\ stopChan s1 = false
          /\ readFails s1 = true /\ closed s1 = false
          /\ ID s1 = sessionID /\ monitor s1 = monitor s)
    as (Hr1 & Hsc1 & Hrf1 & Hcl1 & Hid1 & Hm1).
  { subst s1. unfold failPty, readFails. rewrite Htc. simpl.
    repeat split; auto. }
  eexists. split.
  { cbn [performAll]. unfold perform at 1. cbn [isSingle step heap].
    rewrite Hs. rewrite (onSession_at h failPty reg cnt hp t out s Hs).
    rewrite <- Es1. unfold perform. cbn [step heap].
    rewrite (insert_lookup_same h hp s s1 Hs).
    rewrite Hr1, Hsc1, Hrf1, Hcl1.
    rewrite (onSession_at h _ reg cnt _ t out s1)
      by (apply (insert_lookup_same h hp s s1 Hs)).
    rewrite list_insert_insert_eq.
    rewrite (drain_reader h _ (withReader (Exiting AtSendExit) s1))
      by (cbn [heap]; try apply (insert_lookup_same h hp s _ Hs);
          reflexivity).
    reflexivity. }
  unfold departed, SessionCount, closedOf, readerOf, monitorOf.
  cbn [sessions sessionCount heap now sent ID withReader].
  rewrite list_insert_insert_eq, Hid1.
  split; [reflexivity|]. split; [reflexivity|].
  split; [apply AddInt32_small; unfold maxSessions in *; lia|].
  rewrite (insert_lookup_same h hp s _ Hs).
  cbn [fmap option_fmap option_map].
  assert (closed (Close (withReader (Exiting AtSendExit) s1)) = true)
    as Hclosed by apply Close_closed.
  split; [f_equal; exact Hclosed|].
  split; [reflexivity|].
  intros Hm. eexists. split.
  { cbn [step heap]. rewrite (insert_lookup_same h hp s _ Hs).
    unfold Close. cbn [withReader closed]. rewrite Hcl1.
    cbn [withReader monitor stopChan]. rewrite Hm1, Hm. reflexivity. }
  unfold onSession, withHeap. cbn [sessions sessionCount heap now sent].
  rewrite list_lookup_alter_eq, (insert_lookup_same h hp s _ Hs).
  auto.
Qed.

Lemma child_exit_notifies_witness :
  exists m2,
    performAll demo_one [Single (ChildExits 0); ReaderExit 0] = Some m2
    /\ sent m2 = [ExitFrame 0 "s1" 0] /\ SessionCount m2 = 0.
Proof.
  assert (performAll (NewSessionManager 0)
            [Single (Spawn "s1" 80 24 "" PtyStarted)] = Some demo_one)
    as Hrun by (vm_compute; reflexivity).
  destruct (child_exit_notifies 0 _ demo_one "s1" 0 _ Hrun
              eq_refl eq_refl eq_refl)
    as (m2 & Hrun2 & Hsent & _ & Hcount & _).
  exists m2. split; [exact Hrun2|]. split; [exact Hsent | exact Hcount].
Defined.

(** *** Activity and the watchdog *)

Lemma Tick_spares (h : nat) (m m' : Manager) (s : TermSession) :
  heap m !! h = Some s -> closed s = false ->
  0 <= now m - lastActivity s <= inactivityTimeout ->
  step (Tick h) m = Some m' ->
  monitor s = Running
  /\ m' = onSession h (fun s' => withMonitor Running (ticked s')) m.
Proof.
  intros Hs Hopen Hrecent Hstep.
  apply step_Tick in Hstep
    as (s' & Hs' & Hm & _ & [(_ & Hi & _)|(-> & _)]);
    rewrite Hs in Hs'; injection Hs' as <-; [|auto].
  exfalso. unfold inactive in Hi.
  rewrite Since_gt in Hi
    by (unfold inactivityTimeout, Second, MaxInt64; lia).
  apply Z.ltb_lt in Hi. lia.
Qed.

(** X10. Input, a resize and output of the pty each set the activity
    clock of an open session to the present, and a tick of the watchdog
    that comes no more than 600 s later leaves the session as it is:
    open, registered and counted, its watchdog in its loop, and no exit
    notification sent. *)
Theorem activity_postpones_timeout (m m3 : Manager) (sessionID : string)
    (h : nat) (s : TermSession) (e : Event) (d : Z) :
  sessions m !! sessionID = Some h -> heap m !! h = Some s ->
  closed s = false -> isActivity sessionID h e = true ->
  0 <= d <= inactivityTimeout ->
  run m [e; Elapse d; Tick h] = Some m3 ->
  exists s3,
    heap m3 !! h = Some s3 /\ closed s3 = false
    /\ monitor s3 = Running /\ lastActivity s3 = now m
    /\ sessions m3 = sessions m /\ sessionCount m3 = sessionCount m
    /\ exitsOf h m3 = exitsOf h m.
Proof.
  intros Hreg Hs Hopen Hact Hd Hrun.
  assert (exists out,
            step e m = Some (mkManager (sessions m) (sessionCount m)
                               (<[h := touch (now m) s]> (heap m))
                               (now m) out)
            /\ List.filter (isExitOf h) out = exitsOf h m)
    as (out & Hstep & Hout).
  { destruct m as [reg cnt hp t out]. cbn [sessions heap now] in *.
    destruct e; try discriminate Hact; cbn [isActivity] in Hact.
    - apply String.eqb_eq in Hact. subst sessionID0.
      exists out. split; [|reflexivity].
      cbn [step]. unfold Write. cbn [sessions heap now].
      rewrite Hreg, Hs, Hopen.
      rewrite (onSession_at h _ reg cnt hp t out s Hs). reflexivity.
    - apply String.eqb_eq in Hact. subst sessionID0.
      exists out. split; [|reflexivity].
      cbn [step]. unfold Resize, Write. cbn [sessions heap now].
      rewrite Hreg, Hs, Hopen.
      rewrite (onSession_at h _ reg cnt hp t out s Hs). reflexivity.
    - apply Nat.eqb_eq in Hact. subst h0.
      cbn [run] in Hrun.
      destruct (step (PtyOutput h data) (mkManager reg cnt hp t out))
        as [m1|] eqn:Hstep; [|discriminate].
      clear Hrun. cbn [step heap] in Hstep. rewrite Hs in Hstep.
      destruct (reader s), (readFails s), data as [|b data];
        try discriminate.
      apply (inj Some) in Hstep. subst m1. eexists. cbn zeta.
      rewrite (onSession_at h _ reg cnt hp t out s Hs).
      cbn [sessions sessionCount heap now sent].
      split; reflexivity. }
  cbn [run] in Hrun. rewrite Hstep in Hrun.
  destruct (step (Elapse d) _) as [m2|] eqn:He; [|discriminate].
  cbn [step] in He. destruct (Z.leb_spec 0 d); [|lia].
  apply (inj Some) in He. subst m2.
  cbn [sessions sessionCount heap now sent] in Hrun.
  destruct (step (Tick h) _) as [m'|] eqn:Htick; [|discriminate].
  apply (inj Some) in Hrun. subst m'.
  apply (Tick_spares h _ _ (touch (now m) s)) in Htick.
  - destruct Htick as [Hm ->].
    rewrite (onSession_at h _ _ _ _ _ _ (touch (now m) s))
      by (apply (insert_lookup_same h _ s _ Hs)).
    cbn [sessions sessionCount heap]. eexists.
    split; [apply (insert_lookup_same h _ (touch (now m) s)),
            (insert_lookup_same h _ s _ Hs)|].
    unfold exitsOf in *.
    cbn [sent closed withMonitor ticked touch monitor lastActivity].
    repeat split; auto.
  - apply (insert_lookup_same h _ s _ Hs).
  - exact Hopen.
  - cbn [now lastActivity touch]. lia.
Qed.

Lemma activity_postpones_timeout_witness :
  exists m3 s3,
    run demo_one [Input "s1"; Elapse (600 * Second); Tick 0] = Some m3
    /\ heap m3 !! 0%nat = Some s3
    /\ closed s3 = false /\ monitor s3 = Running.
Proof.
  destruct (run demo_one [Input "s1"; Elapse (600 * Second); Tick 0])
    as [m3|] eqn:Hrun; [|vm_compute in Hrun; discriminate Hrun].
  destruct (activity_postpones_timeout demo_one m3 "s1" 0 _
              (Input "s1") (600 * Second) eq_refl eq_refl eq_refl eq_refl)
    as (s3 & Hs3 & Hopen & Hmon & _).
  - unfold inactivityTimeout, Second. lia.
  - exact Hrun.
  - exists m3, s3. auto.
Defined.

(** *** A session closed from outside *)











End SessionFacts.

(** ** The codec: plain text *)

Module CodecFacts.
Import GoInt Codec CodecSpec.

(** ASCII is printed as it is. *)
Lemma ascii_text (s : string) : isASCII s = true -> textOf s = s.
Proof.
  unfold isASCII, textOf. induction s as [|c s IH]; [reflexivity|].
  cbn [list_ascii_of_string forallb]. intros H.
  apply andb_prop in H as [Hc Hs].
  cbn [appendString DecodeRuneInString]. rewrite Hc. cbn [Nat.pred].
  rewrite IH by exact Hs. reflexivity.
Qed.

End CodecFacts.

(** ** The dispatcher and the handlers *)

Module DispatchFacts.
Import GoInt Os Codec Session Executor Dispatch.
Import Base64Round CodecFacts.

Section WithEnv.
Variable env : Env.
Variable MsgTypeCompressFiles MsgTypeGetDirStats : string.
Variable CompressFilesData GetDirStatsData : schema.

Let handle : json -> Agent -> Handled :=
  handleMessage env MsgTypeCompressFiles MsgTypeGetDirStats
    CompressFilesData GetDirStatsData.

Let switch : Message -> Agent -> Handled :=
  dispatch env MsgTypeCompressFiles MsgTypeGetDirStats
    CompressFilesData GetDirStatsData.

(** What [sendMessage] changes. *)
Lemma sendMessage_written msgType data a :
  ag_written (fst (sendMessage env msgType data a))
  = (if ag_conn a then MarshalMessage msgType data :: ag_written a
     else ag_written a)
  /\ ag_sessions (fst (sendMessage env msgType data a)) = ag_sessions a
  /\ ag_pool (fst (sendMessage env msgType data a)) = ag_pool a
  /\ ag_conn (fst (sendMessage env msgType data a)) = ag_conn a.
Proof. unfold sendMessage. destruct (ag_conn a) eqn:E; simpl; auto. Qed.

Lemma spawn_pty_decoded (sessionID username : string) (cols rows : Z) :
  validText sessionID = true -> validText username = true ->
  0 <= cols < 65536 -> 0 <= rows < 65536 ->
  let vs := [VScalar (VString sessionID); VScalar (VInt cols);
             VScalar (VInt rows); VScalar (VString username)] in
  exists msg,
    ParseMessage (MarshalMessage "spawn_pty" (Some (SpawnPtyData, vs)))
    = Some msg
    /\ msg_Type msg = "spawn_pty"%string
    /\ UnmarshalData SpawnPtyData msg = Some vs.
Proof.
  intros Hid Huser Hcols Hrows vs. eexists. split.
  { apply CodecSpec.ParseMessage_MarshalMessage. reflexivity. }
  split; [reflexivity|].
  unfold UnmarshalData, NewMessage. cbn [msg_Data].
  rewrite CodecSpec.json_roundtrip.
  - unfold vs, SpawnPtyData, req, opt. cbn.
    destruct (String.eqb username "") eqn:E; [|reflexivity].
    apply String.eqb_eq in E. rewrite E. reflexivity.
  - reflexivity.
  - unfold structOk, vs, SpawnPtyData, req, opt. simpl.
    rewrite Hid, Huser.
    destruct (Z.leb_spec 0 cols), (Z.ltb_spec cols 65536),
      (Z.leb_spec 0 rows), (Z.ltb_spec rows 65536);
      first [lia | reflexivity].
Qed.

Ltac refused_spawn :=
  unfold sendPtyExit;
  match goal with
  | |- context [sendMessage ?e ?t ?d ?x] =>
      destruct (sendMessage_written t d x) as (Hw & Hs' & Hp & Hc);
      rewrite Hw, Hs', Hp, Hc; simpl; auto 6
  end.

(** X15. A spawn_pty request, as [MarshalMessage] frames it, never
    makes the handler return an error and never touches the executor's
    pool or the connection.  With fewer than 10 sessions counted, an id
    that is not registered and a pty that starts, the session is
    registered and open, the counter is one higher and nothing is
    written.  In every other case the session manager is left as it is
    and the server is told with one pty_exit frame carrying the
    requested id and the code -1; with no connection that frame is
    dropped. *)
Theorem handleSpawnPty_reports (sessionID username : string)
    (cols rows : Z) (a : Agent) :
  validText sessionID = true -> validText username = true ->
  0 <= cols < 65536 -> 0 <= rows < 65536 ->
  let m := ag_sessions a in
  let frame :=
    MarshalMessage "spawn_pty"
      (Some (SpawnPtyData,
             [VScalar (VString sessionID); VScalar (VInt cols);
              VScalar (VInt rows); VScalar (VString username)])) in
  let '(a', effects, err) := handle frame a in
  err = None /\ effects = [] /\ ag_pool a' = ag_pool a
  /\ ag_conn a' = ag_conn a
  /\ if (sessionCount m <? maxSessions)
        && bool_decide (sessions m !! sessionID = None)
        && ptyStarts (env_pty env)
     then isLive (ag_sessions a') sessionID = true
          /\ sessionCount (ag_sessions a') = AddInt32 (sessionCount m) 1
          /\ ag_written a' = ag_written a
     else ag_sessions a' = m
          /\ ag_written a'
             = if ag_conn a
               then ptyExitFrame sessionID (-1) :: ag_written a
               else ag_written a.
Proof.
  intros Hid Huser Hcols Hrows m frame.
  destruct (spawn_pty_decoded sessionID username cols rows Hid Huser
              Hcols Hrows) as (msg & Hparse & Htype & Hdata).
  fold frame in Hparse.
  unfold handle, handleMessage. rewrite Hparse. unfold dispatch.
  rewrite Htype.
  cbn [String.eqb Ascii.eqb Bool.eqb]. unfold handleSpawnPty.
  rewrite Hdata. cbn [stringAt intAt lookup list_lookup].
  unfold SpawnSession. fold m.
  rewrite Z.leb_antisym.
  destruct (sessionCount m <? maxSessions); cbn [negb andb];
    [|refused_spawn].
  destruct (sessions m !! sessionID) as [h|] eqn:Hs.
  { rewrite bool_decide_eq_false_2 by discriminate. cbn [andb].
    refused_spawn. }
  rewrite bool_decide_eq_true_2 by reflexivity. cbn [andb].
  destruct (env_pty env); cbn [ptyStarts]; [|refused_spawn..].
  simpl. repeat split.
  unfold isLive. simpl. rewrite lookup_insert_eq.
  rewrite lookup_app_r by reflexivity.
  rewrite Nat.sub_diag. reflexivity.
Qed.

Lemma pty_input_decoded (sessionID data : string) :
  validText sessionID = true -> validText data = true ->
  let frame := MarshalMessage "pty_input"
                 (Some (PtyInputData, [VScalar (VString sessionID);
                                       VScalar (VString data)])) in
  exists msg,
    ParseMessage frame = Some msg /\ msg_Type msg = "pty_input"%string
    /\ UnmarshalData PtyInputData msg
       = Some [VScalar (VString sessionID); VScalar (VString data)].
Proof.
  intros Hid Hdata frame. eexists. split.
  { apply CodecSpec.ParseMessage_MarshalMessage. reflexivity. }
  split; [reflexivity|].
  unfold UnmarshalData, NewMessage. cbn [msg_Data].
  rewrite CodecSpec.json_roundtrip.
  - reflexivity.
  - reflexivity.
  - unfold structOk, PtyInputData, req. simpl.
    rewrite Hid, Hdata. reflexivity.
Qed.

(** X16. A pty_input frame made with [MarshalMessage] around the
    base64 text of some bytes, for a registered session: when the
    session is open the handler writes exactly these bytes to the
    terminal of that session and to no other, sets the session's last
    activity to the current time, leaves the registry alone, writes
    nothing to the connection and returns what the terminal write
    returned; when the session is closed it returns NoSession, writes
    nothing and changes nothing. *)
Theorem handlePtyInput_delivers (sessionID : string) (bytes : list byte)
    (a : Agent) (h : nat) (s : TermSession) :
  validText sessionID = true ->
  sessions (ag_sessions a) !! sessionID = Some h ->
  heap (ag_sessions a) !! h = Some s ->
  let frame :=
    MarshalMessage "pty_input"
      (Some (PtyInputData,
             [VScalar (VString sessionID);
              VScalar (VString (Base64.EncodeToString bytes))])) in
  let '(a', effects, err) := handle frame a in
  if closed s
  then a' = a /\ effects = []
       /\ err = Some (ErrOfSession ErrNoSession)
  else effects = [TerminalWrite h bytes]
       /\ heap (ag_sessions a') !! h
          = Some (touch (now (ag_sessions a)) s)
       /\ sessions (ag_sessions a') = sessions (ag_sessions a)
       /\ ag_written a' = ag_written a
       /\ err = match env_termWrite env with
                | Some text => Some (ErrIO text)
                | None => None
                end.
Proof.
  intros Hid Hh Hs frame.
  destruct (pty_input_decoded sessionID (Base64.EncodeToString bytes) Hid)
    as (msg & Hparse & Htype & Hdata).
  { unfold validText. rewrite ascii_text by apply EncodeToString_ascii.
    apply String.eqb_refl. }
  unfold handle, handleMessage. fold frame in Hparse.
  rewrite Hparse. unfold dispatch. rewrite Htype.
  cbn [String.eqb Ascii.eqb Bool.eqb]. unfold handlePtyInput.
  rewrite Hdata. cbn [stringAt lookup list_lookup].
  unfold GetSession. rewrite Hh.
  rewrite DecodeString_EncodeToString.
  unfold Session.Write. rewrite Hh, Hs.
  destruct (closed s).
  - destruct a as [m p c w]. simpl. auto.
  - simpl. rewrite list_lookup_alter_eq, Hs. simpl. auto.
Qed.

(** X17. A pty_input request whose data holds a byte that is neither
    a base64 digit, nor a line break, nor the padding character is
    refused as a whole: nothing is written to the terminal, the agent
    and with it the session's last activity stay as they were, and the
    handler returns the decoder's error, or NoSession when the id is not
    registered, which is checked first. *)
Theorem handlePtyInput_corrupt (sessionID data : string) (a : Agent)
    (c : ascii) :
  validText sessionID = true -> validText data = true ->
  In c (list_ascii_of_string data) ->
  Base64.legal c = false ->
  let frame :=
    MarshalMessage "pty_input"
      (Some (PtyInputData,
             [VScalar (VString sessionID); VScalar (VString data)])) in
  handle frame a
  = (a, [],
     Some (match sessions (ag_sessions a) !! sessionID with
           | Some _ => ErrCorruptInput
           | None => ErrOfSession ErrNoSession
           end)).
Proof.
  intros Hid Hdata Hin Hc frame.
  destruct (pty_input_decoded sessionID data Hid Hdata)
    as (msg & Hparse & Htype & Hmsg).
  fold frame in Hparse.
  unfold handle, handleMessage. rewrite Hparse. unfold dispatch.
  rewrite Htype.
  cbn [String.eqb Ascii.eqb Bool.eqb]. unfold handlePtyInput.
  rewrite Hmsg. cbn [stringAt lookup list_lookup]. unfold GetSession.
  destruct (sessions (ag_sessions a) !! sessionID); [|reflexivity].
  unfold Base64.DecodeString.
  rewrite (decodeFrom_rejects c _ Hc Hin). reflexivity.
Qed.

(** X18. Whatever bytes a terminal has produced, well-formed text or
    not, the frame [sendPtyData] writes for them is read back by
    [ParseMessage] as a pty_data message with the same session id, and
    base64 decoding of its data gives back exactly these bytes. *)
Theorem sendPtyData_recoverable (sessionID : string) (data : list byte)
    (a : Agent) :
  validText sessionID = true -> ag_conn a = true ->
  exists frame msg enc,
    ag_written (sendPtyData env sessionID data a) = frame :: ag_written a
    /\ ParseMessage frame = Some msg
    /\ msg_Type msg = "pty_data"%string
    /\ UnmarshalData PtyDataMsg msg
       = Some [VScalar (VString sessionID); VScalar (VString enc)]
    /\ Base64.DecodeString enc = Some data.
Proof.
  intros Hid Hconn. unfold sendPtyData.
  destruct (sendMessage_written "pty_data"
              (Some (PtyDataMsg,
                     [VScalar (VString sessionID);
                      VScalar (VString (Base64.EncodeToString data))])) a)
    as (Hw & _).
  rewrite Hconn in Hw.
  eexists _, _, (Base64.EncodeToString data).
  split; [exact Hw|]. split.
  { apply CodecSpec.ParseMessage_MarshalMessage. reflexivity. }
  split; [reflexivity|]. split.
  - unfold UnmarshalData, NewMessage. cbn [msg_Data].
    rewrite CodecSpec.json_roundtrip.
    + reflexivity.
    + reflexivity.
    + unfold structOk, PtyDataMsg, req. simpl. rewrite Hid.
      unfold validText.
      rewrite ascii_text by apply EncodeToString_ascii.
      rewrite String.eqb_refl. reflexivity.
  - apply DecodeString_EncodeToString.
Qed.

Lemma exec_cmd_decoded (token username command : string)
    (args : list string) (timeout : Z) :
  validText token = true -> validText username = true ->
  validText command = true -> forallb validText args = true ->
  MinInt64 <= timeout <= MaxInt64 ->
  let vs := [VScalar (VString token); VScalar (VString username);
             VScalar (VString command); VStrings (Some args);
             VScalar (VInt timeout)] in
  exists msg data,
    ParseMessage (MarshalMessage "exec_cmd" (Some (Codec.ExecCmdData, vs)))
    = Some msg
    /\ msg_Type msg = "exec_cmd"%string
    /\ UnmarshalData Codec.ExecCmdData msg = Some data
    /\ stringAt 0 data = token /\ stringAt 1 data = username
    /\ stringAt 2 data = command /\ stringsAt 3 data = args
    /\ intAt 4 data = timeout.
Proof.
  intros Htoken Huser Hcmd Hargs Htime vs. eexists. eexists. split.
  { apply CodecSpec.ParseMessage_MarshalMessage. reflexivity. }
  split; [reflexivity|].
  unfold UnmarshalData, NewMessage. cbn [msg_Data].
  rewrite CodecSpec.json_roundtrip.
  - split; [reflexivity|].
    unfold vs, Codec.ExecCmdData, req, opt. cbn.
    split; [reflexivity|]. split.
    { destruct (String.eqb username "") eqn:E; [|reflexivity].
      apply String.eqb_eq in E. rewrite E. reflexivity. }
    split; [reflexivity|]. split.
    { destruct args; reflexivity. }
    destruct (Z.eqb_spec timeout 0) as [->|]; reflexivity.
  - reflexivity.
  - unfold structOk, vs, Codec.ExecCmdData, req, opt. simpl.
    rewrite Htoken, Huser, Hcmd, Hargs.
    unfold MinInt64, MaxInt64 in *.
    destruct (Z.leb_spec (- 2 ^ 63) timeout),
      (Z.leb_spec timeout (2 ^ 63 - 1)); first [lia | reflexivity].
Qed.

(** X19. An exec_cmd request, as [MarshalMessage] frames it, reaches
    [Execute] with every field as it was sent and never makes the
    handler return an error or touch the sessions.  Either one goroutine
    is started for it, with the token of the request, a slot that was
    free is taken and nothing is written; or nothing is started, the
    pool stays as it was and one cmd_error frame is written with the
    token of the request, the code 1, 2 or 3 and the text
    [CmdErrorString] has for it, a frame that is dropped when there is
    no connection. *)
Theorem handleExecCmd_answers (token username command : string)
    (args : list string) (timeout : Z) (a : Agent) :
  validText token = true -> validText username = true ->
  validText command = true -> forallb validText args = true ->
  MinInt64 <= timeout <= MaxInt64 ->
  let frame :=
    MarshalMessage "exec_cmd"
      (Some (Codec.ExecCmdData,
             [VScalar (VString token); VScalar (VString username);
              VScalar (VString command); VStrings (Some args);
              VScalar (VInt timeout)])) in
  let '(a', effects, err) := handle frame a in
  err = None /\ ag_sessions a' = ag_sessions a
  /\ ((exists j,
         Execute (env_Lookup env) (env_LookPath env)
           (mkExecCmd token username command args timeout) (ag_pool a)
         = (ag_pool a', Spawned j)
         /\ effects = [GoExecuteCommand j] /\ job_token j = token
         /\ job_args j = args
         /\ ag_pool a < cmdRunningLimit /\ ag_pool a' = ag_pool a + 1
         /\ ag_written a' = ag_written a)
      \/ (exists code,
            effects = [] /\ ag_pool a' = ag_pool a
            /\ (code = CmdErrPermit \/ code = CmdErrNotFound
                \/ code = CmdErrNoMem)
            /\ ag_written a'
               = if ag_conn a
                 then cmdErrorFrame token code (CmdErrorString code)
                        :: ag_written a
                 else ag_written a)).
Proof.
  intros Htoken Huser Hcmd Hargs Htime frame.
  destruct (exec_cmd_decoded token username command args timeout
              Htoken Huser Hcmd Hargs Htime)
    as (msg & data & Hparse & Htype & Hdata & E0 & E1 & E2 & E3 & E4).
  fold frame in Hparse.
  unfold handle, handleMessage. rewrite Hparse. unfold dispatch.
  rewrite Htype.
  cbn [String.eqb Ascii.eqb Bool.eqb]. unfold handleExecCmd.
  rewrite Hdata, E0, E1, E2, E3, E4.
  unfold Execute. cbn [req_Username req_Token
    req_Command req_Timeout req_Args].
  destruct (if String.eqb _ _ then _ else _).
  - destruct (env_LookPath env _) as [p e]. destruct (_ || _).
    + split; [reflexivity|]. unfold sendReply, sendCmdError.
      destruct (sendMessage_written "cmd_error"
                  (Some (Codec.CmdErrorData,
                         [VScalar (VString token);
                          VScalar (VInt CmdErrNotFound);
                          VScalar (VString "command not found")]))
                  (withPool (ag_pool a) a)) as (Hw & Hs & Hp & Hc).
      rewrite Hw, Hs. split; [reflexivity|]. right.
      exists CmdErrNotFound. rewrite Hp.
      split; [reflexivity|]. split; [reflexivity|]. split; [auto|].
      simpl. destruct (ag_conn a); reflexivity.
    + unfold trySend. destruct (Z.ltb_spec (ag_pool a) cmdRunningLimit).
      * split; [reflexivity|]. split; [reflexivity|]. left.
        eexists. simpl. auto 10.
      * split; [reflexivity|]. unfold sendReply, sendCmdError.
        destruct (sendMessage_written "cmd_error"
                    (Some (Codec.CmdErrorData,
                           [VScalar (VString token);
                            VScalar (VInt CmdErrNoMem);
                            VScalar (VString
                                       "too many concurrent commands")]))
                    (withPool (ag_pool a) a)) as (Hw & Hs & Hp & Hc).
        rewrite Hw, Hs. split; [reflexivity|]. right.
        exists CmdErrNoMem. rewrite Hp.
      split; [reflexivity|]. split; [reflexivity|]. split; [auto|].
      simpl. destruct (ag_conn a); reflexivity.
  - split; [reflexivity|]. unfold sendReply, sendCmdError.
    destruct (sendMessage_written "cmd_error"
                (Some (Codec.CmdErrorData,
                       [VScalar (VString token);
                        VScalar (VInt CmdErrPermit);
                        VScalar (VString "operation not permitted")]))
                (withPool (ag_pool a) a)) as (Hw & Hs & Hp & Hc).
    rewrite Hw, Hs. split; [reflexivity|]. right.
    exists CmdErrPermit. rewrite Hp.
      split; [reflexivity|]. split; [reflexivity|]. split; [auto|].
      simpl. destruct (ag_conn a); reflexivity.
Qed.

Lemma sendMessage_Bounded msgType data a m sem :
  Bounded a (let a0 := mkAgent m sem (ag_conn a) (ag_written a) in
             (fst (sendMessage env msgType data a0), [], None)).
Proof.
  unfold Bounded, sendMessage. simpl.
  destruct (ag_conn a) eqn:E; simpl; rewrite ?E;
    (split; [reflexivity|]); (split; [lia|]); split;
    try (intros [?|?]; discriminate); eauto.
Qed.

Ltac bounded_trivial :=
  unfold Bounded; simpl;
  split; [reflexivity|]; split; [lia|];
  split; [left; reflexivity|];
  first [ intros [?|?]; discriminate | intros _; split; reflexivity ].

Lemma handleSpawnPty_Bounded msg a :
  Bounded a (handleSpawnPty env msg a)
  /\ ag_pool (fst (fst (handleSpawnPty env msg a))) = ag_pool a.
Proof.
  unfold handleSpawnPty.
  destruct (UnmarshalData SpawnPtyData msg) as [data|];
    [|split; [bounded_trivial | reflexivity]].
  destruct (SpawnSession _ _ _ _ _ _) as [m [e|]].
  - split.
    + apply (sendMessage_Bounded "pty_exit" _ a m (ag_pool a)).
    + unfold sendPtyExit, sendMessage. simpl.
      destruct (ag_conn a); reflexivity.
  - split; [bounded_trivial | reflexivity].
Qed.

Lemma handlePtyInput_Bounded msg a :
  Bounded a (handlePtyInput env msg a)
  /\ ag_pool (fst (fst (handlePtyInput env msg a))) = ag_pool a
  /\ ag_written (fst (fst (handlePtyInput env msg a))) = ag_written a.
Proof.
  unfold handlePtyInput.
  destruct (UnmarshalData PtyInputData msg) as [data|];
    [|split; [bounded_trivial | auto]].
  destruct (GetSession _ _) as [[h|] [e|]];
    try (split; [bounded_trivial | auto]);
    (destruct (Base64.DecodeString _);
     [|split; [bounded_trivial | auto]]);
    (destruct (Session.Write _ _) as [m [e'|]];
     [split; [bounded_trivial | auto]|]);
    (destruct (env_termWrite env);
     (split; [bounded_trivial | auto])).
Qed.

Lemma handlePtyResize_Bounded msg a :
  Bounded a (handlePtyResize env msg a)
  /\ ag_pool (fst (fst (handlePtyResize env msg a))) = ag_pool a
  /\ ag_written (fst (fst (handlePtyResize env msg a))) = ag_written a.
Proof.
  unfold handlePtyResize.
  destruct (UnmarshalData PtyResizeData msg) as [data|];
    [|split; [bounded_trivial | auto]].
  destruct (GetSession _ _) as [[h|] [e|]];
    try (split; [bounded_trivial | auto]);
    (destruct (Session.Resize _ _ _ _) as [m [e'|]];
     [split; [bounded_trivial | auto]|]);
    (destruct (env_setWinSize env);
     (split; [bounded_trivial | auto])).
Qed.

Lemma handleClosePty_Bounded msg a :
  Bounded a (handleClosePty msg a)
  /\ ag_pool (fst (fst (handleClosePty msg a))) = ag_pool a
  /\ ag_written (fst (fst (handleClosePty msg a))) = ag_written a.
Proof.
  unfold handleClosePty.
  destruct (UnmarshalData ClosePtyData msg) as [data|];
    [|split; [bounded_trivial | auto]].
  destruct (CloseSession _ _) as [m [e|]];
    (split; [bounded_trivial | auto]).
Qed.

Lemma handleExecCmd_Bounded msg a :
  Bounded a (handleExecCmd env msg a)
  /\ ag_sessions (fst (fst (handleExecCmd env msg a))) = ag_sessions a.
Proof.
  unfold handleExecCmd.
  destruct (UnmarshalData Codec.ExecCmdData msg) as [data|];
    [|split; [bounded_trivial | auto]].
  destruct (Execute _ _ _ _) as [sem [reply|j]].
  - destruct reply as [result|token code message]; split;
      try (unfold sendReply, sendCmdResult, sendCmdError, sendMessage;
           simpl; destruct (ag_conn a); reflexivity).
    + apply (sendMessage_Bounded "cmd_result" _ a (ag_sessions a) sem).
    + apply (sendMessage_Bounded "cmd_error" _ a (ag_sessions a) sem).
  - split; [bounded_trivial | auto].
Qed.

Lemma handleFileOp_Bounded msgType fields msg a :
  Bounded a (handleFileOp msgType fields msg a)
  /\ fst (fst (handleFileOp msgType fields msg a)) = a.
Proof.
  unfold handleFileOp.
  destruct (UnmarshalData fields msg) as [data|];
    (split; [bounded_trivial | auto]).
Qed.

Lemma dispatch_Bounded (msg : Message) (a : Agent) :
  Bounded a (switch msg a).
Proof.
  unfold switch, dispatch.
  destruct (String.eqb (msg_Type msg) "register_ack");
    [unfold handleRegisterAck; destruct (UnmarshalData _ _);
     bounded_trivial|].
  destruct (String.eqb (msg_Type msg) "spawn_pty");
    [apply handleSpawnPty_Bounded|].
  destruct (String.eqb (msg_Type msg) "pty_input");
    [apply handlePtyInput_Bounded|].
  destruct (String.eqb (msg_Type msg) "pty_resize");
    [apply handlePtyResize_Bounded|].
  destruct (String.eqb (msg_Type msg) "close_pty");
    [apply handleClosePty_Bounded|].
  destruct (String.eqb (msg_Type msg) "exec_cmd");
    [apply handleExecCmd_Bounded|].
  destruct (String.eqb (msg_Type msg) "ping").
  { unfold Bounded, sendMessage.
    destruct (ag_conn a) eqn:Ec; simpl; rewrite ?Ec.
    - split; [reflexivity|]. split; [lia|]. split; [right; eauto|].
      destruct (env_WriteMessage env _); intros [?|?]; discriminate.
    - split; [reflexivity|]. split; [lia|].
      split; [left; reflexivity|]. intros [?|?]; discriminate. }
  destruct (lookupType _ _);
    [apply handleFileOp_Bounded | bounded_trivial].
Qed.

Lemma dispatch_scope (msg : Message) (a : Agent) :
  (stateful (msg_Type msg) = false ->
   ag_sessions (fst (fst (switch msg a))) = ag_sessions a
   /\ ag_pool (fst (fst (switch msg a))) = ag_pool a)
  /\ (replying (msg_Type msg) = false ->
      ag_written (fst (fst (switch msg a))) = ag_written a).
Proof.
  unfold switch, dispatch, stateful, replying.
  destruct (String.eqb (msg_Type msg) "register_ack") eqn:E0.
  { apply String.eqb_eq in E0. rewrite E0. simpl.
    unfold handleRegisterAck. destruct (UnmarshalData _ _); auto. }
  destruct (String.eqb (msg_Type msg) "spawn_pty") eqn:E1.
  { simpl. split; discriminate. }
  destruct (String.eqb (msg_Type msg) "pty_input") eqn:E2.
  { simpl. split; [discriminate|]. intros _.
    apply handlePtyInput_Bounded. }
  destruct (String.eqb (msg_Type msg) "pty_resize") eqn:E3.
  { simpl. split; [discriminate|]. intros _.
    apply handlePtyResize_Bounded. }
  destruct (String.eqb (msg_Type msg) "close_pty") eqn:E4.
  { simpl. split; [discriminate|]. intros _.
    apply handleClosePty_Bounded. }
  destruct (String.eqb (msg_Type msg) "exec_cmd") eqn:E5.
  { simpl. split; discriminate. }
  destruct (String.eqb (msg_Type msg) "ping") eqn:E6.
  { simpl. split; [|discriminate]. intros _.
    unfold sendMessage. destruct (ag_conn a); simpl; auto. }
  destruct (lookupType _ _) as [fields|].
  - destruct (handleFileOp_Bounded (msg_Type msg) fields msg a)
      as [_ ->].
    auto.
  - simpl. auto.
Qed.

(** X20. Whatever frame arrives, handling it leaves the connection
    as it is, starts at most one operation and writes at most one frame,
    never both; and a frame that cannot be parsed, or whose data cannot
    be decoded, changes nothing at all.  Of the messages [ParseMessage]
    returns, only spawn_pty, pty_input, pty_resize, close_pty and
    exec_cmd can change the sessions or the pool, and only spawn_pty,
    exec_cmd and ping are answered by the handler itself: a file
    operation request, like a message of a type that is not known,
    writes nothing before the handler returns. *)
Theorem handleMessage_footprint (frame : json) (a : Agent) :
  (let '(a', effects, err) := handle frame a in
   ag_conn a' = ag_conn a
   /\ (List.length effects <= 1)%nat
   /\ (ag_written a' = ag_written a
       \/ effects = []
          /\ exists reply, ag_written a' = reply :: ag_written a)
   /\ (err = Some ErrParse \/ err = Some ErrUnmarshal ->
       a' = a /\ effects = []))
  /\ forall msg,
       let '(a', effects, err) := switch msg a in
       (stateful (msg_Type msg) = false ->
        ag_sessions a' = ag_sessions a /\ ag_pool a' = ag_pool a)
       /\ (replying (msg_Type msg) = false ->
           ag_written a' = ag_written a).
Proof.
  split.
  - assert (Bounded a (handle frame a)) as H.
    { unfold handle, handleMessage.
      destruct (ParseMessage frame) as [msg|];
        [apply dispatch_Bounded | bounded_trivial]. }
    unfold Bounded in H. exact H.
  - intros msg. pose proof (dispatch_scope msg a) as H.
    destruct (switch msg a) as [[a' effects] err]. exact H.
Qed.

End WithEnv.

Lemma handleSpawnPty_reports_witness :
  let frame :=
    MarshalMessage "spawn_pty"
      (Some (SpawnPtyData,
             [VScalar (VString "s1"); VScalar (VInt 80);
              VScalar (VInt 24); VScalar (VString "")])) in
  let r := handleMessage demo_env "compress_files" "get_dir_stats" [] []
             frame demo_agent in
  ag_sessions (fst (fst r)) = ag_sessions demo_agent
  /\ ag_written (fst (fst r)) = [ptyExitFrame "s1" (-1)].
Proof.
  intros frame r.
  pose proof (handleSpawnPty_reports demo_env "compress_files"
                "get_dir_stats" [] [] "s1" "" 80 24 demo_agent
                eq_refl eq_refl ltac:(lia) ltac:(lia)) as H.
  cbv zeta in H. fold frame r in H. clearbody r.
  destruct r as [[a' effects] err].
  destruct H as (_ & _ & _ & _ & H). exact H.
Defined.

Lemma handlePtyInput_delivers_witness :
  let frame :=
    MarshalMessage "pty_input"
      (Some (PtyInputData,
             [VScalar (VString "s1");
              VScalar (VString (Base64.EncodeToString [x6c; x73; x0a]))]))
  in
  let r := handleMessage demo_env "compress_files" "get_dir_stats" [] []
             frame demo_agent in
  snd (fst r) = [TerminalWrite 0 [x6c; x73; x0a]].
Proof.
  intros frame r.
  pose proof (handlePtyInput_delivers demo_env "compress_files"
                "get_dir_stats" [] [] "s1" [x6c; x73; x0a] demo_agent 0%nat
                (mkSession "s1" false false 0 false false Running Running
                   (60 * Time.Second))
                eq_refl eq_refl eq_refl) as H.
  cbv zeta in H. fold frame r in H. clearbody r.
  destruct r as [[a' effects] err]. exact (proj1 H).
Defined.

Lemma handlePtyInput_corrupt_witness :
  handleMessage demo_env "compress_files" "get_dir_stats" [] []
    (MarshalMessage "pty_input"
       (Some (PtyInputData,
              [VScalar (VString "s1"); VScalar (VString "bHM*")])))
    demo_agent
  = (demo_agent, [], Some ErrCorruptInput).
Proof.
  apply (handlePtyInput_corrupt demo_env "compress_files" "get_dir_stats"
           [] [] "s1" "bHM*" demo_agent "*"%char eq_refl eq_refl).
  - simpl. auto.
  - reflexivity.
Defined.

Lemma sendPtyData_recoverable_witness :
  exists frame msg enc,
    ag_written (sendPtyData demo_env "s1" [xff; x00; x80] demo_agent)
    = frame :: ag_written demo_agent
    /\ ParseMessage frame = Some msg
    /\ msg_Type msg = "pty_data"%string
    /\ UnmarshalData PtyDataMsg msg
       = Some [VScalar (VString "s1"); VScalar (VString enc)]
    /\ Base64.DecodeString enc = Some [xff; x00; x80].
Proof.
  apply (sendPtyData_recoverable demo_env "s1" [xff; x00; x80] demo_agent);
    reflexivity.
Defined.

Lemma handleExecCmd_answers_witness :
  let frame :=
    MarshalMessage "exec_cmd"
      (Some (Codec.ExecCmdData,
             [VScalar (VString "t1"); VScalar (VString "alice");
              VScalar (VString "ls"); VStrings (Some ["-l"%string]);
              VScalar (VInt 45)])) in
  let r := handleMessage demo_env "compress_files" "get_dir_stats" [] []
             frame demo_agent in
  snd r = None /\ ag_pool (fst (fst r)) = 1
  /\ exists j, snd (fst r) = [GoExecuteCommand j]
               /\ job_token j = "t1"%string.
Proof.
  intros frame r.
  pose proof (handleExecCmd_answers demo_env "compress_files"
                "get_dir_stats" [] [] "t1" "alice" "ls" ["-l"%string] 45
                demo_agent eq_refl eq_refl eq_refl eq_refl
                ltac:(unfold MinInt64, MaxInt64; lia)) as H.
  cbv zeta in H. fold frame r in H.
  destruct r as [[a' effects] err] eqn:Er. cbn [fst snd].
  destruct H as (Herr & _ & [(j & _ & He & Ht & _ & _ & Hp & _)
                             | (code & He & _)]).
  - split; [exact Herr|]. split; [rewrite Hp; reflexivity|].
    exists j. auto.
  - exfalso. apply (f_equal (fun r => snd (fst r))) in Er.
    simpl in Er. rewrite He in Er. vm_compute in Er. discriminate Er.
Defined.

End DispatchFacts.

(** ** Configuration, stored credentials and enrolment *)

Module SetupFacts.
Import GoInt Time Codec Dispatch Setup.

Lemma withHeartbeat_same (c : Config) : withHeartbeat (cfg_Heartbeat c) c = c.
Proof. destruct c. reflexivity. Qed.

Lemma heartbeat_exact (n : Z) :
  5 <= n <= 300 -> Seconds n = n * Second.
Proof.
  intros H. apply GoIntFacts.Seconds_exact. unfold MaxSeconds. lia.
Qed.

(** X21. [Validate] refuses a configuration without server address,
    and then one without device id, with the message of each, and
    leaves a configuration it refuses as it is, heartbeat included.  One
    it accepts comes back with the heartbeat brought into 5..300 and
    nothing else changed, and unchanged when the heartbeat was in that
    range; the period of the heartbeat ticker is then that many seconds
    exactly, between 5 s and 300 s; and validating again changes
    nothing. *)
Theorem Validate_heartbeat (c : Config) :
  match Validate c with
  | (c', Some err) =>
      c' = c
      /\ (cfg_ServerAddr c = ""%string
          /\ err = "server address is required"%string
          \/ cfg_ServerAddr c <> ""%string /\ cfg_DeviceID c = ""%string
             /\ err = "device ID is required"%string)
  | (c', None) =>
      cfg_ServerAddr c <> ""%string /\ cfg_DeviceID c <> ""%string
      /\ c' = withHeartbeat (Z.max 5 (Z.min 300 (cfg_Heartbeat c))) c
      /\ (5 <= cfg_Heartbeat c <= 300 -> c' = c)
      /\ heartbeatPeriod c' = cfg_Heartbeat c' * Second
      /\ 5 * Second <= heartbeatPeriod c' <= 300 * Second
      /\ Validate c' = (c', None)
  end.
Proof.
  unfold Validate.
  destruct (String.eqb_spec (cfg_ServerAddr c) "") as [Ha|Ha];
    [auto|].
  destruct (String.eqb_spec (cfg_DeviceID c) "") as [Hd|Hd];
    [auto 6|].
  split; [exact Ha|]. split; [exact Hd|].
  assert ((if 300 <? cfg_Heartbeat
                      (if cfg_Heartbeat c <? 5 then withHeartbeat 5 c else c)
           then withHeartbeat 300
                  (if cfg_Heartbeat c <? 5 then withHeartbeat 5 c else c)
           else if cfg_Heartbeat c <? 5 then withHeartbeat 5 c else c)
          = withHeartbeat (Z.max 5 (Z.min 300 (cfg_Heartbeat c))) c) as ->.
  { destruct (Z.ltb_spec (cfg_Heartbeat c) 5).
    - simpl. replace (Z.max 5 (Z.min 300 (cfg_Heartbeat c))) with 5 by lia.
      reflexivity.
    - destruct (Z.ltb_spec 300 (cfg_Heartbeat c)).
      + replace (Z.max 5 (Z.min 300 (cfg_Heartbeat c))) with 300 by lia.
        reflexivity.
      + replace (Z.max 5 (Z.min 300 (cfg_Heartbeat c)))
          with (cfg_Heartbeat c) by lia.
        symmetry. apply withHeartbeat_same. }
  set (n := Z.max 5 (Z.min 300 (cfg_Heartbeat c))).
  assert (5 <= n <= 300) as Hn by (unfold n; lia).
  split; [reflexivity|]. split.
  { intros Hin. replace n with (cfg_Heartbeat c) by (unfold n; lia).
    apply withHeartbeat_same. }
  unfold heartbeatPeriod. cbn [withHeartbeat cfg_Heartbeat].
  rewrite heartbeat_exact by exact Hn.
  split; [reflexivity|]. split; [unfold Second; lia|].
  cbn [withHeartbeat cfg_ServerAddr cfg_DeviceID cfg_Heartbeat].
  destruct (String.eqb_spec (cfg_ServerAddr c) ""); [contradiction|].
  destruct (String.eqb_spec (cfg_DeviceID c) ""); [contradiction|].
  destruct (Z.ltb_spec n 5); [lia|].
  change (cfg_Heartbeat (withHeartbeat n c)) with n.
  destruct (Z.ltb_spec 300 n); [lia|]. reflexivity.
Qed.

Lemma creds_roundtrip (creds : StoredCredentials) :
  credsText creds = true ->
  json_Unmarshal StoredCredentialsData
    (json_Marshal StoredCredentialsData (fieldsOfCreds creds))
  = Some (fieldsOfCreds creds).
Proof.
  unfold credsText. intros H.
  apply andb_prop in H as [H H4]. apply andb_prop in H as [H H3].
  apply andb_prop in H as [H1 H2].
  rewrite CodecSpec.json_roundtrip.
  - reflexivity.
  - reflexivity.
  - unfold structOk, StoredCredentialsData, fieldsOfCreds, req. simpl.
    rewrite H1, H2, H3, H4. reflexivity.
Qed.

Lemma creds_fields (creds : StoredCredentials) :
  credsOfFields (fieldsOfCreds creds) = creds.
Proof. destruct creds. reflexivity. Qed.

Lemma Load_stored (host : Host) (creds : StoredCredentials) (k : Keyring) :
  credsText creds = true ->
  secrets k !! (keychainService, getKeychainUser host)
  = Some (json_Marshal StoredCredentialsData (fieldsOfCreds creds)) ->
  LoadCredentials None host k = inr creds.
Proof.
  intros Htext Hk. unfold LoadCredentials, keyring_Get. rewrite Hk.
  rewrite creds_roundtrip by exact Htext.
  rewrite creds_fields. reflexivity.
Qed.

(** X22. With a keychain that works, credentials whose strings are
    well-formed text are saved without error and loaded back as they
    were, under the host name of the machine, [default] when it has
    none; what is stored under another name is not touched.  Once
    deleted they are not found any more, by [LoadCredentials], by
    [HasStoredCredentials] and by a second [DeleteCredentials]. *)
Theorem Credentials_roundtrip (host : Host) (creds : StoredCredentials)
    (k : Keyring) :
  credsText creds = true ->
  let k1 := fst (SaveCredentials None host creds k) in
  let k2 := fst (DeleteCredentials None host k1) in
  snd (SaveCredentials None host creds k) = None
  /\ LoadCredentials None host k1 = inr creds
  /\ HasStoredCredentials None host k1 = true
  /\ (forall other,
        getKeychainUser other <> getKeychainUser host ->
        LoadCredentials None other k1 = LoadCredentials None other k)
  /\ snd (DeleteCredentials None host k1) = None
  /\ LoadCredentials None host k2 = inl ErrNotFound
  /\ HasStoredCredentials None host k2 = false
  /\ snd (DeleteCredentials None host k2) = Some ErrNotFound.
Proof.
  intros Htext k1 k2. unfold k2, k1.
  unfold SaveCredentials, keyring_Set. cbn [fst snd].
  set (key := (keychainService, getKeychainUser host)).
  set (doc := json_Marshal StoredCredentialsData (fieldsOfCreds creds)).
  set (k1' := mkKeyring (<[key := doc]> (secrets k))).
  assert (LoadCredentials None host k1' = inr creds) as Hload
    by (apply Load_stored; [exact Htext | apply lookup_insert_eq]).
  assert (DeleteCredentials None host k1'
          = (mkKeyring (delete key (secrets k1')), None)) as Hdel.
  { unfold DeleteCredentials, keyring_Delete. fold key.
    unfold k1' at 1. cbn [secrets].
    rewrite lookup_insert_eq. reflexivity. }
  rewrite Hdel. cbn [fst snd].
  assert (LoadCredentials None host (mkKeyring (delete key (secrets k1')))
          = inl ErrNotFound) as Hgone.
  { unfold LoadCredentials, keyring_Get. fold key. cbn [secrets].
    rewrite lookup_delete_eq. reflexivity. }
  split; [reflexivity|]. split; [exact Hload|].
  split; [unfold HasStoredCredentials; rewrite Hload; reflexivity|].
  split.
  { intros other Hne. unfold LoadCredentials, keyring_Get.
    unfold k1'. cbn [secrets].
    rewrite lookup_insert_ne; [reflexivity|].
    unfold key. congruence. }
  split; [reflexivity|].
  split; [exact Hgone|].
  split; [unfold HasStoredCredentials; rewrite Hgone; reflexivity|].
  unfold DeleteCredentials, keyring_Delete. fold key. cbn [secrets].
  rewrite lookup_delete_eq. reflexivity.
Qed.

(** X23. [Enroll] writes to the keychain only at its end: when it
    returns no error the dial and the registration went through, the
    answer was a register_ack whose data could be decoded and said
    success, and what is stored is the server address and the TLS choice
    of the call, the device id it registered with and the token and the
    id the server sent.  When it returns any error other than that of
    the keychain itself, the keychain, with what an earlier enrolment
    has left in it, is as it was; and the keychain's error is only
    returned by a keychain that is out of order. *)
Theorem Enroll_all_or_nothing (fault : option string) (host : Host)
    (peer : Peer) (cfg : EnrollConfig) (k : Keyring) :
  match Enroll fault host peer cfg k with
  | (k', None) =>
      peer_Dial peer (enrollDial cfg) = None
      /\ peer_Write peer
           (registration host (deviceOf host cfg) (en_Token cfg)) = None
      /\ exists frame msg ack,
           peer_Read peer = inr frame
           /\ ParseMessage frame = Some msg
           /\ msg_Type msg = "register_ack"%string
           /\ unmarshalAck msg = Some ack /\ boolAt 0 ack = true
           /\ SaveCredentials fault host
                (mkCreds (en_Server cfg) (stringAt 3 ack) (stringAt 2 ack)
                   (deviceOf host cfg) (en_SSL cfg)) k
              = (k', None)
  | (k', Some (FailedToStore err)) => fault <> None
  | (k', Some _) => k' = k
  end.
Proof.
  unfold Enroll.
  destruct (peer_Dial peer (enrollDial cfg)) eqn:Hdial; [reflexivity|].
  destruct (peer_Write peer _) eqn:Hwrite; [reflexivity|].
  destruct (peer_Read peer) as [err|frame] eqn:Hread; [reflexivity|].
  destruct (ParseMessage frame) as [msg|] eqn:Hparse; [|reflexivity].
  destruct (String.eqb_spec (msg_Type msg) "register_ack") as [Ht|Ht];
    cbn [negb]; [|reflexivity].
  destruct (unmarshalAck msg) as [ack|] eqn:Hack; [|reflexivity].
  destruct (boolAt 0 ack) eqn:Hok; cbn [negb]; [|reflexivity].
  destruct (SaveCredentials fault host _ k) as [k' [err|]] eqn:Hsave.
  - unfold SaveCredentials, keyring_Set in Hsave.
    destruct fault; [discriminate | discriminate Hsave].
  - split; [reflexivity|]. split; [reflexivity|].
    exists frame, msg, ack. auto 8.
Qed.

Lemma ackFrame_read (agentID agentToken : string) (t f u : bool) :
  exists msg ack,
    ParseMessage (ackFrame agentID agentToken t f u) = Some msg
    /\ msg_Type msg = "register_ack"%string
    /\ unmarshalAck msg = Some ack
    /\ boolAt 0 ack = true /\ stringAt 2 ack = agentID
    /\ stringAt 3 ack = agentToken.
Proof. eexists. eexists. repeat split. Qed.

(** X24. After an enrolment that the server accepted, [runAgent]
    without flags on the same machine starts the agent, and the agent
    dials the URL the enrolment dialled, sends the token the server has
    issued as its bearer token (no header if that token is empty), and
    registers under the device id of the enrolment, with reconnection
    on and a heartbeat of 30 s.  Certificate verification is on again
    even if the enrolment was made with it off: that choice is not
    stored. *)
Theorem Enroll_then_runAgent (host : Host) (peer : Peer)
    (cfg : EnrollConfig) (k : Keyring) (agentID agentToken : string)
    (t f u : bool) :
  en_Server cfg <> ""%string ->
  validText (en_Server cfg) = true ->
  validText (deviceOf host cfg) = true ->
  validText agentID = true -> validText agentToken = true ->
  peer_Dial peer (enrollDial cfg) = None ->
  peer_Write peer (registration host (deviceOf host cfg) (en_Token cfg))
  = None ->
  peer_Read peer = inr (ackFrame agentID agentToken t f u) ->
  let k' := fst (Enroll None host peer cfg k) in
  snd (Enroll None host peer cfg k) = None
  /\ runStatus None host k'
     = Some (mkCreds (en_Server cfg) agentToken agentID
               (deviceOf host cfg) (en_SSL cfg))
  /\ exists c,
       runAgent None host noFlags k' = Started c
       /\ dial_url (connectDial c) = dial_url (enrollDial cfg)
       /\ dial_tls (connectDial c)
          = (if en_SSL cfg then Some false else None)
       /\ dial_auth (connectDial c)
          = (if String.eqb agentToken "" then None
             else Some ("Bearer " ++ agentToken)%string)
       /\ cfg_DeviceID c = deviceOf host cfg
       /\ cfg_Reconnect c = true /\ cfg_Heartbeat c = 30.
Proof.
  intros Hserver Hs Hd Hid Htok Hdial Hwrite Hread k'.
  assert (deviceOf host cfg <> ""%string) as Hdev.
  { unfold deviceOf.
    destruct (String.eqb_spec (en_DeviceID cfg) ""); [|assumption].
    destruct (String.eqb_spec (host_name host) "");
      [discriminate | assumption]. }
  set (creds := mkCreds (en_Server cfg) agentToken agentID
                  (deviceOf host cfg) (en_SSL cfg)).
  assert (Enroll None host peer cfg k
          = (mkKeyring
               (<[(keychainService, getKeychainUser host)
                  := json_Marshal StoredCredentialsData
                       (fieldsOfCreds creds)]> (secrets k)), None))
    as Henroll.
  { unfold Enroll. rewrite Hdial, Hwrite, Hread.
    destruct (ackFrame_read agentID agentToken t f u)
      as (msg & ack & -> & -> & -> & -> & -> & ->).
    reflexivity. }
  unfold k'. rewrite Henroll. cbn [fst snd].
  assert (LoadCredentials None host
            (mkKeyring
               (<[(keychainService, getKeychainUser host)
                  := json_Marshal StoredCredentialsData
                       (fieldsOfCreds creds)]> (secrets k)))
          = inr creds) as Hload.
  { apply Load_stored.
    - unfold credsText, creds.
      cbn [cred_ServerAddr cred_AgentToken cred_AgentID cred_DeviceID].
      rewrite Hs, Hd, Hid, Htok. reflexivity.
    - cbn [secrets]. apply lookup_insert_eq. }
  split; [reflexivity|].
  split; [unfold runStatus; rewrite Hload; reflexivity|].
  unfold runAgent. rewrite Hload. unfold noFlags.
  cbn [flag_server flag_id flag_ssl flag_insecure flag_reconnect
       flag_heartbeat flag_debug default DefaultConfig
       cfg_Insecure cfg_Reconnect cfg_Heartbeat cfg_Debug creds
       cred_ServerAddr cred_DeviceID cred_AgentToken cred_SSL].
  unfold Validate.
  cbn [cfg_ServerAddr cfg_DeviceID cfg_Heartbeat].
  destruct (String.eqb_spec (en_Server cfg) ""); [contradiction|].
  destruct (String.eqb_spec (deviceOf host cfg) ""); [contradiction|].
  eexists. split; [reflexivity|]. cbn. auto 8.
Qed.

Lemma Credentials_roundtrip_witness :
  let creds := mkCreds "termix.example.com:30007" "secret" "a7" "box" true in
  let k1 := fst (SaveCredentials None demo_host creds (mkKeyring ∅)) in
  LoadCredentials None demo_host k1 = inr creds
  /\ LoadCredentials None demo_host
       (fst (DeleteCredentials None demo_host k1)) = inl ErrNotFound.
Proof.
  intros creds k1.
  destruct (Credentials_roundtrip demo_host creds (mkKeyring ∅) eq_refl)
    as (_ & Hload & _ & _ & _ & Hgone & _).
  split; [exact Hload | exact Hgone].
Defined.

Lemma Enroll_then_runAgent_witness :
  let k' := fst (Enroll None demo_host demo_peer demo_enroll
                   (mkKeyring ∅)) in
  exists c,
    runAgent None demo_host noFlags k' = Started c
    /\ dial_url (connectDial c)
       = "wss://termix.example.com:30007/ws/agent"%string
    /\ dial_tls (connectDial c) = Some false
    /\ dial_auth (connectDial c) = Some "Bearer secret"%string
    /\ cfg_DeviceID c = "box"%string.
Proof.
  intros k'.
  destruct (Enroll_then_runAgent demo_host demo_peer demo_enroll
              (mkKeyring ∅) "a7" "secret" true false false
              ltac:(discriminate) eq_refl eq_refl eq_refl eq_refl
              eq_refl eq_refl eq_refl)
    as (_ & _ & c & Hrun & Hurl & Htls & Hauth & Hdev & _).
  exists c. split; [exact Hrun|]. split; [exact Hurl|].
  split; [exact Htls|]. split; [exact Hauth | exact Hdev].
Defined.

End SetupFacts.

(** ** Streaming a file in chunks *)

Module FileOpsFacts.
Import GoInt Codec Dispatch FileOps.
Import Base64Round.

Section WithFile.
Variable sys : FileSystem.
Variable requestID path : string.
Variable file : OpenFile.
Hypothesis Hopen : fs_Open sys path = inr file.
Hypothesis Hread : file_readError file = None.

Lemma StreamChunk_bytes (offset length : Z) :
  file_Seek file offset = None -> 0 <= length <= fs_available sys ->
  StreamChunk sys requestID path offset length
  = chunkResponse requestID offset
      (Z.of_nat (List.length (readFull (file_content file) offset length)))
      (Base64.EncodeToString (readFull (file_content file) offset length))
      ""
  /\ bytesOf (StreamChunk sys requestID path offset length)
     = Some (readFull (file_content file) offset length).
Proof.
  intros Hseek Hl. unfold StreamChunk. rewrite Hopen, Hseek, Hread.
  destruct (Z.ltb_spec length 0); [lia|].
  destruct (Z.ltb_spec (fs_available sys) length); [lia|].
  cbn [orb]. destruct (length =? 0); (split; [reflexivity|]);
    unfold chunkResponse, bytesOf; cbn [stringAt lookup list_lookup];
    cbn [String.eqb]; apply DecodeString_EncodeToString.
Qed.

Lemma chunksFrom_take (length : Z) (count : nat) :
  0 < length <= fs_available sys ->
  forall first : nat,
    (forall i, (first <= i < first + count)%nat ->
               file_Seek file (Z.of_nat i * length) = None) ->
    chunksFrom sys requestID path (Z.of_nat first * length) length count
    = Some (firstn (count * Z.to_nat length)
              (skipn (first * Z.to_nat length) (file_content file))).
Proof.
  intros Hl. induction count as [|count IH]; intros first Hseek.
  - reflexivity.
  - cbn [chunksFrom].
    destruct (StreamChunk_bytes (Z.of_nat first * length) length)
      as [_ ->]; [apply Hseek; lia | lia |].
    replace (Z.of_nat first * length + length)
      with (Z.of_nat (S first) * length) by lia.
    rewrite IH by (intros i Hi; apply Hseek; lia).
    f_equal. unfold readFull.
    replace (Z.to_nat (Z.of_nat first * length))
      with (first * Z.to_nat length)%nat by nia.
    replace (S first * Z.to_nat length)%nat
      with (first * Z.to_nat length + Z.to_nat length)%nat by lia.
    rewrite <- drop_drop.
    replace (S count * Z.to_nat length)%nat
      with (Z.to_nat length + count * Z.to_nat length)%nat by lia.
    apply take_take_drop.
Qed.

(** X25. For a file that can be opened and whose reads do not fail:
    a request whose seek succeeds, for a length the runtime can
    allocate, is answered without error with the offset of the request
    and the base64 text of exactly the bytes of the file from that
    offset on, as many as asked for or as are left, none past the end;
    requests for chunk after chunk of the same positive length, from
    the start until the chunks cover the size of the file, all seeks
    succeeding, give the file back byte for byte; and a request with a
    negative length whose seek succeeds makes the runtime panic before
    anything is answered. *)
Theorem StreamChunk_reassembles (offset length : Z) :
  (file_Seek file offset = None -> 0 <= offset ->
   0 <= length <= fs_available sys ->
   let chunk := firstn (Z.to_nat length)
                  (skipn (Z.to_nat offset) (file_content file)) in
   StreamChunk sys requestID path offset length
   = chunkResponse requestID offset (Z.of_nat (List.length chunk))
       (Base64.EncodeToString chunk) ""
   /\ bytesOf (StreamChunk sys requestID path offset length) = Some chunk
   /\ Z.of_nat (List.length chunk)
      = Z.max 0 (Z.min length
                   (Z.of_nat (List.length (file_content file)) - offset)))
  /\ (0 < length <= fs_available sys ->
      forall count,
        (forall i, (i < count)%nat ->
                   file_Seek file (Z.of_nat i * length) = None) ->
        Z.of_nat (List.length (file_content file))
        <= Z.of_nat count * length ->
        chunksFrom sys requestID path 0 length count
        = Some (file_content file))
  /\ (file_Seek file offset = None -> length < 0 ->
      StreamChunk sys requestID path offset length = Panics).
Proof.
  split; [|split].
  - intros Hseek Ho Hl chunk.
    destruct (StreamChunk_bytes offset length Hseek Hl) as [Hr Hb].
    split; [exact Hr|]. split; [exact Hb|].
    unfold chunk. rewrite length_take, length_drop. lia.
  - intros Hl count Hseek Hcount.
    pose proof (chunksFrom_take length count Hl 0%nat) as H.
    change (Z.of_nat 0 * length) with 0 in H.
    change (0 * Z.to_nat length)%nat with 0%nat in H.
    cbn [skipn] in H. rewrite H.
    + f_equal. apply take_ge. nia.
    + intros i Hi. apply Hseek. lia.
  - intros Hseek Hneg. unfold StreamChunk. rewrite Hopen, Hseek.
    destruct (Z.ltb_spec length 0); [|lia]. reflexivity.
Qed.

End WithFile.

Lemma StreamChunk_reassembles_witness :
  bytesOf (StreamChunk demo_fs "r1" "/tmp/f" 3 4) = Some [x6c; x6f]
  /\ chunksFrom demo_fs "r1" "/tmp/f" 0 2 3
     = Some [x68; x65; x6c; x6c; x6f]
  /\ StreamChunk demo_fs "r1" "/tmp/f" 3 (-1) = Panics.
Proof.
  pose proof (StreamChunk_reassembles demo_fs "r1" "/tmp/f"
                (regularFile [x68; x65; x6c; x6c; x6f]) eq_refl eq_refl
                3 4) as (Hslice & _ & _).
  pose proof (StreamChunk_reassembles demo_fs "r1" "/tmp/f"
                (regularFile [x68; x65; x6c; x6c; x6f]) eq_refl eq_refl
                0 2) as (_ & Hall & _).
  pose proof (StreamChunk_reassembles demo_fs "r1" "/tmp/f"
                (regularFile [x68; x65; x6c; x6c; x6f]) eq_refl eq_refl
                3 (-1)) as (_ & _ & Hneg).
  split; [|split].
  - apply Hslice; [reflexivity | lia | simpl; lia].
  - apply (Hall ltac:(simpl; lia) 3%nat).
    + intros i Hi. unfold regularFile. cbn [file_Seek].
      destruct (Z.ltb_spec (Z.of_nat i * 2) 0); [lia | reflexivity].
    + simpl. lia.
  - apply Hneg; [reflexivity | lia].
Defined.

End FileOpsFacts.
